(** * fileure: reversible obfuscation of file and directory names

    A shallow embedding of the Python sources

      - [utils/encrypt.py], [utils/decrypt.py]  (module [Cipher])
      - [mount.py]                               (module [Mount])
      - [unmount.py]                             (module [Unmount])

    Python values are represented as follows.

      - [str]   : a list of Unicode code points ([N]); Python strings are
                  sequences of code points, and the cipher behaves
                  differently on code points above 127, so the 8-bit
                  [string] of the standard library is not used for data.
      - [bytes] : a list of [N], every element below 256.
      - a raising computation returns [Raise e] in the [result] type.
      - [st_mtime] (a float) is a rational number; every finite float is one.
      - the directory tree read by [os.scandir] is an inductive tree whose
        child lists are in the order [os.scandir] yields them.
      - [os.rename], [filedate.File(..).set], [uuid4] and the local-time
        rendering of a timestamp are the operations of a [Host] class
        acting on an explicit world state. *)

From Stdlib Require Import NArith ZArith QArith Qround List Bool Lia.
From Stdlib Require Import Ascii String DecimalZ Permutation.
Import ListNotations.

Set Warnings "-register-all".
Local Open Scope N_scope.

(** ** Python values *)

Definition str := list N.
Definition bytes := list N.

(** A string literal of the development: one code point per character. *)
Definition lit (s : string) : str :=
  List.map N_of_ascii (list_ascii_of_string s).

Inductive exn : Type :=
| UnicodeEncodeError
| UnicodeDecodeError
| ValueError
| OSError (what : str).

Inductive result (A : Type) : Type :=
| Ok (a : A)
| Raise (e : exn).
Arguments Ok {A} a.
Arguments Raise {A} e.

Definition bind {A B} (r : result A) (k : A -> result B) : result B :=
  match r with
  | Ok a => k a
  | Raise e => Raise e
  end.

Declare Scope py_scope.
Notation "x <- c1 ;; c2" := (bind c1 (fun x => c2))
  (at level 61, c1 at next level, right associativity) : py_scope.
Notation "' pat <- c1 ;; c2" := (bind c1 (fun pat => c2))
  (at level 61, pat pattern, c1 at next level, right associativity) : py_scope.
Local Open Scope py_scope.

Definition returns {A} (r : result A) : Prop := exists a, r = Ok a.

(** ** SHA-256 ([hashlib.sha256(..).digest()]), FIPS 180-4 *)

Module SHA256.

Definition mask32 (x : N) : N := x mod 4294967296.
Definition add32 (x y : N) : N := mask32 (x + y).
Definition rotr (n x : N) : N :=
  N.lor (N.shiftr x n) (mask32 (N.shiftl x (32 - n))).
Definition not32 (x : N) : N := N.lxor x 0xffffffff.

Definition Ch (x y z : N) : N := N.lxor (N.land x y) (N.land (not32 x) z).
Definition Maj (x y z : N) : N :=
  N.lxor (N.land x y) (N.lxor (N.land x z) (N.land y z)).
Definition Sigma0 (x : N) : N :=
  N.lxor (rotr 2 x) (N.lxor (rotr 13 x) (rotr 22 x)).
Definition Sigma1 (x : N) : N :=
  N.lxor (rotr 6 x) (N.lxor (rotr 11 x) (rotr 25 x)).
Definition sigma0 (x : N) : N :=
  N.lxor (rotr 7 x) (N.lxor (rotr 18 x) (N.shiftr x 3)).
Definition sigma1 (x : N) : N :=
  N.lxor (rotr 17 x) (N.lxor (rotr 19 x) (N.shiftr x 10)).

(** The constants are defined the way the standard derives them: from the
    first sixty-four primes, the first 32 bits of the fractional parts of
    their cube roots (round constants) and, for the first eight, of their
    square roots (initial hash value). *)
Definition is_prime (n : nat) : bool :=
  forallb (fun d => negb (Nat.eqb (n mod d) 0)) (seq 2 (n - 2)).

Definition primes : list N :=
  List.map N.of_nat (filter is_prime (seq 2 310)).

(** The largest [r] with [r * r * r <= n], found bit by bit below [2 ^ bits]. *)
Fixpoint cube_root (bits : nat) (n r : N) : N :=
  match bits with
  | O => r
  | S b =>
      let r' := r + 2 ^ N.of_nat b in
      cube_root b n (if r' * r' * r' <=? n then r' else r)
  end.

Definition frac_cube_root (p : N) : N := mask32 (cube_root 36 (p * 2 ^ 96) 0).
Definition frac_square_root (p : N) : N := mask32 (N.sqrt (p * 2 ^ 64)).

Definition K : list N := Eval vm_compute in List.map frac_cube_root primes.

Definition state : Type := (N * N * N * N * N * N * N * N)%type.

Definition H0 : state :=
  Eval vm_compute in
    match List.map frac_square_root (firstn 8 primes) with
    | [a; b; c; d; e; f; g; h] => (a, b, c, d, e, f, g, h)
    | _ => (0, 0, 0, 0, 0, 0, 0, 0)
    end.

(** Big-endian bytes of a 32-bit word and back. *)
Definition word_bytes (w : N) : bytes :=
  [ (w / 16777216) mod 256; (w / 65536) mod 256; (w / 256) mod 256; w mod 256 ].

Fixpoint words (n : nat) (bs : bytes) : list N :=
  match n, bs with
  | S n', b0 :: b1 :: b2 :: b3 :: rest =>
      (b0 * 16777216 + b1 * 65536 + b2 * 256 + b3) :: words n' rest
  | _, _ => []
  end.

(** The 64-bit big-endian length field. *)
Definition length_bytes (bits : N) : bytes :=
  word_bytes (mask32 (bits / 4294967296)) ++ word_bytes (mask32 bits).

Definition pad (m : bytes) : bytes :=
  let l := List.length m in
  m ++ [0x80] ++ List.repeat 0 ((119 - l mod 64) mod 64)
    ++ length_bytes (8 * N.of_nat l).

Fixpoint blocks (n : nat) (bs : bytes) : list bytes :=
  match n with
  | O => []
  | S n' => firstn 64 bs :: blocks n' (skipn 64 bs)
  end.

(** Message schedule: [w] holds W[0..t-1]; extend it by [n] more words. *)
Fixpoint schedule (n : nat) (w : list N) : list N :=
  match n with
  | O => w
  | S n' =>
      let t := List.length w in
      let wt := add32 (add32 (sigma1 (nth (t - 2) w 0)) (nth (t - 7) w 0))
                      (add32 (sigma0 (nth (t - 15) w 0)) (nth (t - 16) w 0)) in
      schedule n' (w ++ [wt])
  end.

Definition round (s : state) (kw : N * N) : state :=
  let '(a, b, c, d, e, f, g, h) := s in
  let '(k, w) := kw in
  let t1 := add32 (add32 (add32 h (Sigma1 e)) (add32 (Ch e f g) k)) w in
  let t2 := add32 (Sigma0 a) (Maj a b c) in
  (add32 t1 t2, a, b, c, add32 d t1, e, f, g).

Definition compress (s : state) (block : bytes) : state :=
  let w := schedule 48 (words 16 block) in
  let '(a, b, c, d, e, f, g, h) := fold_left round (combine K w) s in
  let '(a0, b0, c0, d0, e0, f0, g0, h0) := s in
  (add32 a0 a, add32 b0 b, add32 c0 c, add32 d0 d,
   add32 e0 e, add32 f0 f, add32 g0 g, add32 h0 h).

Definition digest_of (s : state) : bytes :=
  let '(a, b, c, d, e, f, g, h) := s in
  word_bytes a ++ word_bytes b ++ word_bytes c ++ word_bytes d ++
  word_bytes e ++ word_bytes f ++ word_bytes g ++ word_bytes h.

Definition digest (m : bytes) : bytes :=
  let p := pad m in
  digest_of (fold_left compress (blocks (List.length p / 64) p) H0).

End SHA256.

(** ** Strings and bytes: the Python built-ins used by the sources *)

Definition in_range (lo hi b : N) : bool := (lo <=? b) && (b <=? hi).

(** [str.encode()] and [codecs.encode(s)] (UTF-8, strict). A string
    holding a lone surrogate cannot be encoded. Numbers from 0x110000 on
    are not code points; no Python string holds one, and the model
    rejects them as well. *)
Definition encodable_char (c : N) : bool :=
  (c <? 0x110000) && negb (in_range 0xD800 0xDFFF c).

Definition encodable (s : str) : bool := forallb encodable_char s.

Definition utf8_char (c : N) : bytes :=
  if c <? 0x80 then [c]
  else if c <? 0x800 then [0xC0 + c / 64; 0x80 + c mod 64]
  else if c <? 0x10000 then
    [0xE0 + c / 4096; 0x80 + (c / 64) mod 64; 0x80 + c mod 64]
  else
    [0xF0 + c / 262144; 0x80 + (c / 4096) mod 64;
     0x80 + (c / 64) mod 64; 0x80 + c mod 64].

Definition utf8_bytes (s : str) : bytes := flat_map utf8_char s.

Definition utf8_encode (s : str) : result bytes :=
  if encodable s then Ok (utf8_bytes s) else Raise UnicodeEncodeError.

(** [bytes.decode("utf8")] (strict). *)
Fixpoint utf8_decode (bs : bytes) : result str :=
  match bs with
  | [] => Ok []
  | b0 :: r0 =>
      if b0 <? 0x80 then
        s <- utf8_decode r0 ;; Ok (b0 :: s)
      else if in_range 0xC2 0xDF b0 then
        match r0 with
        | b1 :: r1 =>
            if in_range 0x80 0xBF b1 then
              s <- utf8_decode r1 ;;
              Ok (((b0 - 0xC0) * 64 + (b1 - 0x80)) :: s)
            else Raise UnicodeDecodeError
        | _ => Raise UnicodeDecodeError
        end
      else if in_range 0xE0 0xEF b0 then
        match r0 with
        | b1 :: b2 :: r2 =>
            if in_range (if b0 =? 0xE0 then 0xA0 else 0x80)
                        (if b0 =? 0xED then 0x9F else 0xBF) b1
               && in_range 0x80 0xBF b2 then
              s <- utf8_decode r2 ;;
              Ok (((b0 - 0xE0) * 4096 + (b1 - 0x80) * 64 + (b2 - 0x80)) :: s)
            else Raise UnicodeDecodeError
        | _ => Raise UnicodeDecodeError
        end
      else if in_range 0xF0 0xF4 b0 then
        match r0 with
        | b1 :: b2 :: b3 :: r3 =>
            if in_range (if b0 =? 0xF0 then 0x90 else 0x80)
                        (if b0 =? 0xF4 then 0x8F else 0xBF) b1
               && in_range 0x80 0xBF b2 && in_range 0x80 0xBF b3 then
              s <- utf8_decode r3 ;;
              Ok (((b0 - 0xF0) * 262144 + (b1 - 0x80) * 4096
                   + (b2 - 0x80) * 64 + (b3 - 0x80)) :: s)
            else Raise UnicodeDecodeError
        | _ => Raise UnicodeDecodeError
        end
      else Raise UnicodeDecodeError
  end.

(** [bytes.hex()]: two lowercase hexadecimal digits per byte. *)
Definition hex_digit (n : N) : N := if n <? 10 then 48 + n else 87 + n.

Definition hex (bs : bytes) : str :=
  flat_map (fun b => [hex_digit (b / 16); hex_digit (b mod 16)]) bs.

(** [bytes.fromhex] / [bytearray.fromhex]: two hexadecimal digits per byte,
    either case; ASCII whitespace is skipped in front of a pair and never
    inside one; anything else raises [ValueError]. *)
Definition hex_value (c : N) : option N :=
  if in_range 48 57 c then Some (c - 48)
  else if in_range 97 102 c then Some (c - 87)
  else if in_range 65 70 c then Some (c - 55)
  else None.

Definition is_space (c : N) : bool := in_range 9 13 c || (c =? 32).

Fixpoint fromhex (s : str) : result bytes :=
  match s with
  | [] => Ok []
  | c :: s' =>
      if is_space c then fromhex s'
      else
        match s' with
        | [] => Raise ValueError
        | d :: s'' =>
            match hex_value c, hex_value d with
            | Some top, Some bot =>
                bs <- fromhex s'' ;; Ok ((top * 16 + bot) :: bs)
            | _, _ => Raise ValueError
            end
        end
  end.

(** [s.split(sep)] for a one-character separator. *)
Fixpoint split (sep : N) (s : str) : list str :=
  match s with
  | [] => [[]]
  | c :: s' =>
      if c =? sep then [] :: split sep s'
      else
        match split sep s' with
        | [] => [[c]]
        | h :: t => (c :: h) :: t
        end
  end.

(** [sep.join(parts)]. *)
Fixpoint join (sep : str) (parts : list str) : str :=
  match parts with
  | [] => []
  | [p] => p
  | p :: rest => p ++ sep ++ join sep rest
  end.

(** [s.endswith(suffix)] and [s.endswith(tuple_of_suffixes)]: with a tuple
    the answer is [True] when some member is a suffix, so an empty tuple
    gives [False]. *)
Fixpoint startswith (s p : str) : bool :=
  match p, s with
  | [], _ => true
  | x :: p', y :: s' => (x =? y) && startswith s' p'
  | _ :: _, [] => false
  end.

Definition endswith (s suffix : str) : bool :=
  startswith (rev s) (rev suffix).

Definition endswith_any (s : str) (suffixes : list str) : bool :=
  existsb (endswith s) suffixes.

(** [s.lower()] on ASCII strings: Python lowercases every cased character
    of Unicode; the model is exact on code points below 128 and leaves the
    others alone. *)
Definition lower_char (c : N) : N := if in_range 65 90 c then c + 32 else c.
Definition lower (s : str) : str := List.map lower_char s.

(** [str(i)] for an [int]. *)
Definition digit_char (d : N) : N := 48 + d.

Fixpoint uint_chars (u : Decimal.uint) : str :=
  match u with
  | Decimal.Nil => []
  | Decimal.D0 u' => digit_char 0 :: uint_chars u'
  | Decimal.D1 u' => digit_char 1 :: uint_chars u'
  | Decimal.D2 u' => digit_char 2 :: uint_chars u'
  | Decimal.D3 u' => digit_char 3 :: uint_chars u'
  | Decimal.D4 u' => digit_char 4 :: uint_chars u'
  | Decimal.D5 u' => digit_char 5 :: uint_chars u'
  | Decimal.D6 u' => digit_char 6 :: uint_chars u'
  | Decimal.D7 u' => digit_char 7 :: uint_chars u'
  | Decimal.D8 u' => digit_char 8 :: uint_chars u'
  | Decimal.D9 u' => digit_char 9 :: uint_chars u'
  end.

Definition str_of_int (z : Z) : str :=
  match Z.to_int z with
  | Decimal.Pos u => uint_chars u
  | Decimal.Neg u => 45 :: uint_chars u
  end.

(** [int(s)] on plain decimal literals: an optional sign and at least one
    ASCII digit. (Python also accepts surrounding whitespace, underscores
    between digits and non-ASCII digits; none of these is ever produced by
    [str_of_int], and the model raises [ValueError] on them.) *)
Fixpoint digits_value (acc : Z) (s : str) : result Z :=
  match s with
  | [] => Ok acc
  | c :: s' =>
      if in_range 48 57 c then digits_value (10 * acc + Z.of_N (c - 48)) s'
      else Raise ValueError
  end.

Definition int_of_str (s : str) : result Z :=
  match s with
  | [] => Raise ValueError
  | c :: s' =>
      if c =? 45 then
        match s' with
        | [] => Raise ValueError
        | _ => z <- digits_value 0 s' ;; Ok (- z)%Z
        end
      else if c =? 43 then
        match s' with
        | [] => Raise ValueError
        | _ => digits_value 0 s'
        end
      else digits_value 0 s
  end.

(** [math.ceil] of a float. *)
Definition ceil (x : Q) : Z := Qceiling x.

(** ** utils/encrypt.py and utils/decrypt.py *)

Module Cipher.

(** The loop [for i in range(len(data)): data[i] ^= hashed_key[i % len(hashed_key)]],
    started at index [i]. *)
Fixpoint xor_loop (hashed_key : bytes) (i : nat) (data : bytes) : bytes :=
  match data with
  | [] => []
  | b :: rest =>
      N.lxor b (nth (i mod List.length hashed_key) hashed_key 0)
      :: xor_loop hashed_key (S i) rest
  end.

Definition encrypt (key plaintext : str) : result str :=
  k <- utf8_encode key ;;
  let hashed_key := SHA256.digest k in
  ciphertext <- utf8_encode plaintext ;;
  Ok (hex (xor_loop hashed_key 0 ciphertext)).

(** [plaintext += chr(b)] appends the code point [b] itself. *)
Definition decrypt (key ciphertext : str) : result str :=
  k <- utf8_encode key ;;
  let hashed_key := SHA256.digest k in
  byte_ciphertext <- fromhex ciphertext ;;
  Ok (xor_loop hashed_key 0 byte_ciphertext).

End Cipher.

(** ** Lists: membership, slices and Python's stable sort *)

Definition str_eq_dec : forall a b : str, {a = b} + {a <> b} :=
  list_eq_dec N.eq_dec.

(** Truth value of a list or a string: empty is false. *)
Definition truthy {A} (l : list A) : bool :=
  match l with [] => false | _ :: _ => true end.

(** [x in xs] *)
Definition contains (xs : list str) (x : str) : bool :=
  if in_dec str_eq_dec x xs then true else false.

(** [xs[i:j]] for [0 <= i <= j]. *)
Definition slice {A} (i j : nat) (xs : list A) : list A :=
  firstn (j - i) (skipn i xs).

Section Sorted.
Context {A K : Type} (key : A -> K) (leb : K -> K -> bool).

(** [sorted(l, key=key, reverse=True)] and [l.sort(key=key, reverse=True)]:
    descending keys, elements with equal keys in their original order. The
    element [x] stood in front of [l]; it stays in front of the elements
    whose key is not larger. *)
Fixpoint insert_desc (x : A) (l : list A) : list A :=
  match l with
  | [] => [x]
  | y :: l' => if leb (key y) (key x) then x :: l else y :: insert_desc x l'
  end.

Fixpoint sorted_desc (l : list A) : list A :=
  match l with
  | [] => []
  | x :: l' => insert_desc x (sorted_desc l')
  end.
End Sorted.

(** ** utils/argparser.py *)

Module argparser.

(** [split_string]: the [type=] of [--include] and [--exclude]. *)
Definition split_string (values : str) : list str :=
  if truthy values then split 44 values else [].

(** The namespace [parse_args] returns: an option that takes a list is
    [None] when it is absent from the command line. *)
Record args : Type := {
  directory : str;
  recursive : bool;
  sort : bool;
  hash : bool;
  use_index : bool;
  include : option (list str);
  exclude : option (list str)
}.

End argparser.

(** ** The host: directory entries, the scanned tree, and the services
    the two programs call *)

Module os.

Record DirEntry : Type := {
  path : str;
  name : str;
  is_dir : bool;
  st_mtime : Q
}.

(** What [os.scandir] finds: the children of a directory are listed in the
    order [os.scandir] yields them. *)
Inductive fsnode : Type :=
| FsFile (nm : str) (mt : Q)
| FsDir (nm : str) (mt : Q) (children : list fsnode).

Definition node_name (n : fsnode) : str :=
  match n with FsFile nm _ => nm | FsDir nm _ _ => nm end.

Definition node_mtime (n : fsnode) : Q :=
  match n with FsFile _ mt => mt | FsDir _ mt _ => mt end.

Definition node_is_dir (n : fsnode) : bool :=
  match n with FsFile _ _ => false | FsDir _ _ _ => true end.

(** [entry.path] is [os.path.join(scandir_path, entry.name)]; the sources
    split paths on a backslash, so this is the Windows flavour: a
    separator is inserted unless the directory path already ends in a
    backslash, a slash or a colon. *)
Definition sep : N := 92.

Definition join_path (dir_path nm : str) : str :=
  match rev dir_path with
  | [] => nm
  | c :: _ =>
      if (c =? sep) || (c =? 47) || (c =? 58) then dir_path ++ nm
      else dir_path ++ [sep] ++ nm
  end.

Definition entry (dir_path : str) (n : fsnode) : DirEntry :=
  {| path := join_path dir_path (node_name n);
     name := node_name n;
     is_dir := node_is_dir n;
     st_mtime := node_mtime n |}.

End os.

(** The services outside the two programs. [W] is the state of the world
    they act on.
      - [uuid4]: [str(uuid4())], a fresh random identifier;
      - [os_rename]: [os.rename(old, new)];
      - [strftime_local]: [datetime.fromtimestamp(t).strftime(fmt)], the
        local-time rendering of a timestamp;
      - [filedate_set]: [filedate.File(path).set(modified=text)]. *)
Class Host (W : Type) : Type := {
  uuid4 : W -> str * W;
  os_rename : str -> str -> W -> result W;
  strftime_local : Z -> result str;
  filedate_set : str -> str -> W -> result W
}.

(** ** mount.py *)

Module Mount.

Import Cipher.

(** A value of [Dict[str, str | bool]] with the four keys ["root"],
    ["name"], ["mtime"] and ["is_dir"] that [encode_file] and [setup]
    always set. *)
Record file_info : Type := {
  root : str;
  name : str;
  mtime : str;
  is_dir : bool
}.

Definition FILE_INFOS : Type := list file_info.

Definition separate_file_and_directory (files : FILE_INFOS) : FILE_INFOS :=
  let files_list := filter (fun file_info => negb (is_dir file_info)) files in
  let dirs_list := filter (fun file_info => is_dir file_info) files in
  let dirs_list :=
    sorted_desc (fun d => List.length (root d)) Nat.leb dirs_list in
  files_list ++ dirs_list.

(** [str(mdate)] holds only ASCII digits and a sign, so
    [codecs.encode(str(mdate))] never raises and its bytes are
    [utf8_bytes (str_of_int mdate)]. *)
Definition encode_file (file : os.DirEntry) : file_info :=
  let mdate := ceil (os.st_mtime file) in
  let encoded_mdate := hex (utf8_bytes (str_of_int mdate)) in
  {| root := os.path file;
     name := os.name file;
     mtime := encoded_mdate;
     is_dir := os.is_dir file |}.

Section Walk.
Variable EXCLUDED_FILES : list str.
Variable ALLOWED_SUFFIX : list str.
Variable order_by_timestamp : bool.
Variable recursive : bool.

(** The order in which the loop of [get_files] visits the entries:
      [payload] is paired with the [st_mtime] of its entry. *)
Definition scan_order {B} (l : list (Q * B)) : list B :=
    List.map snd (if order_by_timestamp then sorted_desc fst Qle_bool l else l).

(** One iteration of the loop [for file in dirs] of [get_files], for the
      entry [file] of the directory [dir_path]; the recursive call of
      [get_files] on [file.path] is the [FsDir] branch. The contribution of
      every child is computed first and the contributions are then put in
      scan order, which is the same as visiting the children in scan order
      (lemma [get_files_visits_in_order]). *)
Fixpoint scan (dir_path : str) (file : os.fsnode) : FILE_INFOS :=
    let e := os.entry dir_path file in
    let is_directory := os.is_dir e in
    if is_directory && contains EXCLUDED_FILES (os.name e) then []
    else
      (if is_directory && recursive then
         encode_file e ::
         match file with
         | os.FsDir _ _ children =>
             separate_file_and_directory
               (List.concat (scan_order
                  (List.map (fun c => (os.node_mtime c, scan (os.path e) c))
                            children)))
         | os.FsFile _ _ => []
         end
       else [])
      ++ (if negb (endswith_any (os.name e) ALLOWED_SUFFIX) then []
          else [encode_file e]).

Definition get_files (dir_path : str) (dirs : list os.fsnode) : FILE_INFOS :=
    separate_file_and_directory
      (List.concat (scan_order
         (List.map (fun c => (os.node_mtime c, scan dir_path c)) dirs))).
End Walk.

(** [sort_by_filename] (no caller in the repository). *)
Definition sort_by_filename (file : os.DirEntry) : str :=
  if os.is_dir file then os.name file
  else hd [] (split 46 (os.name file)).

(** [key_segment]: segments 1 to 3 of the identifier, joined again. *)
Definition key_segment_of (uuid : str) : str :=
  join (lit "-") (slice 1 4 (split 45 uuid)).

(** The body of the loop of [change_file_names] up to the variable
    [filename], with the identifier drawn by [uuid4()] as a parameter. *)
Definition filename_of (file : file_info) (uuid : str)
    (hash_directory_name use_index_filename : bool) : result str :=
  let is_file_dir := is_dir file in
  let mtime := mtime file in
  let fname := name file in
  let extension :=
    if negb is_file_dir then lower (last (split 46 fname) []) else lit "folder" in
  let key_segment := key_segment_of uuid in
  hashed_extension <- encrypt key_segment extension ;;
  hashed_key <- encrypt mtime key_segment ;;
  hashed_mtime <- encrypt hashed_extension mtime ;;
  additional_name <-
    (if negb is_file_dir && use_index_filename then
       let _nm := hd [] (split 46 fname) in
       h <- encrypt key_segment _nm ;; Ok (lit "-" ++ h)
     else Ok []) ;;
  additional_name <-
    (if is_file_dir && hash_directory_name then
       h <- encrypt key_segment fname ;; Ok (lit "-" ++ h)
     else Ok additional_name) ;;
  Ok (hashed_mtime ++ lit "-" ++ hashed_extension ++ lit "-" ++ hashed_key
      ++ additional_name).

(** [c:\aa\bb\cc\dd.extension => c:\aa\bb\cc] *)
Definition directory_root_of (root : str) : str :=
  join [os.sep] (removelast (split os.sep root)).

Fixpoint change_file_names {W} `{Host W} (files : FILE_INFOS)
    (hash_directory_name use_index_filename : bool) (w : W) : result W :=
  match files with
  | [] => Ok w
  | file :: rest =>
      let '(uuid, w) := uuid4 w in
      filename <- filename_of file uuid hash_directory_name use_index_filename ;;
      let directory_root := directory_root_of (root file) in
      let old_filename := root file in
      let new_filename := directory_root ++ [os.sep] ++ filename in
      w <- os_rename old_filename new_filename w ;;
      change_file_names rest hash_directory_name use_index_filename w
  end.

(** The descriptor of the root directory that [setup] builds. *)
Definition root_dir (root_directory : str) (root_mtime : Q) : file_info :=
  let mdate := ceil root_mtime in
  let encoded_mdate := hex (utf8_bytes (str_of_int mdate)) in
  {| root := root_directory;
     name := last (split os.sep root_directory) [];
     mtime := encoded_mdate;
     is_dir := true |}.

(** [setup]: the module-level [EXCLUDED_FILES] and [ALLOWED_SUFFIX] after
    the call, and the list it returns; [root_mtime] is
    [os.stat(root_directory).st_mtime]. *)
Definition setup (args : argparser.args) (root_mtime : Q)
    : list str * list str * (str * bool * bool * bool * bool * file_info) :=
  let EXCLUDED_FILES :=
    match argparser.exclude args with
    | Some l => if truthy l then l else []
    | None => []
    end in
  let ALLOWED_SUFFIX :=
    match argparser.include args with
    | Some l => if truthy l then [] ++ l else []
    | None => []
    end in
  let root_directory := argparser.directory args in
  (EXCLUDED_FILES, ALLOWED_SUFFIX,
   (root_directory, argparser.hash args, argparser.sort args,
    argparser.use_index args, argparser.recursive args,
    root_dir root_directory root_mtime)).

(** The list that [__main__] hands to [change_file_names]. *)
Definition files_of_main (EXCLUDED_FILES ALLOWED_SUFFIX : list str)
    (order_by_timestamp recursive_directory : bool)
    (root_directory : str) (root_mtime : Q) (dirs : list os.fsnode) : FILE_INFOS :=
  let files :=
    get_files EXCLUDED_FILES ALLOWED_SUFFIX order_by_timestamp
              recursive_directory root_directory dirs in
  files ++ [root_dir root_directory root_mtime].

(** [setup] and [__main__]: [exclude] and [include] are the parsed
    [--exclude] and [--include] lists ([[]] when the option is absent);
    the module-level [ALLOWED_SUFFIX] is the empty tuple. *)
Definition main {W} `{Host W} (exclude include : list str)
    (hash_directory_name order_by_timestamp use_index_filename
       recursive_directory : bool)
    (root_directory : str) (root_mtime : Q) (dirs : list os.fsnode)
    (w : W) : result W :=
  let EXCLUDED_FILES := exclude in
  let ALLOWED_SUFFIX := [] ++ include in
  change_file_names
    (files_of_main EXCLUDED_FILES ALLOWED_SUFFIX order_by_timestamp
       recursive_directory root_directory root_mtime dirs)
    hash_directory_name use_index_filename w.

End Mount.

(** ** unmount.py *)

Module Unmount.

Import Cipher.

Definition FILE_INFOS : Type := list os.DirEntry.

Section Walk.
Variable EXCLUDED_FILES : list str.
Variable recursive : bool.

(** One iteration of the loop [for file in dirs] of [get_files]; the
      recursive call [get_files(dir_path=file.path, ..)] is the [FsDir]
      branch. *)
Fixpoint scan (dir_path : str) (file : os.fsnode) : FILE_INFOS :=
    let e := os.entry dir_path file in
    let is_directory := os.is_dir e in
    if is_directory && contains EXCLUDED_FILES (os.name e) then []
    else
      (if is_directory && recursive then
         match file with
         | os.FsDir _ _ children => flat_map (scan (os.path e)) children
         | os.FsFile _ _ => []
         end
       else [])
      ++ [e].

Definition get_files (dir_path : str) (dirs : list os.fsnode) : FILE_INFOS :=
    flat_map (scan dir_path) dirs.
End Walk.

Definition separate_file_and_directory (files : FILE_INFOS) : FILE_INFOS :=
  let files_list := filter (fun file_info => negb (os.is_dir file_info)) files in
  let dirs_list := filter (fun file_info => os.is_dir file_info) files in
  let dirs_list :=
    sorted_desc (fun d => List.length (os.path d)) Nat.leb dirs_list in
  files_list ++ dirs_list.

(** The starred assignment needs at least three segments. *)
Definition decode_file (filename : str) (use_index_filename : bool)
    : result (str * str * str) :=
  match split 45 filename with
  | hashed_modified_time :: hashed_extension :: hashed_key :: hashed_filename =>
      decrypted_modified_time <- decrypt hashed_extension hashed_modified_time ;;
      decrypted_key <- decrypt decrypted_modified_time hashed_key ;;
      decrypted_extension <- decrypt decrypted_key hashed_extension ;;
      og_filename <-
        (if truthy hashed_filename || use_index_filename then
           let directory_name := join [] hashed_filename in
           decrypt decrypted_key directory_name
         else Ok []) ;;
      Ok (decrypted_modified_time, decrypted_extension, og_filename)
  | _ => Raise ValueError
  end.

(** [file.path.split("\\")[:-1]] joined again. *)
Definition file_root_dir_of (path : str) : str :=
  join [os.sep] (removelast (split os.sep path)).

(** The statements of the loop body that run before the [try]: the decoded
    name, and the timestamp read back from the token. *)
Definition decoded_entry (file : os.DirEntry) (use_index_filename : bool)
    : result (Z * str * str) :=
  '(modified_time, extension, filename) <-
     decode_file (os.name file) use_index_filename ;;
  b <- fromhex modified_time ;;
  modified_time <- utf8_decode b ;;
  t <- int_of_str modified_time ;;
  Ok (t, extension, filename).

(** The world, and what [print(ex)] has written so far. *)
Definition run_state (W : Type) : Type := (W * list exn)%type.

(** [if not filename and not use_index_filename: filename = str(uuid4())] *)
Definition pick_filename {W} `{Host W} (filename : str)
    (use_index_filename : bool) (w : W) : str * W :=
  if negb (truthy filename) && negb use_index_filename then uuid4 w
  else (filename, w).

(** ["{dir_path}\\{filename}{extension}"], the extension with its dot for
    a file and empty for a directory. *)
Definition new_filename_of (file : os.DirEntry) (extension filename : str) : str :=
  let file_root_dir := file_root_dir_of (os.path file) in
  let file_extension :=
    if negb (os.is_dir file) then lit "." ++ extension else [] in
  file_root_dir ++ [os.sep] ++ filename ++ file_extension.

(** The inner [try]: the rename, and [print(ex)] when it raises. *)
Definition rename_entry {W} `{Host W} (file : os.DirEntry)
    (extension filename : str) (use_index_filename : bool)
    (st : run_state W) : run_state W :=
  let '(w, out) := st in
  let '(filename, w) := pick_filename filename use_index_filename w in
  match os_rename (os.path file) (new_filename_of file extension filename) w with
  | Ok w => (w, out)
  | Raise ex => (w, out ++ [ex])
  end.

(** The loop of [change_file_names]. An exception raised before the [try]
    leaves the function; one raised by the metadata write is swallowed by the
    outer [except] and ends the loop ([break]); one raised by the rename is
    printed by the inner handler and the loop goes on. A failed service call
    leaves the world as it was. *)
Fixpoint change_file_names {W} `{Host W} (files : FILE_INFOS)
    (decrypt_directory_name use_index_filename : bool)
    (st : run_state W) : result (run_state W) :=
  match files with
  | [] => Ok st
  | file :: rest =>
      let '(w, out) := st in
      '(t, extension, filename) <- decoded_entry file use_index_filename ;;
      formatted_modified_time <- strftime_local t ;;
      match filedate_set (os.path file) formatted_modified_time w with
      | Raise _ => Ok (w, out)
      | Ok w =>
          change_file_names rest decrypt_directory_name use_index_filename
            (rename_entry file extension filename use_index_filename (w, out))
      end
  end.

Definition change_root_directory_name {W} `{Host W} (root_dir : str) (w : W)
    : result W :=
  let root_folder_path := join [os.sep] (removelast (split os.sep root_dir)) in
  let root_folder_name := last (split os.sep root_dir) [] in
  '(_, _, dir_name) <- decode_file root_folder_name false ;;
  let new_root_directory_name := root_folder_path ++ [os.sep] ++ dir_name in
  os_rename root_dir new_root_directory_name w.

(** [setup]: the module-level [EXCLUDED_FILES] and [ALLOWED_SUFFIX] after
    the call ([ALLOWED_SUFFIX] is set and never read in unmount.py), and the
    list it returns. *)
Definition setup (args : argparser.args)
    : list str * list str * (str * bool * bool * bool) :=
  let EXCLUDED_FILES :=
    match argparser.exclude args with
    | Some l => if truthy l then l else []
    | None => []
    end in
  let ALLOWED_SUFFIX :=
    match argparser.include args with
    | Some l => if truthy l then [] ++ l else []
    | None => []
    end in
  (EXCLUDED_FILES, ALLOWED_SUFFIX,
   (argparser.directory args, argparser.hash args, argparser.recursive args,
    argparser.use_index args)).

(** The list that [__main__] hands to [change_file_names]: the variable
    [files]. The separated list [separted_file_dir] is computed and not used. *)
Definition files_of_main (EXCLUDED_FILES : list str) (recursive_directory : bool)
    (root_directory : str) (dirs : list os.fsnode) : FILE_INFOS :=
  let files := get_files EXCLUDED_FILES recursive_directory root_directory dirs in
  let separted_file_dir := separate_file_and_directory files in
  files.

Definition main {W} `{Host W} (exclude : list str)
    (decrypt_directory_name recursive_directory use_index_filename : bool)
    (root_directory : str) (dirs : list os.fsnode) (w : W)
    : result (run_state W) :=
  let EXCLUDED_FILES := exclude in
  '(w, out) <-
     change_file_names
       (files_of_main EXCLUDED_FILES recursive_directory root_directory dirs)
       decrypt_directory_name use_index_filename (w, []) ;;
  if decrypt_directory_name then
    w <- change_root_directory_name root_directory w ;; Ok (w, out)
  else Ok (w, out).

End Unmount.

(** ** A simulated host

    A small file system for running the two programs: the set of existing
    paths and a journal of the calls that succeeded. Renaming a directory
    moves everything beneath it. *)

Module Sim.

Inductive op : Type :=
| SetModified (path when : str)
| Renamed (old new : str).

Record world : Type := {
  paths : list str;
  journal : list op;
  uuids : nat
}.

Definition rebase (old new p : str) : str :=
  if str_eq_dec p old then new
  else if startswith p (old ++ [os.sep]) then new ++ skipn (List.length old) p
  else p.

Definition rename (old new : str) (w : world) : result world :=
  if contains (paths w) old && negb (contains (paths w) new) then
    Ok {| paths := List.map (rebase old new) (paths w);
          journal := journal w ++ [Renamed old new];
          uuids := uuids w |}
  else Raise (OSError old).

Definition set_modified (path when : str) (w : world) : result world :=
  if contains (paths w) path then
    Ok {| paths := paths w;
          journal := journal w ++ [SetModified path when];
          uuids := uuids w |}
  else Raise (OSError path).

(** The [n]-th identifier handed out, in the textual form of [str(uuid4())]. *)
Definition nth_uuid (n : nat) : str :=
  lit "6f1d2c3b-5a4e-4b7c-9d8e-0000" ++
  hex [ (N.of_nat n / 16777216) mod 256; (N.of_nat n / 65536) mod 256;
        (N.of_nat n / 256) mod 256; N.of_nat n mod 256 ].

#[global] Instance host : Host world := {
  uuid4 w :=
    (nth_uuid (uuids w),
     {| paths := paths w; journal := journal w; uuids := S (uuids w) |});
  os_rename := rename;
  strftime_local t := Ok (str_of_int t);
  filedate_set := set_modified
}.

Definition init (ps : list str) : world :=
  {| paths := ps; journal := []; uuids := 0 |}.

(** The path a journal entry acted on. *)
Definition touched (o : op) : str :=
  match o with
  | SetModified path _ => path
  | Renamed old _ => old
  end.

End Sim.

(** ** The properties the specification states *)

(** The supported alphabet: characters that UTF-8 encodes in one byte. *)
Definition is_ascii (s : str) : bool := forallb (fun c => c <? 128) s.

Definition is_lower_hex_digit (c : N) : bool :=
  in_range 48 57 c || in_range 97 102 c.

(** A string of lowercase hexadecimal digits. *)
Definition is_lower_hex (s : str) : bool := forallb is_lower_hex_digit s.

(** A string that [fromhex] reads without skipping anything: hexadecimal
    digits of either case, an even number of them. *)
Definition is_hex_digit (c : N) : bool :=
  match hex_value c with Some _ => true | None => false end.

Definition is_hex (s : str) : bool :=
  forallb is_hex_digit s && Nat.even (List.length s).

Definition has_upper (s : str) : bool := existsb (in_range 65 90) s.

(** The token grammar with three fields. *)
Definition is_token3 (s : str) : bool :=
  match split 45 s with
  | [a; b; c] => is_lower_hex a && is_lower_hex b && is_lower_hex c
  | _ => false
  end.

(** Files before directories, on the list of [is_dir] flags of a sequence:
    every file-type descriptor has a smaller index than every
    directory-type descriptor. *)
Definition files_first (flags : list bool) : Prop :=
  forall i j, nth_error flags i = Some true -> nth_error flags j = Some false ->
    (j < i)%nat.

(** Longer paths before shorter ones, on the list of path lengths of the
    directory-type descriptors of a sequence. *)
Definition longer_first (lens : list nat) : Prop :=
  forall i j a b, (i < j)%nat ->
    nth_error lens i = Some a -> nth_error lens j = Some b -> (b <= a)%nat.

(** A list of numbers in which no element is followed by a larger one. *)
Fixpoint descending (l : list nat) : Prop :=
  match l with
  | [] => True
  | a :: l' => Forall (fun b => (b <= a)%nat) l' /\ descending l'
  end.

(** [child] lies below the directory [parent]. *)
Definition below (parent child : str) : Prop :=
  exists rest, child = parent ++ [os.sep] ++ rest.

(** A list of values that fit in a byte. *)
Definition byte_list (bs : bytes) : Prop := Forall (fun b => b < 256) bs.

(** The extension that [Mount.change_file_names] encrypts for an entry, and
    the name it embeds as a fourth field when it embeds one. *)
Definition extension_of (file : Mount.file_info) : str :=
  if negb (Mount.is_dir file) then lower (last (split 46 (Mount.name file)) [])
  else lit "folder".

Definition embedded_name (file : Mount.file_info)
    (hash_directory_name use_index_filename : bool) : option str :=
  if Mount.is_dir file then
    if hash_directory_name then Some (Mount.name file) else None
  else
    if use_index_filename then Some (hd [] (split 46 (Mount.name file))) else None.

(** A sample for the examples: [report.txt], last modified a tenth of a
    second after 1700000000, as [os.scandir] finds it in [c:\data], and the
    name mount gives it when it embeds the base name. *)
Definition sample_entry : os.DirEntry :=
  os.entry (lit "c:\data") (os.FsFile (lit "report.txt") (17000000001 # 10)).

Definition sample_token : str :=
  Eval vm_compute in
    match Mount.filename_of (Mount.encode_file sample_entry)
            (lit "6f1d2c3b-5a4e-4b7c-9d8e-000000000000") false true with
    | Ok token => token
    | Raise _ => []
    end.

(** The sample once mounted, as unmount finds it. *)
Definition sample_mounted : os.DirEntry :=
  os.entry (lit "c:\data") (os.FsFile sample_token (1800000000 # 1)).

(** A file with an uppercase extension. *)
Definition photo_entry : os.DirEntry :=
  os.entry (lit "c:\data") (os.FsFile (lit "photo.JPG") (1700000000 # 1)).

(** Names as mount with [--hash] gives them to the directories [a] and
    [bb]; the second is two characters longer. *)
Definition mounted_name (nm : str) (n : nat) : str :=
  match Mount.filename_of
          (Mount.encode_file
             (os.entry (lit "c:\data") (os.FsDir nm (1700000000 # 1) [])))
          (Sim.nth_uuid n) true false with
  | Ok token => token
  | Raise _ => []
  end.

Definition mounted_a : str := Eval vm_compute in mounted_name (lit "a") 1.
Definition mounted_bb : str := Eval vm_compute in mounted_name (lit "bb") 2.

(** Mounted trees as [os.scandir] may list them: a directory in front of a
    file, and a directory in front of one with a longer name. *)
Definition tree_dir_then_file : list os.fsnode :=
  [ os.FsDir mounted_a (1800000000 # 1) [];
    os.FsFile sample_token (1800000000 # 1) ].

Definition tree_two_dirs : list os.fsnode :=
  [ os.FsDir mounted_a (1800000000 # 1) [];
    os.FsDir mounted_bb (1800000000 # 1) [] ].

Definition tree_report : list os.fsnode :=
  [ os.FsFile (lit "report.txt") (1700000000 # 1) ].

(** Case analysis on the comparisons of a goal, pruning the branches the
    hypotheses exclude. *)
Ltac tests :=
  repeat (match goal with
          | |- context [N.eqb ?a ?b] => destruct (N.eqb_spec a b); try lia
          | |- context [N.ltb ?a ?b] => destruct (N.ltb_spec a b); try lia
          | |- context [N.leb ?a ?b] => destruct (N.leb_spec a b); try lia
          end; cbn [andb]; cbv iota).

(** * Theorems *)

Arguments SHA256.digest : simpl never.

(** ** Test vectors and examples *)

Example sha256_abc :
  hex (SHA256.digest (lit "abc"))
  = lit "ba7816bf8f01cfea414140de5dae2223b00361a396177a9cb410ff61f20015ad".
Proof. vm_compute. reflexivity. Qed.

Example sha256_empty :
  hex (SHA256.digest [])
  = lit "e3b0c44298fc1c149afbf4c8996fb92427ae41e4649b934ca495991b7852b855".
Proof. vm_compute. reflexivity. Qed.

Example sha256_two_blocks :
  hex (SHA256.digest
         (lit "abcdbcdecdefdefgefghfghighijhijkijkljklmklmnlmnomnopnopq"))
  = lit "248d6a61d20638b8e5c026930c3e6039a33ce45964ff2167f6ecedd419db06c1".
Proof. vm_compute. reflexivity. Qed.

Example sha256_constants :
  List.length SHA256.K = 64%nat
  /\ firstn 2 SHA256.K = [0x428a2f98; 0x71374491]
  /\ nth 63 SHA256.K 0 = 0xc67178f2
  /\ SHA256.H0 = (0x6a09e667, 0xbb67ae85, 0x3c6ef372, 0xa54ff53a,
                  0x510e527f, 0x9b05688c, 0x1f83d9ab, 0x5be0cd19).
Proof. repeat split. Qed.

Example utf8_euro_and_emoji :
  utf8_encode [0x20AC; 0x1F600] = Ok [226; 130; 172; 240; 159; 152; 128]
  /\ utf8_decode [226; 130; 172; 240; 159; 152; 128] = Ok [0x20AC; 0x1F600].
Proof. split; reflexivity. Qed.

Example encrypt_txt :
  Cipher.encrypt (lit "a1b2-4c3d-9e8f") (lit "txt") = Ok (lit "388f93").
Proof. vm_compute. reflexivity. Qed.

Example split_examples :
  split 45 (lit "a--b-") = [lit "a"; []; lit "b"; []]
  /\ split 46 (lit "report.txt") = [lit "report"; lit "txt"]
  /\ split 46 [] = [[]].
Proof. repeat split. Qed.

Example int_examples :
  str_of_int 1700000000 = lit "1700000000"
  /\ str_of_int (-12) = lit "-12"
  /\ str_of_int 0 = lit "0"
  /\ int_of_str (lit "-12") = Ok (-12)%Z
  /\ int_of_str (lit "12a") = Raise ValueError.
Proof. repeat split. Qed.

(** ** Bytes *)

Lemma small_cases (d : N) :
  d < 16 -> In d [0; 1; 2; 3; 4; 5; 6; 7; 8; 9; 10; 11; 12; 13; 14; 15].
Proof.
  intros Hd.
  destruct d as [|p]; [simpl; tauto|].
  do 4 (try (destruct p as [p|p|]); try (exfalso; lia)); simpl; tauto.
Qed.

Lemma hex_value_digit (d : N) : d < 16 -> hex_value (hex_digit d) = Some d.
Proof.
  intros Hd. apply small_cases in Hd. simpl in Hd.
  repeat (destruct Hd as [<-|Hd]; [reflexivity|]). destruct Hd.
Qed.

Lemma hex_digit_lower (d : N) : d < 16 -> is_lower_hex_digit (hex_digit d) = true.
Proof.
  intros Hd. apply small_cases in Hd. simpl in Hd.
  repeat (destruct Hd as [<-|Hd]; [reflexivity|]). destruct Hd.
Qed.

Lemma hex_digit_not_space (d : N) : d < 16 -> is_space (hex_digit d) = false.
Proof.
  intros Hd. apply small_cases in Hd. simpl in Hd.
  repeat (destruct Hd as [<-|Hd]; [reflexivity|]). destruct Hd.
Qed.

Lemma byte_nibbles (b : N) :
  b < 256 -> b / 16 < 16 /\ b mod 16 < 16 /\ (b / 16) * 16 + b mod 16 = b.
Proof.
  intros Hb. repeat split.
  - apply N.Div0.div_lt_upper_bound. lia.
  - apply N.mod_lt. lia.
  - rewrite N.mul_comm. symmetry. apply N.div_mod. lia.
Qed.

Lemma fromhex_hex (bs : bytes) : byte_list bs -> fromhex (hex bs) = Ok bs.
Proof.
  induction 1 as [|b bs Hb _ IH]; [reflexivity|].
  destruct (byte_nibbles b Hb) as (Hhi & Hlo & Heq).
  change (hex (b :: bs)) with (hex_digit (b / 16) :: hex_digit (b mod 16) :: hex bs).
  cbn [fromhex]. rewrite (hex_digit_not_space _ Hhi).
  rewrite (hex_value_digit _ Hhi), (hex_value_digit _ Hlo), IH.
  cbn [bind]. now rewrite Heq.
Qed.

Lemma hex_length (bs : bytes) : List.length (hex bs) = (2 * List.length bs)%nat.
Proof. induction bs as [|b bs IH]; [reflexivity|]. cbn [hex flat_map app List.length] in *. unfold hex in IH. lia. Qed.

Lemma hex_lower (bs : bytes) : byte_list bs -> is_lower_hex (hex bs) = true.
Proof.
  induction 1 as [|b bs Hb _ IH]; [reflexivity|].
  destruct (byte_nibbles b Hb) as (Hhi & Hlo & _).
  change (hex (b :: bs)) with (hex_digit (b / 16) :: hex_digit (b mod 16) :: hex bs).
  cbn [is_lower_hex forallb]. rewrite (hex_digit_lower _ Hhi), (hex_digit_lower _ Hlo).
  exact IH.
Qed.

Lemma lower_hex_digit_facts (c : N) :
  is_lower_hex_digit c = true -> c < 128 /\ c <> 45 /\ is_hex_digit c = true.
Proof.
  unfold is_lower_hex_digit, is_hex_digit, hex_value, in_range. intros H.
  destruct (48 <=? c) eqn:E1, (c <=? 57) eqn:E2, (97 <=? c) eqn:E3,
    (c <=? 102) eqn:E4; cbn in H |- *; try discriminate;
    repeat split; try reflexivity;
    repeat match goal with
      | E : (_ <=? _) = true |- _ => apply N.leb_le in E
      | E : (_ <=? _) = false |- _ => apply N.leb_gt in E
      end; lia.
Qed.

Lemma lower_hex_ascii (s : str) : is_lower_hex s = true -> is_ascii s = true.
Proof.
  unfold is_lower_hex, is_ascii. rewrite !forallb_forall. intros H c Hc.
  apply N.ltb_lt. now apply lower_hex_digit_facts, H.
Qed.

Lemma lower_hex_no_dash (s : str) : is_lower_hex s = true -> ~ In 45 s.
Proof.
  unfold is_lower_hex. rewrite forallb_forall. intros H Hin.
  now apply (lower_hex_digit_facts 45 (H _ Hin)).
Qed.

Lemma lower_hex_is_hex (s : str) :
  is_lower_hex s = true -> Nat.even (List.length s) = true -> is_hex s = true.
Proof.
  unfold is_lower_hex, is_hex. rewrite forallb_forall. intros H Hev.
  apply andb_true_intro; split; [|exact Hev].
  apply forallb_forall. intros c Hc. now apply lower_hex_digit_facts, H.
Qed.

(** ** SHA-256 digests are 32 bytes *)

Lemma word_bytes_bytes (w : N) : byte_list (SHA256.word_bytes w).
Proof. repeat constructor; apply N.mod_lt; lia. Qed.

Lemma digest_length (m : bytes) : List.length (SHA256.digest m) = 32%nat.
Proof.
  unfold SHA256.digest.
  destruct (fold_left _ _ _) as [[[[[[[a b] c] d] e] f] g] h]. reflexivity.
Qed.

Lemma digest_bytes (m : bytes) : byte_list (SHA256.digest m).
Proof.
  unfold SHA256.digest.
  destruct (fold_left _ _ _) as [[[[[[[a b] c] d] e] f] g] h].
  unfold SHA256.digest_of, byte_list. rewrite !Forall_app.
  repeat split; apply word_bytes_bytes.
Qed.

(** ** UTF-8 *)

Lemma ascii_encodable (s : str) : is_ascii s = true -> encodable s = true.
Proof.
  unfold is_ascii, encodable. rewrite !forallb_forall. intros H c Hc.
  specialize (H c Hc). apply N.ltb_lt in H.
  unfold encodable_char, in_range.
  replace (c <? 0x110000) with true by (symmetry; apply N.ltb_lt; lia).
  replace (0xD800 <=? c) with false by (symmetry; apply N.leb_gt; lia).
  reflexivity.
Qed.

Lemma utf8_bytes_ascii (s : str) : is_ascii s = true -> utf8_bytes s = s.
Proof.
  induction s as [|c s IH]; [reflexivity|].
  cbn [is_ascii forallb]. intros H. apply andb_prop in H as [Hc Hs].
  cbn [utf8_bytes flat_map]. unfold utf8_char. rewrite Hc.
  cbn [app]. f_equal. exact (IH Hs).
Qed.

Lemma utf8_encode_ascii (s : str) : is_ascii s = true -> utf8_encode s = Ok s.
Proof.
  intros H. unfold utf8_encode.
  now rewrite (ascii_encodable _ H), (utf8_bytes_ascii _ H).
Qed.

Lemma utf8_decode_ascii (s : str) : is_ascii s = true -> utf8_decode s = Ok s.
Proof.
  induction s as [|c s IH]; [reflexivity|].
  cbn [is_ascii forallb]. intros H. apply andb_prop in H as [Hc Hs].
  cbn [utf8_decode]. rewrite Hc, (IH Hs). reflexivity.
Qed.

Lemma utf8_char_bytes (c : N) : encodable_char c = true -> byte_list (utf8_char c).
Proof.
  unfold encodable_char. intros H. apply andb_prop in H as [H _].
  apply N.ltb_lt in H. unfold utf8_char.
  assert (M : forall x, 0x80 + x mod 64 < 256).
  { intros x. pose proof (N.mod_lt x 64). lia. }
  destruct (N.ltb_spec c 0x80); [repeat constructor; lia|].
  destruct (N.ltb_spec c 0x800).
  { repeat constructor; [|apply M].
    assert (c / 64 < 32) by (apply N.Div0.div_lt_upper_bound; lia). lia. }
  destruct (N.ltb_spec c 0x10000).
  { repeat constructor; try apply M.
    assert (c / 4096 < 16) by (apply N.Div0.div_lt_upper_bound; lia). lia. }
  repeat constructor; try apply M.
  assert (c / 262144 < 5) by (apply N.Div0.div_lt_upper_bound; lia). lia.
Qed.

Lemma utf8_bytes_bytes (s : str) : encodable s = true -> byte_list (utf8_bytes s).
Proof.
  induction s as [|c s IH]; [constructor|].
  cbn [encodable forallb]. intros H. apply andb_prop in H as [Hc Hs].
  cbn [utf8_bytes flat_map]. apply Forall_app. split.
  - now apply utf8_char_bytes.
  - now apply IH.
Qed.

Lemma bytes_encodable (s : str) : byte_list s -> encodable s = true.
Proof.
  unfold byte_list, encodable. rewrite Forall_forall, forallb_forall.
  intros H c Hc. specialize (H c Hc). unfold encodable_char, in_range.
  replace (c <? 0x110000) with true by (symmetry; apply N.ltb_lt; lia).
  replace (0xD800 <=? c) with false by (symmetry; apply N.leb_gt; lia).
  reflexivity.
Qed.

Lemma utf8_encode_returns (s : str) :
  encodable s = true -> utf8_encode s = Ok (utf8_bytes s).
Proof. intros H. unfold utf8_encode. now rewrite H. Qed.

Lemma utf8_encode_inv (s : str) (b : bytes) :
  utf8_encode s = Ok b -> encodable s = true /\ b = utf8_bytes s.
Proof.
  unfold utf8_encode. destruct (encodable s); [|discriminate].
  intros [= <-]. now split.
Qed.

Lemma utf8_char_length (c : N) :
  (1 <= List.length (utf8_char c))%nat
  /\ ((c <? 0x80) = false -> (2 <= List.length (utf8_char c))%nat).
Proof.
  unfold utf8_char.
  destruct (c <? 0x80); [split; [cbn; lia|discriminate]|].
  destruct (c <? 0x800); [split; intros; cbn; lia|].
  destruct (c <? 0x10000); split; intros; cbn; lia.
Qed.

(** The UTF-8 encoding is as long as the string exactly when the string is
    ASCII. *)
Lemma utf8_bytes_longer (s : str) :
  (List.length s <= List.length (utf8_bytes s))%nat
  /\ (is_ascii s = false -> (List.length s < List.length (utf8_bytes s))%nat).
Proof.
  induction s as [|c s [IH1 IH2]]; [split; [cbn; lia|discriminate]|].
  cbn [utf8_bytes flat_map is_ascii forallb]. rewrite length_app.
  destruct (utf8_char_length c) as [H1 H2]. cbn [List.length].
  fold (utf8_bytes s). split; [lia|].
  destruct (c <? 128) eqn:E; cbn [andb]; intros Ha.
  - specialize (IH2 Ha). lia.
  - specialize (H2 eq_refl). lia.
Qed.

(** ** The keystream loop *)

Lemma lxor_byte (a b : N) : a < 256 -> b < 256 -> N.lxor a b < 256.
Proof.
  intros Ha Hb.
  destruct (N.eq_dec (N.lxor a b) 0) as [E|E]; [rewrite E; lia|].
  change 256 with (2 ^ 8). apply N.log2_lt_pow2; [lia|].
  eapply N.le_lt_trans; [apply N.log2_lxor|].
  assert (L : forall x, x < 256 -> N.log2 x < 8).
  { intros x Hx. destruct (N.eq_dec x 0) as [->|Nx]; [reflexivity|].
    apply N.log2_lt_pow2; [lia|exact Hx]. }
  apply N.max_lub_lt; now apply L.
Qed.

Lemma xor_loop_involutive (k : bytes) (i : nat) (d : bytes) :
  Cipher.xor_loop k i (Cipher.xor_loop k i d) = d.
Proof.
  revert i. induction d as [|b d IH]; intros i; cbn [Cipher.xor_loop]; [reflexivity|].
  rewrite IH. f_equal.
  now rewrite N.lxor_assoc, N.lxor_nilpotent, N.lxor_0_r.
Qed.

Lemma xor_loop_length (k : bytes) (i : nat) (d : bytes) :
  List.length (Cipher.xor_loop k i d) = List.length d.
Proof.
  revert i. induction d as [|b d IH]; intros i; cbn [Cipher.xor_loop List.length];
    [reflexivity|]. now rewrite IH.
Qed.

Lemma xor_loop_nth (k : bytes) (i j : nat) (d : bytes) :
  (j < List.length d)%nat ->
  nth j (Cipher.xor_loop k i d) 0
  = N.lxor (nth j d 0) (nth ((i + j) mod List.length k) k 0).
Proof.
  revert i j. induction d as [|b d IH]; intros i j Hj; cbn [List.length] in Hj; [lia|].
  cbn [Cipher.xor_loop]. destruct j as [|j].
  - cbn [nth]. now rewrite Nat.add_0_r.
  - cbn [nth]. rewrite IH by lia. do 3 f_equal. lia.
Qed.

Lemma xor_loop_bytes (k : bytes) (i : nat) (d : bytes) :
  byte_list k -> byte_list d -> byte_list (Cipher.xor_loop k i d).
Proof.
  intros Hk Hd. revert i. induction Hd as [|b d Hb _ IH]; intros i;
    cbn [Cipher.xor_loop]; constructor.
  - apply lxor_byte; [exact Hb|].
    destruct (nth_in_or_default (i mod List.length k) k 0) as [Hin| ->]; [|lia].
    unfold byte_list in Hk. rewrite Forall_forall in Hk. now apply Hk.
  - apply IH.
Qed.

(** ** encrypt and decrypt *)

(** The bytes that [encrypt] renders in hexadecimal. *)
Lemma encrypt_returns (k p : str) :
  encodable k = true -> encodable p = true ->
  Cipher.encrypt k p
  = Ok (hex (Cipher.xor_loop (SHA256.digest (utf8_bytes k)) 0 (utf8_bytes p))).
Proof.
  intros Hk Hp. unfold Cipher.encrypt.
  now rewrite (utf8_encode_returns _ Hk), (utf8_encode_returns _ Hp).
Qed.

Lemma encrypt_inv (k p c : str) :
  Cipher.encrypt k p = Ok c ->
  encodable k = true /\ encodable p = true
  /\ c = hex (Cipher.xor_loop (SHA256.digest (utf8_bytes k)) 0 (utf8_bytes p)).
Proof.
  unfold Cipher.encrypt, utf8_encode.
  destruct (encodable k); [|discriminate].
  destruct (encodable p); [|discriminate].
  cbn [bind]. intros [= <-]. auto.
Qed.

Lemma cipher_bytes (k : str) (d : bytes) :
  byte_list d -> byte_list (Cipher.xor_loop (SHA256.digest (utf8_bytes k)) 0 d).
Proof. intros Hd. apply xor_loop_bytes; [apply digest_bytes|exact Hd]. Qed.

Lemma encrypt_lower_hex (k p c : str) :
  Cipher.encrypt k p = Ok c ->
  is_lower_hex c = true /\ List.length c = (2 * List.length (utf8_bytes p))%nat.
Proof.
  intros H. apply encrypt_inv in H as (_ & Hp & ->). split.
  - apply hex_lower, cipher_bytes, utf8_bytes_bytes, Hp.
  - now rewrite hex_length, xor_loop_length.
Qed.

Lemma decrypt_returns (k c : str) (b : bytes) :
  encodable k = true -> fromhex c = Ok b ->
  Cipher.decrypt k c = Ok (Cipher.xor_loop (SHA256.digest (utf8_bytes k)) 0 b).
Proof.
  intros Hk Hc. unfold Cipher.decrypt.
  now rewrite (utf8_encode_returns _ Hk), Hc.
Qed.

(** Decrypting what [encrypt] made, with the same key, gives the string
    whose code points are the UTF-8 bytes of the plaintext. *)
Lemma decrypt_encrypt_bytes (k p c : str) :
  Cipher.encrypt k p = Ok c -> Cipher.decrypt k c = Ok (utf8_bytes p).
Proof.
  intros H. apply encrypt_inv in H as (Hk & Hp & ->).
  rewrite (decrypt_returns k _ _ Hk (fromhex_hex _ (cipher_bytes k _ (utf8_bytes_bytes _ Hp)))).
  now rewrite xor_loop_involutive.
Qed.

Lemma decrypt_encrypt_ascii (k p c : str) :
  is_ascii p = true ->
  Cipher.encrypt k p = Ok c -> Cipher.decrypt k c = Ok p.
Proof.
  intros Hp H. rewrite (decrypt_encrypt_bytes _ _ _ H).
  now rewrite (utf8_bytes_ascii _ Hp).
Qed.

(** ** Decimal text of an integer *)

Lemma digits_value_step (d : N) (acc : Z) (s : str) :
  d <= 9 ->
  digits_value acc (digit_char d :: s) = digits_value (10 * acc + Z.of_N d) s.
Proof.
  intros Hd. cbn [digits_value]. unfold digit_char, in_range.
  replace (48 <=? 48 + d) with true by (symmetry; apply N.leb_le; lia).
  replace (48 + d <=? 57) with true by (symmetry; apply N.leb_le; lia).
  cbn [andb]. do 3 f_equal. lia.
Qed.

Lemma digits_value_acc (u : Decimal.uint) (p : positive) :
  digits_value (Z.pos p) (uint_chars u) = Ok (Z.pos (Pos.of_uint_acc u p)).
Proof.
  revert p. induction u; intros p; cbn [uint_chars Pos.of_uint_acc];
    [reflexivity| ..];
    rewrite digits_value_step by lia; rewrite <- IHu; f_equal; lia.
Qed.

Lemma digits_value_uint (u : Decimal.uint) :
  digits_value 0 (uint_chars u) = Ok (Z.of_N (Pos.of_uint u)).
Proof.
  induction u; cbn [uint_chars Pos.of_uint]; [reflexivity| ..];
    rewrite digits_value_step by lia; [exact IHu| ..];
    cbn [Z.of_N]; rewrite <- digits_value_acc; f_equal.
Qed.

Lemma uint_chars_digits (u : Decimal.uint) :
  Forall (fun c => 48 <= c <= 57) (uint_chars u).
Proof.
  induction u; cbn [uint_chars]; constructor; try assumption;
    unfold digit_char; lia.
Qed.

Lemma int_of_uint_chars (u : Decimal.uint) :
  u <> Decimal.Nil -> int_of_str (uint_chars u) = digits_value 0 (uint_chars u).
Proof.
  intros Hu. pose proof (uint_chars_digits u) as Hd.
  destruct (uint_chars u) as [|c s] eqn:E.
  - destruct u; try discriminate. now elim Hu.
  - inversion Hd as [|? ? Hc _]; subst. unfold int_of_str.
    replace (c =? 45) with false by (symmetry; apply N.eqb_neq; lia).
    replace (c =? 43) with false by (symmetry; apply N.eqb_neq; lia).
    reflexivity.
Qed.

Lemma int_of_str_of_int (z : Z) : int_of_str (str_of_int z) = Ok z.
Proof.
  unfold str_of_int. destruct z as [|p|p]; cbn [Z.to_int].
  - reflexivity.
  - rewrite int_of_uint_chars by apply DecimalPos.Unsigned.to_uint_nonnil.
    now rewrite digits_value_uint, DecimalPos.Unsigned.of_to.
  - pose proof (DecimalPos.Unsigned.to_uint_nonnil p) as Hn.
    pose proof (digits_value_uint (Pos.to_uint p)) as Hv.
    rewrite DecimalPos.Unsigned.of_to in Hv.
    unfold int_of_str. cbn [N.eqb Pos.eqb].
    destruct (uint_chars (Pos.to_uint p)) as [|c s] eqn:E.
    + destruct (Pos.to_uint p); try discriminate; try (now elim Hn).
    + rewrite Hv. reflexivity.
Qed.

Lemma str_of_int_ascii (z : Z) : is_ascii (str_of_int z) = true.
Proof.
  assert (A : forall u, is_ascii (uint_chars u) = true).
  { intros u. unfold is_ascii. apply forallb_forall. intros c Hc.
    pose proof (uint_chars_digits u) as Hd. rewrite Forall_forall in Hd.
    apply N.ltb_lt. specialize (Hd c Hc). lia. }
  unfold str_of_int. destruct (Z.to_int z); [apply A|].
  cbn [is_ascii forallb]. rewrite andb_true_iff. split; [reflexivity|apply A].
Qed.

(** The [mtime] field: the hexadecimal text of the decimal text of the
    timestamp, which is what [codecs.encode(str(mdate)).hex()] gives. *)
Lemma codecs_encode_str_of_int (z : Z) :
  utf8_encode (str_of_int z) = Ok (utf8_bytes (str_of_int z))
  /\ utf8_bytes (str_of_int z) = str_of_int z.
Proof.
  split.
  - apply utf8_encode_returns, ascii_encodable, str_of_int_ascii.
  - apply utf8_bytes_ascii, str_of_int_ascii.
Qed.

Lemma ascii_bytes (s : str) : is_ascii s = true -> byte_list s.
Proof.
  unfold is_ascii, byte_list. rewrite forallb_forall, Forall_forall.
  intros H c Hc. specialize (H c Hc). apply N.ltb_lt in H. lia.
Qed.

Lemma mtime_lower_hex (z : Z) : is_lower_hex (hex (utf8_bytes (str_of_int z))) = true.
Proof.
  apply hex_lower. rewrite (utf8_bytes_ascii _ (str_of_int_ascii z)).
  apply ascii_bytes, str_of_int_ascii.
Qed.

(** Reading the timestamp back: [int(bytes.fromhex(mtime).decode("utf8"))]. *)
Lemma mtime_read_back (z : Z) :
  (b <- fromhex (hex (utf8_bytes (str_of_int z))) ;;
   s <- utf8_decode b ;; int_of_str s) = Ok z.
Proof.
  rewrite (utf8_bytes_ascii _ (str_of_int_ascii z)).
  rewrite (fromhex_hex _ (ascii_bytes _ (str_of_int_ascii z))). cbn [bind].
  rewrite (utf8_decode_ascii _ (str_of_int_ascii z)). cbn [bind].
  apply int_of_str_of_int.
Qed.

(** ** Splitting and joining *)

Lemma split_not_nil (sep : N) (s : str) : split sep s <> [].
Proof.
  destruct s as [|c s]; cbn [split]; [discriminate|].
  destruct (c =? sep); [discriminate|]. destruct (split sep s); discriminate.
Qed.

Lemma split_without (sep : N) (s : str) : ~ In sep s -> split sep s = [s].
Proof.
  induction s as [|c s IH]; intros Hn; cbn [split]; [reflexivity|].
  destruct (N.eqb_spec c sep) as [->|Hc]; [elim Hn; now left|].
  rewrite IH; [reflexivity|]. intros Hin. apply Hn. now right.
Qed.

Lemma split_app (sep : N) (a b : str) :
  ~ In sep a -> split sep (a ++ sep :: b) = a :: split sep b.
Proof.
  induction a as [|c a IH]; intros Hn; cbn [app split].
  - now rewrite N.eqb_refl.
  - destruct (N.eqb_spec c sep) as [->|Hc]; [elim Hn; now left|].
    rewrite IH; [reflexivity|]. intros Hin. apply Hn. now right.
Qed.

Lemma split_segments (sep : N) (s : str) :
  Forall (fun seg => ~ In sep seg) (split sep s).
Proof.
  induction s as [|c s IH]; cbn [split].
  - constructor; [intros []|constructor].
  - destruct (N.eqb_spec c sep) as [->|Hc].
    + constructor; [intros []|exact IH].
    + destruct (split sep s) as [|h t]; [repeat constructor; intros [E|[]]; congruence|].
      inversion IH as [|? ? Hh Ht]; subst. constructor; [|exact Ht].
      intros [E|Hin]; [congruence|now apply Hh].
Qed.

Lemma split_join (sep : N) (s : str) : join [sep] (split sep s) = s.
Proof.
  induction s as [|c s IH]; cbn [split]; [reflexivity|].
  destruct (N.eqb_spec c sep) as [->|Hc].
  - pose proof (split_not_nil sep s) as Hn.
    destruct (split sep s) as [|h t] eqn:E; [now elim Hn|].
    cbn [join app] in *. now rewrite IH.
  - pose proof (split_not_nil sep s) as Hn.
    destruct (split sep s) as [|h t] eqn:E; [now elim Hn|].
    destruct t as [|h' t]; cbn [join app] in *; now rewrite <- IH.
Qed.

Lemma hex_digit_not_space' (c : N) : is_hex_digit c = true -> is_space c = false.
Proof.
  unfold is_hex_digit, hex_value, is_space, in_range. intros H.
  destruct (N.leb_spec 9 c), (N.leb_spec c 13); cbn [andb orb]; try
    (destruct (N.eqb_spec c 32) as [->|]; [discriminate H|reflexivity]).
  exfalso.
  destruct (N.leb_spec 48 c), (N.leb_spec c 57), (N.leb_spec 97 c),
    (N.leb_spec c 102), (N.leb_spec 65 c), (N.leb_spec c 70);
    cbn [andb] in H; try discriminate; lia.
Qed.

Lemma fromhex_is_hex (c : str) : is_hex c = true -> returns (fromhex c).
Proof.
  assert (G : forall n c, (List.length c <= n)%nat -> is_hex c = true ->
                         returns (fromhex c)).
  { induction n as [|n IH]; intros s Hl Hs.
    - destruct s; [now exists []|cbn in Hl; lia].
    - destruct s as [|x [|y s]].
      + now exists [].
      + unfold is_hex in Hs. cbn in Hs. now rewrite andb_false_r in Hs.
      + unfold is_hex in Hs. cbn [forallb List.length Nat.even] in Hs.
        apply andb_prop in Hs as [Hs Hev].
        apply andb_prop in Hs as [Hx Hs]. apply andb_prop in Hs as [Hy Hs].
        destruct (IH s) as [b Hb].
        * cbn [List.length] in Hl. lia.
        * unfold is_hex. now rewrite Hs, Hev.
        * cbn [fromhex]. rewrite (hex_digit_not_space' _ Hx).
          unfold is_hex_digit in Hx, Hy.
          destruct (hex_value x); [|discriminate].
          destruct (hex_value y); [|discriminate].
          rewrite Hb. cbn [bind]. eexists. reflexivity. }
  intros H. now apply (G (List.length c)).
Qed.

(** ** C4 *)

(** C4, the claim as stated fails: with the key ["k"], the one-character
    plaintext U+00E9 is encrypted to ["41fd"], and decrypting that gives the
    two characters U+00C3 U+00A9, the UTF-8 bytes of the plaintext read as
    code points. *)
Lemma cipher_involution_fails_beyond_ascii :
  Cipher.encrypt (lit "k") [233] = Ok (lit "41fd")
  /\ Cipher.decrypt (lit "k") (lit "41fd") = Ok [195; 169]
  /\ Cipher.decrypt (lit "k") (lit "41fd") <> Ok [233].
Proof.
  assert (D : Cipher.decrypt (lit "k") (lit "41fd") = Ok [195; 169])
    by (vm_compute; reflexivity).
  split; [|split].
  - vm_compute; reflexivity.
  - exact D.
  - rewrite D. discriminate.
Qed.

(** C4 (amended): for every key [k] and plaintext [d] that UTF-8 can
    encode, [encrypt] returns a ciphertext [c], and [decrypt(k, c)] is the
    string whose code points are the UTF-8 bytes of [d]: it is [d] when
    every character of [d] is ASCII, and it is not [d] otherwise. The
    ciphertext is the hexadecimal text of the UTF-8 bytes of [d], byte [i]
    being XORed with byte [i mod 32] of the SHA-256 digest of the key, and
    applying that keystream twice gives back any byte sequence. *)
Theorem cipher_involution_on_ascii (k d : str) :
  encodable k = true -> encodable d = true ->
  let keystream := SHA256.digest (utf8_bytes k) in
  exists c,
    Cipher.encrypt k d = Ok c
    /\ Cipher.decrypt k c = Ok (utf8_bytes d)
    /\ (is_ascii d = true -> Cipher.decrypt k c = Ok d)
    /\ (is_ascii d = false -> Cipher.decrypt k c <> Ok d)
    /\ (exists bs, fromhex c = Ok bs
          /\ List.length bs = List.length (utf8_bytes d)
          /\ forall i, (i < List.length (utf8_bytes d))%nat ->
               nth i bs 0
               = N.lxor (nth i (utf8_bytes d) 0) (nth (i mod 32) keystream 0))
    /\ (forall data : bytes,
          Cipher.xor_loop keystream 0 (Cipher.xor_loop keystream 0 data) = data).
Proof.
  intros Hk Hd keystream.
  pose proof (encrypt_returns k d Hk Hd) as He.
  pose proof (decrypt_encrypt_bytes _ _ _ He) as Hdec.
  eexists. split; [exact He|]. split; [exact Hdec|].
  split; [|split; [|split]].
  - intros Ha. now apply decrypt_encrypt_ascii.
  - intros Ha E. rewrite Hdec in E. injection E as E.
    destruct (utf8_bytes_longer d) as [_ Hl]. specialize (Hl Ha).
    rewrite E in Hl. lia.
  - eexists. split; [|split].
    + apply fromhex_hex, cipher_bytes, utf8_bytes_bytes, Hd.
    + apply xor_loop_length.
    + intros i Hi. rewrite xor_loop_nth by exact Hi.
      now rewrite digest_length.
  - intros data. apply xor_loop_involutive.
Qed.

Lemma cipher_involution_on_ascii_witness :
  encodable (lit "2023-draft") = true /\ encodable (lit "report") = true
  /\ exists c, Cipher.encrypt (lit "2023-draft") (lit "report") = Ok c
               /\ Cipher.decrypt (lit "2023-draft") c = Ok (lit "report").
Proof.
  split; [reflexivity|]. split; [reflexivity|].
  destruct (cipher_involution_on_ascii (lit "2023-draft") (lit "report")
              eq_refl eq_refl) as (c & He & _ & Hd & _).
  exists c. split; [exact He|]. apply Hd. reflexivity.
Defined.

(** ** C8 *)

(** C8, the claim as stated fails: [decrypt] raises [ValueError] on a
    ciphertext that is not hexadecimal, and [encrypt] raises
    [UnicodeEncodeError] on a plaintext holding a lone surrogate. *)
Lemma cipher_can_raise :
  Cipher.decrypt (lit "k") (lit "zz") = Raise ValueError
  /\ ~ returns (Cipher.decrypt (lit "k") (lit "zz"))
  /\ Cipher.encrypt (lit "k") [0xD800] = Raise UnicodeEncodeError
  /\ ~ returns (Cipher.encrypt (lit "k") [0xD800]).
Proof.
  assert (D : Cipher.decrypt (lit "k") (lit "zz") = Raise ValueError)
    by (vm_compute; reflexivity).
  assert (E : Cipher.encrypt (lit "k") [0xD800] = Raise UnicodeEncodeError)
    by (vm_compute; reflexivity).
  split; [exact D|]. split; [|split; [exact E|]].
  - intros [c Hc]. rewrite D in Hc. discriminate.
  - intros [c Hc]. rewrite E in Hc. discriminate.
Qed.

(** C8 (amended): [encrypt] returns a result for every key and plaintext
    that UTF-8 can encode (no lone surrogate). For every such key,
    [decrypt] returns a result exactly when [fromhex] can read the
    ciphertext; it can whenever the ciphertext is an even number of
    hexadecimal digits, so decrypting the output of [encrypt] with any key,
    the right one or not, returns a result. *)
Theorem cipher_returns (k k' p : str) :
  encodable k = true -> encodable k' = true -> encodable p = true ->
  returns (Cipher.encrypt k p)
  /\ (forall c, returns (Cipher.decrypt k' c) <-> returns (fromhex c))
  /\ (forall c, is_hex c = true -> returns (Cipher.decrypt k' c))
  /\ (forall c, Cipher.encrypt k p = Ok c -> returns (Cipher.decrypt k' c)).
Proof.
  intros Hk Hk' Hp.
  assert (Iff : forall c, returns (Cipher.decrypt k' c) <-> returns (fromhex c)).
  { intros c. unfold Cipher.decrypt. rewrite (utf8_encode_returns _ Hk').
    cbn [bind]. destruct (fromhex c) as [b|e]; cbn [bind].
    - split; intros _; eexists; reflexivity.
    - split; intros [x Hx]; discriminate. }
  split; [|split; [exact Iff|split]].
  - eexists. now apply encrypt_returns.
  - intros c Hc. apply Iff. now apply fromhex_is_hex.
  - intros c Hc. apply Iff. apply encrypt_inv in Hc as (_ & _ & ->).
    eexists. apply fromhex_hex, cipher_bytes, utf8_bytes_bytes, Hp.
Qed.

Lemma cipher_returns_witness :
  encodable (lit "key") = true /\ encodable (lit "other") = true
  /\ encodable (lit "txt") = true
  /\ returns (Cipher.encrypt (lit "key") (lit "txt"))
  /\ (forall c, Cipher.encrypt (lit "key") (lit "txt") = Ok c ->
        returns (Cipher.decrypt (lit "other") c)).
Proof.
  repeat (split; [reflexivity|]).
  destruct (cipher_returns (lit "key") (lit "other") (lit "txt")
              eq_refl eq_refl eq_refl) as (He & _ & _ & Hd).
  split; assumption.
Defined.

Example mismatched_key_gives_other_text :
  Cipher.encrypt (lit "key") (lit "txt") = Ok (lit "580895")
  /\ Cipher.decrypt (lit "other") (lit "580895") = Ok [129; 33; 31].
Proof. split; vm_compute; reflexivity. Qed.

(** ** C9 *)

(** C9: for every key and plaintext (that UTF-8 can encode) [encrypt]
    returns a string of lowercase hexadecimal digits, twice as long as the
    UTF-8 encoding of the plaintext; it holds no ['-'], so in a string that
    continues with a dash the first field [split] finds is that output. *)
Theorem encrypt_output_is_lower_hex (k p : str) :
  encodable k = true -> encodable p = true ->
  exists c,
    Cipher.encrypt k p = Ok c
    /\ is_lower_hex c = true
    /\ List.length c = (2 * List.length (utf8_bytes p))%nat
    /\ ~ In 45 c
    /\ forall rest, split 45 (c ++ 45 :: rest) = c :: split 45 rest.
Proof.
  intros Hk Hp. pose proof (encrypt_returns k p Hk Hp) as He.
  destruct (encrypt_lower_hex _ _ _ He) as [Hh Hl].
  eexists. split; [exact He|]. repeat split.
  - exact Hh.
  - exact Hl.
  - now apply lower_hex_no_dash.
  - intros rest. apply split_app. now apply lower_hex_no_dash.
Qed.

Lemma encrypt_output_is_lower_hex_witness :
  encodable (lit "5a4e-4b7c-9d8e") = true /\ encodable [0x20AC; 97] = true
  /\ exists c, Cipher.encrypt (lit "5a4e-4b7c-9d8e") [0x20AC; 97] = Ok c
               /\ is_lower_hex c = true /\ List.length c = 8%nat.
Proof.
  split; [reflexivity|]. split; [reflexivity|].
  destruct (encrypt_output_is_lower_hex (lit "5a4e-4b7c-9d8e") [0x20AC; 97]
              eq_refl eq_refl) as (c & He & Hh & Hl & _).
  exists c. repeat split; assumption.
Defined.

(** ** Tokens *)

Lemma encrypt_total (k p : str) :
  encodable k = true -> encodable p = true -> exists c, Cipher.encrypt k p = Ok c.
Proof. intros Hk Hp. eexists. now apply encrypt_returns. Qed.

Lemma decrypt_nothing (k : str) : encodable k = true -> Cipher.decrypt k [] = Ok [].
Proof. intros Hk. now rewrite (decrypt_returns k [] [] Hk eq_refl). Qed.

(** What [decode_file] does with a name whose first three fields come from
    the chain of [encrypt] calls. *)
Lemma decode_file_chain (K mt ext he hk hm tok : str) (extra : list str) (ui : bool) :
  is_ascii mt = true ->
  Cipher.encrypt K ext = Ok he ->
  Cipher.encrypt mt K = Ok hk ->
  Cipher.encrypt he mt = Ok hm ->
  split 45 tok = hm :: he :: hk :: extra ->
  Unmount.decode_file tok ui
  = (e <- Cipher.decrypt (utf8_bytes K) he ;;
     n <- (if truthy extra || ui
           then Cipher.decrypt (utf8_bytes K) (join [] extra) else Ok []) ;;
     Ok (mt, e, n)).
Proof.
  intros Hmt He Hk Hm Hs. unfold Unmount.decode_file. rewrite Hs.
  rewrite (decrypt_encrypt_ascii _ _ _ Hmt Hm). cbn [bind].
  rewrite (decrypt_encrypt_bytes _ _ _ Hk). cbn [bind]. reflexivity.
Qed.

Lemma split_token3 (hm he hk : str) :
  is_lower_hex hm = true -> is_lower_hex he = true -> is_lower_hex hk = true ->
  split 45 (hm ++ lit "-" ++ he ++ lit "-" ++ hk ++ []) = [hm; he; hk].
Proof.
  intros Hm He Hk. change (lit "-") with [45]. cbn [app]. rewrite app_nil_r.
  rewrite split_app by now apply lower_hex_no_dash.
  rewrite split_app by now apply lower_hex_no_dash.
  now rewrite split_without by now apply lower_hex_no_dash.
Qed.

Lemma split_token4 (hm he hk hn : str) :
  is_lower_hex hm = true -> is_lower_hex he = true -> is_lower_hex hk = true ->
  is_lower_hex hn = true ->
  split 45 (hm ++ lit "-" ++ he ++ lit "-" ++ hk ++ lit "-" ++ hn) = [hm; he; hk; hn].
Proof.
  intros Hm He Hk Hn. change (lit "-") with [45]. cbn [app].
  rewrite split_app by now apply lower_hex_no_dash.
  rewrite split_app by now apply lower_hex_no_dash.
  rewrite split_app by now apply lower_hex_no_dash.
  now rewrite split_without by now apply lower_hex_no_dash.
Qed.

(** ** C1 *)

(** C1: for every integer timestamp [t], every extension and optional name
    made of ASCII characters and every ASCII key segment [K], the chain of
    [encrypt] calls of mount returns its three (or four) fields, and
    [decode_file] applied to the fields joined with ['-'] returns the
    hexadecimal time text, the extension and the name, the name being empty
    when no fourth field was embedded. *)
Theorem decode_file_inverts_encode_chain
    (t : Z) (extension K : str) (name : option str) :
  is_ascii extension = true -> is_ascii K = true ->
  match name with Some n => is_ascii n = true | None => True end ->
  let hexTime := hex (utf8_bytes (str_of_int t)) in
  exists hashed_extension hashed_key hashed_mtime,
    Cipher.encrypt K extension = Ok hashed_extension
    /\ Cipher.encrypt hexTime K = Ok hashed_key
    /\ Cipher.encrypt hashed_extension hexTime = Ok hashed_mtime
    /\ match name with
       | None =>
           forall use_index_filename,
             Unmount.decode_file
               (hashed_mtime ++ lit "-" ++ hashed_extension ++ lit "-"
                  ++ hashed_key ++ []) use_index_filename
             = Ok (hexTime, extension, [])
       | Some n =>
           exists hashed_name,
             Cipher.encrypt K n = Ok hashed_name
             /\ forall use_index_filename,
                  Unmount.decode_file
                    (hashed_mtime ++ lit "-" ++ hashed_extension ++ lit "-"
                       ++ hashed_key ++ lit "-" ++ hashed_name)
                    use_index_filename
                  = Ok (hexTime, extension, n)
       end.
Proof.
  intros Hext HK Hname hexTime.
  assert (Ht : is_ascii hexTime = true) by apply lower_hex_ascii, mtime_lower_hex.
  pose proof (ascii_encodable _ HK) as HKe.
  destruct (encrypt_total K extension HKe (ascii_encodable _ Hext)) as [he He].
  destruct (encrypt_total hexTime K (ascii_encodable _ Ht) HKe) as [hk Hk].
  destruct (encrypt_lower_hex _ _ _ He) as [Hhe _].
  destruct (encrypt_lower_hex _ _ _ Hk) as [Hhk _].
  destruct (encrypt_total he hexTime
              (ascii_encodable _ (lower_hex_ascii _ Hhe)) (ascii_encodable _ Ht))
    as [hm Hm].
  destruct (encrypt_lower_hex _ _ _ Hm) as [Hhm _].
  exists he, hk, hm. split; [exact He|]. split; [exact Hk|]. split; [exact Hm|].
  destruct name as [n|].
  - destruct (encrypt_total K n HKe (ascii_encodable _ Hname)) as [hn Hn].
    destruct (encrypt_lower_hex _ _ _ Hn) as [Hhn _].
    exists hn. split; [exact Hn|]. intros ui.
    rewrite (decode_file_chain _ _ _ _ _ _ _ _ ui Ht He Hk Hm
               (split_token4 _ _ _ _ Hhm Hhe Hhk Hhn)).
    rewrite (utf8_bytes_ascii _ HK).
    rewrite (decrypt_encrypt_ascii _ _ _ Hext He). cbn [bind truthy orb join].
    now rewrite (decrypt_encrypt_ascii _ _ _ Hname Hn).
  - intros ui.
    rewrite (decode_file_chain _ _ _ _ _ _ _ _ ui Ht He Hk Hm
               (split_token3 _ _ _ Hhm Hhe Hhk)).
    rewrite (utf8_bytes_ascii _ HK).
    rewrite (decrypt_encrypt_ascii _ _ _ Hext He). cbn [bind truthy orb join].
    destruct ui; [|reflexivity].
    now rewrite (decrypt_nothing _ HKe).
Qed.

Lemma decode_file_inverts_encode_chain_witness :
  is_ascii (lit "txt") = true /\ is_ascii (lit "5a4e-4b7c-9d8e") = true
  /\ is_ascii (lit "report") = true
  /\ exists token,
       Unmount.decode_file token false
       = Ok (lit "31373030303030303030", lit "txt", lit "report").
Proof.
  repeat (split; [reflexivity|]).
  destruct (decode_file_inverts_encode_chain 1700000000 (lit "txt")
              (lit "5a4e-4b7c-9d8e") (Some (lit "report")) eq_refl eq_refl eq_refl)
    as (he & hk & hm & _ & _ & _ & hn & _ & Hd).
  eexists. exact (Hd false).
Defined.

(** ** The name that mount builds *)

Lemma is_ascii_app (a b : str) : is_ascii (a ++ b) = is_ascii a && is_ascii b.
Proof. apply forallb_app. Qed.

Lemma split_ascii (sep : N) (s : str) :
  is_ascii s = true -> Forall (fun seg => is_ascii seg = true) (split sep s).
Proof.
  induction s as [|c s IH]; cbn [split is_ascii forallb]; intros H.
  - repeat constructor.
  - apply andb_prop in H as [Hc Hs]. specialize (IH Hs).
    destruct (c =? sep); [constructor; [reflexivity|exact IH]|].
    destruct (split sep s) as [|h t]; [repeat constructor; cbn; now rewrite Hc|].
    inversion IH as [|? ? Hh Ht]; subst. constructor; [|exact Ht].
    cbn [is_ascii forallb]. now rewrite Hc.
Qed.

Lemma join_ascii (sep : str) (parts : list str) :
  is_ascii sep = true -> Forall (fun p => is_ascii p = true) parts ->
  is_ascii (join sep parts) = true.
Proof.
  intros Hsep. induction 1 as [|p parts Hp Hps IH]; [reflexivity|].
  destruct parts as [|q parts]; [exact Hp|].
  change (join sep (p :: q :: parts)) with (p ++ sep ++ join sep (q :: parts)).
  now rewrite !is_ascii_app, Hp, Hsep, IH.
Qed.

Lemma last_Forall {A} (P : A -> Prop) (l : list A) (d : A) :
  P d -> Forall P l -> P (last l d).
Proof.
  intros Hd. induction 1 as [|x l' Hx Hl IH]; [exact Hd|].
  destruct l'; [exact Hx|exact IH].
Qed.

Lemma hd_Forall {A} (P : A -> Prop) (l : list A) (d : A) :
  P d -> Forall P l -> P (hd d l).
Proof. intros Hd [|x l' Hx _]; assumption. Qed.

Lemma slice_Forall {A} (P : A -> Prop) (i j : nat) (l : list A) :
  Forall P l -> Forall P (slice i j l).
Proof.
  intros H. unfold slice.
  rewrite <- (firstn_skipn i l) in H. apply Forall_app in H as [_ H].
  rewrite <- (firstn_skipn (j - i) (skipn i l)) in H.
  now apply Forall_app in H as [H _].
Qed.

Lemma lower_ascii (s : str) : is_ascii s = true -> is_ascii (lower s) = true.
Proof.
  unfold is_ascii, lower. rewrite !forallb_forall. intros H c Hc.
  apply in_map_iff in Hc as (x & <- & Hx). specialize (H x Hx).
  apply N.ltb_lt in H. apply N.ltb_lt. unfold lower_char, in_range.
  destruct (N.leb_spec 65 x), (N.leb_spec x 90); cbn [andb]; lia.
Qed.

Lemma key_segment_ascii (uuid : str) :
  is_ascii uuid = true -> is_ascii (Mount.key_segment_of uuid) = true.
Proof.
  intros H. unfold Mount.key_segment_of.
  apply join_ascii; [reflexivity|]. now apply slice_Forall, split_ascii.
Qed.

Lemma extension_of_ascii (file : Mount.file_info) :
  is_ascii (Mount.name file) = true -> is_ascii (extension_of file) = true.
Proof.
  intros H. unfold extension_of. destruct (Mount.is_dir file); [reflexivity|].
  cbn [negb]. apply lower_ascii.
  apply (last_Forall (fun s => is_ascii s = true)); [reflexivity|].
  now apply split_ascii.
Qed.

Lemma embedded_name_ascii (file : Mount.file_info) (h i : bool) (n : str) :
  is_ascii (Mount.name file) = true ->
  embedded_name file h i = Some n -> is_ascii n = true.
Proof.
  intros H. unfold embedded_name.
  destruct (Mount.is_dir file), h, i; intros [= <-]; try exact H;
    apply (hd_Forall (fun s => is_ascii s = true)); try reflexivity;
    now apply split_ascii.
Qed.

(** [filename_of] is the chain of [encrypt] calls on the key segment, the
    extension and the [mtime] field, followed by the embedded name. *)
Lemma filename_of_chain (file : Mount.file_info) (uuid : str) (h i : bool) :
  Mount.filename_of file uuid h i
  = (let K := Mount.key_segment_of uuid in
     he <- Cipher.encrypt K (extension_of file) ;;
     hk <- Cipher.encrypt (Mount.mtime file) K ;;
     hm <- Cipher.encrypt he (Mount.mtime file) ;;
     add <- match embedded_name file h i with
            | None => Ok []
            | Some n => hn <- Cipher.encrypt K n ;; Ok (lit "-" ++ hn)
            end ;;
     Ok (hm ++ lit "-" ++ he ++ lit "-" ++ hk ++ add)).
Proof.
  unfold Mount.filename_of, extension_of, embedded_name.
  destruct (Mount.is_dir file), h, i; cbn [negb andb];
    repeat (match goal with
            | |- context [bind (Cipher.encrypt ?a ?b) _] =>
                destruct (Cipher.encrypt a b); cbn [bind]
            end); reflexivity.
Qed.

Lemma decrypt_cipher_returns (k k' p c : str) :
  encodable k' = true -> Cipher.encrypt k p = Ok c ->
  returns (Cipher.decrypt k' c).
Proof.
  intros Hk' Hc. apply encrypt_inv in Hc as (_ & Hp & ->).
  eexists. apply decrypt_returns; [exact Hk'|].
  apply fromhex_hex, cipher_bytes, utf8_bytes_bytes, Hp.
Qed.

(** The fields of a name built by mount. *)
Lemma filename_of_fields (file : Mount.file_info) (uuid : str) (h i : bool)
    (token : str) :
  Mount.filename_of file uuid h i = Ok token ->
  let K := Mount.key_segment_of uuid in
  exists he hk hm extra,
    Cipher.encrypt K (extension_of file) = Ok he
    /\ Cipher.encrypt (Mount.mtime file) K = Ok hk
    /\ Cipher.encrypt he (Mount.mtime file) = Ok hm
    /\ split 45 token = hm :: he :: hk :: extra
    /\ match embedded_name file h i with
       | None => extra = []
       | Some n => exists hn, Cipher.encrypt K n = Ok hn /\ extra = [hn]
       end.
Proof.
  rewrite filename_of_chain. cbv zeta. intros H.
  destruct (Cipher.encrypt _ (extension_of file)) as [he|] eqn:He; [|discriminate].
  destruct (Cipher.encrypt (Mount.mtime file) _) as [hk|] eqn:Hk; [|discriminate].
  cbn [bind] in H.
  destruct (Cipher.encrypt he _) as [hm|] eqn:Hm; [|discriminate].
  cbn [bind] in H.
  destruct (encrypt_lower_hex _ _ _ He) as [Hhe _].
  destruct (encrypt_lower_hex _ _ _ Hk) as [Hhk _].
  destruct (encrypt_lower_hex _ _ _ Hm) as [Hhm _].
  exists he, hk, hm.
  destruct (embedded_name file h i) as [n|].
  - destruct (Cipher.encrypt _ n) as [hn|] eqn:Hn; [|discriminate].
    cbn [bind] in H. injection H as <-.
    destruct (encrypt_lower_hex _ _ _ Hn) as [Hhn _].
    exists [hn]. split; [reflexivity|]. split; [reflexivity|].
    split; [exact Hm|]. split; [now apply split_token4|]. now exists hn.
  - cbn [bind] in H. injection H as <-.
    exists []. split; [reflexivity|]. split; [reflexivity|].
    split; [exact Hm|]. split; [now apply split_token3|reflexivity].
Qed.

Lemma filename_of_returns (file : Mount.file_info) (uuid : str) (h i : bool) :
  is_ascii uuid = true -> is_ascii (Mount.name file) = true ->
  is_ascii (Mount.mtime file) = true ->
  returns (Mount.filename_of file uuid h i).
Proof.
  intros Hu Hn Hm. rewrite filename_of_chain. cbv zeta.
  pose proof (ascii_encodable _ (key_segment_ascii _ Hu)) as HK.
  destruct (encrypt_total _ (extension_of file) HK
              (ascii_encodable _ (extension_of_ascii _ Hn))) as [he He].
  rewrite He. cbn [bind].
  destruct (encrypt_total (Mount.mtime file) _ (ascii_encodable _ Hm) HK) as [hk Hk].
  rewrite Hk. cbn [bind].
  destruct (encrypt_lower_hex _ _ _ He) as [Hhe _].
  destruct (encrypt_total he (Mount.mtime file)
              (ascii_encodable _ (lower_hex_ascii _ Hhe)) (ascii_encodable _ Hm))
    as [hm Hhm].
  rewrite Hhm. cbn [bind].
  destruct (embedded_name file h i) as [n|] eqn:En.
  - destruct (encrypt_total _ n HK
                (ascii_encodable _ (embedded_name_ascii _ _ _ _ Hn En))) as [hn Hhn].
    rewrite Hhn. cbn [bind]. eexists. reflexivity.
  - cbn [bind]. eexists. reflexivity.
Qed.

Lemma encode_file_mtime (e : os.DirEntry) :
  Mount.mtime (Mount.encode_file e)
  = hex (utf8_bytes (str_of_int (ceil (os.st_mtime e)))).
Proof. reflexivity. Qed.

(** [decode_file] on a name built by mount, whatever the characters of the
    original name: the time field comes back. *)
Lemma decode_file_time (file : Mount.file_info) (uuid : str) (h i ui : bool)
    (token : str) :
  is_ascii (Mount.mtime file) = true ->
  Mount.filename_of file uuid h i = Ok token ->
  exists ext fn, Unmount.decode_file token ui = Ok (Mount.mtime file, ext, fn).
Proof.
  intros Hmt H. apply filename_of_fields in H.
  destruct H as (he & hk & hm & extra & He & Hk & Hm & Hs & Hx).
  rewrite (decode_file_chain _ _ _ _ _ _ _ _ ui Hmt He Hk Hm Hs).
  destruct (encrypt_inv _ _ _ He) as (HK & _ & _).
  pose proof (bytes_encodable _ (utf8_bytes_bytes _ HK)) as HK'.
  destruct (decrypt_cipher_returns _ _ _ _ HK' He) as [e Hd]. rewrite Hd.
  cbn [bind].
  destruct (embedded_name file h i) as [n|].
  - destruct Hx as (hn & Hn & ->). cbn [truthy orb join].
    destruct (decrypt_cipher_returns _ _ _ _ HK' Hn) as [fn Hfn]. rewrite Hfn.
    cbn [bind]. now exists e, fn.
  - subst extra. cbn [truthy orb join]. destruct ui.
    + rewrite (decrypt_nothing _ HK'). cbn [bind]. now exists e, [].
    + cbn [bind]. now exists e, [].
Qed.

(** [decode_file] on a name built by mount from ASCII text: every field
    comes back. *)
Lemma decode_file_ascii (file : Mount.file_info) (uuid : str) (h i ui : bool)
    (token : str) :
  is_ascii uuid = true -> is_ascii (Mount.name file) = true ->
  is_ascii (Mount.mtime file) = true ->
  Mount.filename_of file uuid h i = Ok token ->
  Unmount.decode_file token ui
  = Ok (Mount.mtime file, extension_of file,
        match embedded_name file h i with Some n => n | None => [] end).
Proof.
  intros Hu Hn Hmt H. apply filename_of_fields in H.
  destruct H as (he & hk & hm & extra & He & Hk & Hm & Hs & Hx).
  rewrite (decode_file_chain _ _ _ _ _ _ _ _ ui Hmt He Hk Hm Hs).
  pose proof (key_segment_ascii _ Hu) as HK.
  rewrite (utf8_bytes_ascii _ HK).
  rewrite (decrypt_encrypt_ascii _ _ _ (extension_of_ascii _ Hn) He). cbn [bind].
  destruct (embedded_name file h i) as [n|] eqn:En.
  - destruct Hx as (hn & Hhn & ->). cbn [truthy orb join].
    now rewrite (decrypt_encrypt_ascii _ _ _ (embedded_name_ascii _ _ _ _ Hn En) Hhn).
  - subst extra. cbn [truthy orb join]. destruct ui; [|reflexivity].
    now rewrite (decrypt_nothing _ (ascii_encodable _ HK)).
Qed.

Example sample_token_fields :
  Mount.filename_of (Mount.encode_file sample_entry)
    (lit "6f1d2c3b-5a4e-4b7c-9d8e-000000000000") false true = Ok sample_token
  /\ List.map (@List.length N) (split 45 sample_token) = [40; 6; 28; 12]%nat
  /\ is_lower_hex (join [] (split 45 sample_token)) = true.
Proof. repeat split; vm_compute; reflexivity. Qed.

Example mounted_names_decode :
  Mount.filename_of
    (Mount.encode_file
       (os.entry (lit "c:\data") (os.FsDir (lit "a") (1700000000 # 1) [])))
    (Sim.nth_uuid 1) true false = Ok mounted_a
  /\ Unmount.decode_file mounted_a false
     = Ok (lit "31373030303030303030", lit "folder", lit "a")
  /\ Unmount.decode_file mounted_bb false
     = Ok (lit "31373030303030303030", lit "folder", lit "bb").
Proof. repeat split; vm_compute; reflexivity. Qed.

Example decode_two_segments_raises :
  Unmount.decode_file (lit "3137-3030") false = Raise ValueError.
Proof. reflexivity. Qed.

Example stable_descending_sort :
  sorted_desc snd Nat.leb [(1, 5); (2, 7); (3, 5); (4, 7)]%nat
  = [(2, 7); (4, 7); (1, 5); (3, 5)]%nat.
Proof. reflexivity. Qed.

(** ** C7 *)

Lemma decoded_entry_of_decode (e' : os.DirEntry) (ui : bool) (z : Z) (ext fn : str) :
  Unmount.decode_file (os.name e') ui
  = Ok (hex (utf8_bytes (str_of_int z)), ext, fn) ->
  Unmount.decoded_entry e' ui = Ok (z, ext, fn).
Proof.
  intros H. unfold Unmount.decoded_entry. rewrite H. cbn [bind].
  rewrite (utf8_bytes_ascii _ (str_of_int_ascii z)).
  rewrite (fromhex_hex _ (ascii_bytes _ (str_of_int_ascii z))). cbn [bind].
  rewrite (utf8_decode_ascii _ (str_of_int_ascii z)). cbn [bind].
  now rewrite int_of_str_of_int.
Qed.

Lemma change_file_names_step {W} `{Host W} (file : os.DirEntry)
    (rest : Unmount.FILE_INFOS) (d ui : bool) (w : W) (out : list exn)
    (t : Z) (extension filename formatted : str) :
  Unmount.decoded_entry file ui = Ok (t, extension, filename) ->
  strftime_local t = Ok formatted ->
  Unmount.change_file_names (file :: rest) d ui (w, out)
  = match filedate_set (os.path file) formatted w with
    | Raise _ => Ok (w, out)
    | Ok w1 =>
        Unmount.change_file_names rest d ui
          (Unmount.rename_entry file extension filename ui (w1, out))
    end.
Proof.
  intros Hd Hf. cbn [Unmount.change_file_names]. rewrite Hd. cbn [bind].
  rewrite Hf. reflexivity.
Qed.

(** C7: the [mtime] field that mount stores for an entry is the
    hexadecimal text of the decimal text of [ceil(st_mtime)], the least
    whole number of seconds not below [st_mtime]. When unmount meets the
    name mount built, decoding the time field, reading it back from
    hexadecimal and parsing it gives that same integer; its local-time
    rendering is what is handed to the metadata write, and the rename runs
    on the world the write leaves. *)
Theorem mtime_survives_mount_and_unmount
    (e : os.DirEntry) (uuid : str) (h i : bool) (token : str) :
  Mount.filename_of (Mount.encode_file e) uuid h i = Ok token ->
  let mdate := ceil (os.st_mtime e) in
  (os.st_mtime e <= inject_Z mdate)%Q
  /\ (inject_Z (mdate - 1) < os.st_mtime e)%Q
  /\ Mount.mtime (Mount.encode_file e) = hex (utf8_bytes (str_of_int mdate))
  /\ forall (e' : os.DirEntry) (ui : bool),
       os.name e' = token ->
       exists ext fn,
         Unmount.decoded_entry e' ui = Ok (mdate, ext, fn)
         /\ forall W `(Host W) (rest : Unmount.FILE_INFOS) (d : bool)
                   (w : W) (out : list exn) (formatted : str),
              strftime_local mdate = Ok formatted ->
              Unmount.change_file_names (e' :: rest) d ui (w, out)
              = match filedate_set (os.path e') formatted w with
                | Raise _ => Ok (w, out)
                | Ok w1 =>
                    Unmount.change_file_names rest d ui
                      (Unmount.rename_entry e' ext fn ui (w1, out))
                end.
Proof.
  intros Hf mdate. split; [apply Qle_ceiling|]. split; [apply Qceiling_lt|].
  split; [reflexivity|]. intros e' ui He'.
  destruct (decode_file_time (Mount.encode_file e) uuid h i ui token
              (lower_hex_ascii _ (mtime_lower_hex (ceil (os.st_mtime e)))) Hf)
    as (ext & fn & Hd).
  rewrite <- He' in Hd. rewrite encode_file_mtime in Hd.
  apply decoded_entry_of_decode in Hd.
  exists ext, fn. split; [exact Hd|].
  intros W HW rest d w out formatted Hfmt.
  now apply change_file_names_step with (t := mdate).
Qed.

Lemma mtime_survives_mount_and_unmount_witness :
  Mount.filename_of (Mount.encode_file sample_entry)
    (lit "6f1d2c3b-5a4e-4b7c-9d8e-000000000000") false true = Ok sample_token
  /\ Mount.mtime (Mount.encode_file sample_entry) = lit "31373030303030303031"
  /\ exists ext fn,
       Unmount.decoded_entry sample_mounted true = Ok (1700000001%Z, ext, fn).
Proof.
  assert (Hf : Mount.filename_of (Mount.encode_file sample_entry)
                 (lit "6f1d2c3b-5a4e-4b7c-9d8e-000000000000") false true
               = Ok sample_token) by (vm_compute; reflexivity).
  split; [exact Hf|]. split; [reflexivity|].
  destruct (mtime_survives_mount_and_unmount _ _ _ _ _ Hf)
    as (_ & _ & _ & Hu).
  destruct (Hu sample_mounted true eq_refl) as (ext & fn & Hd & _).
  exists ext, fn. exact Hd.
Defined.

(** ** C6 *)

(** C6: in the loop of unmount, at any entry whose name decodes: if the
    metadata write raises, the loop ends there, whatever entries remain,
    with the world and the output as they were; if the write succeeds and
    the rename raises, the exception is printed and the loop goes on with
    the remaining entries. *)
Theorem unmount_failure_policy {W} `{Host W}
    (file : os.DirEntry) (rest : Unmount.FILE_INFOS) (d ui : bool)
    (w : W) (out : list exn) (t : Z) (extension filename formatted : str) :
  Unmount.decoded_entry file ui = Ok (t, extension, filename) ->
  strftime_local t = Ok formatted ->
  (forall x, filedate_set (os.path file) formatted w = Raise x ->
     Unmount.change_file_names (file :: rest) d ui (w, out) = Ok (w, out))
  /\ (forall w1 filename' w2 ex,
        filedate_set (os.path file) formatted w = Ok w1 ->
        Unmount.pick_filename filename ui w1 = (filename', w2) ->
        os_rename (os.path file)
          (Unmount.new_filename_of file extension filename') w2 = Raise ex ->
        Unmount.change_file_names (file :: rest) d ui (w, out)
        = Unmount.change_file_names rest d ui (w2, out ++ [ex])).
Proof.
  intros Hd Hf. split.
  - intros x Hx. rewrite (change_file_names_step _ _ _ _ _ _ _ _ _ _ Hd Hf).
    now rewrite Hx.
  - intros w1 filename' w2 ex Hs Hp Hr.
    rewrite (change_file_names_step _ _ _ _ _ _ _ _ _ _ Hd Hf). rewrite Hs.
    unfold Unmount.rename_entry. rewrite Hp, Hr. reflexivity.
Qed.

Lemma unmount_failure_policy_witness :
  Unmount.decoded_entry sample_mounted true
  = Ok (1700000001%Z, lit "txt", lit "report")
  /\ @strftime_local Sim.world _ 1700000001%Z = Ok (lit "1700000001")
  /\ Unmount.change_file_names [sample_mounted; sample_mounted] false true
        (Sim.init [], [])
      = Ok (Sim.init [], [])
  /\ Unmount.change_file_names [sample_mounted; sample_mounted] false true
        (Sim.init [os.path sample_mounted; lit "c:\data\report.txt"], [])
      = Unmount.change_file_names [sample_mounted] false true
          ({| Sim.paths := [os.path sample_mounted; lit "c:\data\report.txt"];
              Sim.journal :=
                [Sim.SetModified (os.path sample_mounted) (lit "1700000001")];
              Sim.uuids := 0 |},
           [OSError (os.path sample_mounted)]).
Proof.
  assert (Hd : Unmount.decoded_entry sample_mounted true
               = Ok (1700000001%Z, lit "txt", lit "report"))
    by (vm_compute; reflexivity).
  assert (Hf : @strftime_local Sim.world _ 1700000001%Z = Ok (lit "1700000001"))
    by reflexivity.
  split; [exact Hd|]. split; [exact Hf|]. split.
  - destruct (unmount_failure_policy sample_mounted [sample_mounted] false true
                (Sim.init []) [] _ _ _ _ Hd Hf) as [Ha _].
    apply (Ha (OSError (os.path sample_mounted))). vm_compute. reflexivity.
  - destruct (unmount_failure_policy sample_mounted [sample_mounted] false true
                (Sim.init [os.path sample_mounted; lit "c:\data\report.txt"])
                [] _ _ _ _ Hd Hf) as [_ Hb].
    set (w1 := {| Sim.paths := [os.path sample_mounted; lit "c:\data\report.txt"];
                  Sim.journal :=
                    [Sim.SetModified (os.path sample_mounted) (lit "1700000001")];
                  Sim.uuids := 0 |}).
    apply (Hb w1 (lit "report") w1 (OSError (os.path sample_mounted)));
      vm_compute; reflexivity.
Defined.

(** ** C10 *)

Lemma lower_length (s : str) : List.length (lower s) = List.length s.
Proof. apply length_map. Qed.

Lemma lower_char_dot (c : N) : lower_char c = 46 -> c = 46.
Proof.
  unfold lower_char, in_range.
  destruct (N.leb_spec 65 c), (N.leb_spec c 90); cbn [andb]; lia.
Qed.

Lemma lower_without_dot (s : str) : ~ In 46 s -> ~ In 46 (lower s).
Proof.
  intros Hn Hin. apply in_map_iff in Hin as (c & Hc & Hin).
  apply lower_char_dot in Hc. subst c. now apply Hn.
Qed.

Lemma lower_changes_upper (s : str) : has_upper s = true -> lower s <> s.
Proof.
  induction s as [|c s IH]; cbn [has_upper existsb lower List.map];
    [discriminate|].
  intros H E. injection E as Ec Es. apply orb_prop in H as [H|H].
  - unfold lower_char in Ec. rewrite H in Ec. lia.
  - now apply IH.
Qed.

Lemma last_cons_cons {A} (x y : A) (l : list A) (d : A) :
  last (x :: y :: l) d = last (y :: l) d.
Proof. reflexivity. Qed.

(** The name unmount puts together from the first segment and the
    lowercased last segment differs from the original whenever the original
    has no dot or has an uppercase letter in its last segment. *)
Lemma restored_name_differs (fname : str) :
  ~ In 46 fname \/ has_upper (last (split 46 fname) []) = true ->
  hd [] (split 46 fname) ++ lit "." ++ lower (last (split 46 fname) []) <> fname.
Proof.
  change (lit ".") with [46]. intros [Hn|Hu] E.
  - rewrite (split_without _ _ Hn) in E. cbn [hd last] in E.
    apply (f_equal (@List.length N)) in E.
    rewrite !length_app, lower_length in E. cbn [List.length] in E. lia.
  - pose proof (split_segments 46 fname) as Hs.
    assert (Hb : ~ In 46 (hd [] (split 46 fname))).
    { apply (hd_Forall (fun seg => ~ In 46 seg)); [intros []|exact Hs]. }
    assert (Hl : ~ In 46 (last (split 46 fname) [])).
    { apply (last_Forall (fun seg => ~ In 46 seg)); [intros []|exact Hs]. }
    apply (f_equal (fun s => last (split 46 s) [])) in E.
    cbn [app] in E. rewrite (split_app _ _ _ Hb) in E.
    rewrite (split_without _ _ (lower_without_dot _ Hl)) in E.
    cbn [last] in E. now apply (lower_changes_upper _ Hu).
Qed.

Lemma join_snoc (sep : str) (l : list str) (x : str) :
  l <> [] -> join sep (l ++ [x]) = join sep l ++ sep ++ x.
Proof.
  induction l as [|y l IH]; intros Hl; [now elim Hl|].
  destruct l as [|z l]; [reflexivity|].
  change (join sep ((y :: z :: l) ++ [x]))
    with (y ++ sep ++ join sep ((z :: l) ++ [x])).
  rewrite IH by discriminate.
  change (join sep (y :: z :: l)) with (y ++ sep ++ join sep (z :: l)).
  now rewrite <- !app_assoc.
Qed.

(** The last segment is what follows the last dot. *)
Lemma last_segment_after_last_dot (fname : str) :
  In 46 fname ->
  exists front,
    fname = front ++ lit "." ++ last (split 46 fname) []
    /\ ~ In 46 (last (split 46 fname) []).
Proof.
  intros Hin. pose proof (split_join 46 fname) as Hj.
  pose proof (split_segments 46 fname) as Hs.
  pose proof (split_not_nil 46 fname) as Hn.
  remember (split 46 fname) as segs eqn:Esegs. clear Esegs.
  assert (Hl : ~ In 46 (last segs [])).
  { apply (last_Forall (fun seg => ~ In 46 seg)); [intros []|exact Hs]. }
  pose proof (app_removelast_last [] Hn) as E.
  pose proof Hj as Hj'. rewrite E in Hj'. clear E. unfold str in *.
  destruct (removelast segs) as [|y r].
  - exfalso. cbn [app join] in Hj'. rewrite Hj' in Hl. now apply Hl.
  - exists (join [46] (y :: r)). split; [|exact Hl].
    rewrite join_snoc in Hj' by discriminate. now rewrite <- Hj'.
Qed.

(** C10: for a file whose name and drawn identifier are ASCII, mounted
    with [--use_index]: the extension mount encrypts is the last
    dot-separated segment of the name, what follows its last dot, in
    lowercase, which is the whole name in lowercase when the name has no
    dot; mount returns a name; unmount
    with [--use_index] decodes from it the first segment as file name and
    that lowercase extension, keeps the decoded file name, and renames to
    the first segment, a dot and the lowercase extension. That differs from
    the original name whenever the original has no dot or has an uppercase
    letter in its last segment. *)
Theorem extension_is_restored_in_lowercase
    (e : os.DirEntry) (uuid : str) (h : bool) :
  os.is_dir e = false -> is_ascii (os.name e) = true -> is_ascii uuid = true ->
  let fname := os.name e in
  let base := hd [] (split 46 fname) in
  let extension := lower (last (split 46 fname) []) in
  extension_of (Mount.encode_file e) = extension
  /\ (In 46 fname ->
      exists front,
        fname = front ++ lit "." ++ last (split 46 fname) []
        /\ ~ In 46 (last (split 46 fname) []))
  /\ (~ In 46 fname -> extension = lower fname)
  /\ (exists token, Mount.filename_of (Mount.encode_file e) uuid h true = Ok token)
  /\ (forall token e',
        Mount.filename_of (Mount.encode_file e) uuid h true = Ok token ->
        os.name e' = token -> os.is_dir e' = false ->
        Unmount.decoded_entry e' true = Ok (ceil (os.st_mtime e), extension, base)
        /\ (forall W `(Host W) (w : W),
              Unmount.pick_filename base true w = (base, w))
        /\ Unmount.new_filename_of e' extension base
           = Unmount.file_root_dir_of (os.path e') ++ [os.sep]
               ++ base ++ lit "." ++ extension)
  /\ (~ In 46 fname \/ has_upper (last (split 46 fname) []) = true ->
      base ++ lit "." ++ extension <> fname).
Proof.
  intros Hdir Hn Hu fname base extension.
  assert (Hmt : is_ascii (Mount.mtime (Mount.encode_file e)) = true)
    by apply lower_hex_ascii, mtime_lower_hex.
  assert (Hext : extension_of (Mount.encode_file e) = extension).
  { unfold extension_of. cbn [Mount.is_dir Mount.name Mount.encode_file].
    now rewrite Hdir. }
  split; [exact Hext|]. split; [apply last_segment_after_last_dot|].
  split; [|split; [|split]].
  - intros Hnd. unfold extension. now rewrite (split_without _ _ Hnd).
  - now apply filename_of_returns.
  - intros token e' Hf He' Hd'.
    pose proof (decode_file_ascii (Mount.encode_file e) uuid h true true token
                  Hu Hn Hmt Hf) as Hd.
    rewrite Hext in Hd. unfold embedded_name in Hd.
    cbn [Mount.is_dir Mount.name Mount.encode_file] in Hd. rewrite Hdir in Hd.
    rewrite <- He' in Hd. apply decoded_entry_of_decode in Hd.
    split; [exact Hd|]. split.
    + intros W HW w. unfold Unmount.pick_filename.
      now rewrite andb_false_r.
    + unfold Unmount.new_filename_of. now rewrite Hd'.
  - apply restored_name_differs.
Qed.

Lemma extension_is_restored_in_lowercase_witness :
  os.is_dir photo_entry = false /\ is_ascii (os.name photo_entry) = true
  /\ is_ascii (lit "6f1d2c3b-5a4e-4b7c-9d8e-000000000000") = true
  /\ extension_of (Mount.encode_file photo_entry) = lit "jpg"
  /\ lit "photo" ++ lit "." ++ lit "jpg" <> lit "photo.JPG".
Proof.
  do 3 (split; [reflexivity|]).
  destruct (extension_is_restored_in_lowercase photo_entry
              (lit "6f1d2c3b-5a4e-4b7c-9d8e-000000000000") false
              eq_refl eq_refl eq_refl) as (Hx & _ & _ & _ & _ & Hne).
  split; [exact Hx|]. apply Hne. right. reflexivity.
Defined.

(** ** Sorting *)

Section SortedFacts.
Context {A K : Type} (key : A -> K) (leb : K -> K -> bool).

Lemma insert_desc_Forall (P : A -> Prop) (x : A) (l : list A) :
  P x -> Forall P l -> Forall P (insert_desc key leb x l).
Proof.
  intros Hx. induction 1 as [|y l Hy Hl IH]; cbn [insert_desc].
  - now constructor.
  - destruct (leb (key y) (key x)); repeat constructor; assumption.
Qed.

Lemma sorted_desc_Forall (P : A -> Prop) (l : list A) :
  Forall P l -> Forall P (sorted_desc key leb l).
Proof.
  induction 1 as [|x l Hx Hl IH]; cbn [sorted_desc]; [constructor|].
  now apply insert_desc_Forall.
Qed.

Lemma insert_desc_In (x y : A) (l : list A) :
  In y (insert_desc key leb x l) <-> y = x \/ In y l.
Proof.
  induction l as [|z l IH]; cbn [insert_desc].
  - cbn. intuition congruence.
  - destruct (leb (key z) (key x)); cbn [In]; [intuition congruence|].
    rewrite IH. intuition congruence.
Qed.

Lemma sorted_desc_In (y : A) (l : list A) :
  In y (sorted_desc key leb l) <-> In y l.
Proof.
  induction l as [|x l IH]; cbn [sorted_desc]; [reflexivity|].
  rewrite insert_desc_In, IH. cbn. intuition congruence.
Qed.

(** Sorting the contributions paired with their keys is sorting the
    entries and then taking their contributions. *)
Lemma sorted_desc_pairs {B} (f : A -> B) (l : list A) :
  sorted_desc fst leb (List.map (fun c => (key c, f c)) l)
  = List.map (fun c => (key c, f c)) (sorted_desc key leb l).
Proof.
  induction l as [|x l IH]; cbn [sorted_desc List.map]; [reflexivity|].
  rewrite IH. generalize (sorted_desc key leb l). intros s.
  induction s as [|y s IHs]; cbn [insert_desc List.map fst]; [reflexivity|].
  destruct (leb (key y) (key x)); [reflexivity|]. now rewrite IHs.
Qed.
End SortedFacts.

Lemma insert_desc_descending {A} (key : A -> nat) (x : A) (l : list A) :
  descending (List.map key l) ->
  descending (List.map key (insert_desc key Nat.leb x l)).
Proof.
  induction l as [|y l IH]; cbn [insert_desc List.map descending].
  - intros _. split; [constructor|exact I].
  - intros [Hy Hl]. destruct (Nat.leb_spec (key y) (key x)) as [L|L];
      cbn [List.map descending].
    + split; [|split; assumption]. constructor; [exact L|].
      eapply Forall_impl; [|exact Hy]. cbn. intros b Hb. lia.
    + split; [|now apply IH].
      apply Forall_map. apply insert_desc_Forall; [lia|].
      now apply Forall_map in Hy.
Qed.

Lemma sorted_desc_descending {A} (key : A -> nat) (l : list A) :
  descending (List.map key (sorted_desc key Nat.leb l)).
Proof.
  induction l as [|x l IH]; cbn [sorted_desc]; [exact I|].
  now apply insert_desc_descending.
Qed.

Lemma descending_app (l : list nat) (a : nat) :
  descending l -> Forall (fun b => (a <= b)%nat) l -> descending (l ++ [a]).
Proof.
  induction l as [|x l IH]; cbn [app descending].
  - intros _ _. split; [constructor|exact I].
  - intros [Hx Hl] Ha. inversion Ha as [|? ? Hax Hal]; subst. split.
    + apply Forall_app. split; [exact Hx|]. now repeat constructor.
    + now apply IH.
Qed.

Lemma descending_longer_first (l : list nat) : descending l -> longer_first l.
Proof.
  induction l as [|x l IH]; intros Hd i j a b Hij Hi Hj.
  - destruct i; discriminate.
  - destruct Hd as [Hx Hl]. destruct j as [|j]; [lia|]. cbn in Hj.
    destruct i as [|i].
    + cbn in Hi. injection Hi as <-. apply nth_error_In in Hj.
      rewrite Forall_forall in Hx. now apply Hx.
    + cbn in Hi. apply (IH Hl i j); [lia|assumption..].
Qed.

(** ** Files before directories *)

Lemma files_first_app (fs ds : list bool) :
  Forall (fun b => b = false) fs -> Forall (fun b => b = true) ds ->
  files_first (fs ++ ds).
Proof.
  intros Hf Hd i j Hi Hj.
  destruct (Nat.lt_ge_cases j (List.length fs)) as [Lj|Lj].
  - destruct (Nat.lt_ge_cases i (List.length fs)) as [Li|Li]; [|lia].
    rewrite nth_error_app1 in Hi by exact Li. apply nth_error_In in Hi.
    rewrite Forall_forall in Hf. specialize (Hf _ Hi). discriminate.
  - rewrite nth_error_app2 in Hj by exact Lj. apply nth_error_In in Hj.
    rewrite Forall_forall in Hd. specialize (Hd _ Hj). discriminate.
Qed.

Lemma filter_flags {A} (f : A -> bool) (l : list A) :
  Forall (fun b => b = true) (List.map f (filter f l))
  /\ Forall (fun b => b = false) (List.map f (filter (fun x => negb (f x)) l)).
Proof.
  split; apply Forall_map, Forall_forall; intros x Hx;
    apply filter_In in Hx as [_ Hx]; [exact Hx|].
  now apply negb_true_iff in Hx.
Qed.

Lemma mount_separate_files_first (files : Mount.FILE_INFOS) :
  files_first (List.map Mount.is_dir (Mount.separate_file_and_directory files)).
Proof.
  unfold Mount.separate_file_and_directory. rewrite map_app.
  apply files_first_app.
  - apply (filter_flags Mount.is_dir).
  - apply Forall_map, sorted_desc_Forall.
    apply Forall_forall. intros x Hx. now apply filter_In in Hx.
Qed.

Lemma unmount_separate_files_first (files : Unmount.FILE_INFOS) :
  files_first (List.map os.is_dir (Unmount.separate_file_and_directory files)).
Proof.
  unfold Unmount.separate_file_and_directory. rewrite map_app.
  apply files_first_app.
  - apply (filter_flags os.is_dir).
  - apply Forall_map, sorted_desc_Forall.
    apply Forall_forall. intros x Hx. now apply filter_In in Hx.
Qed.

(** On mount the orchestrator receives the separated list followed by the
    descriptor of the root directory: files first. *)
Lemma mount_files_first (EXCLUDED_FILES ALLOWED_SUFFIX : list str)
    (order_by_timestamp recursive : bool) (root_directory : str)
    (root_mtime : Q) (dirs : list os.fsnode) :
  files_first
    (List.map Mount.is_dir
       (Mount.files_of_main EXCLUDED_FILES ALLOWED_SUFFIX order_by_timestamp
          recursive root_directory root_mtime dirs)).
Proof.
  unfold Mount.files_of_main, Mount.get_files, Mount.separate_file_and_directory.
  rewrite <- app_assoc, map_app. apply files_first_app.
  - apply (filter_flags Mount.is_dir).
  - rewrite map_app. apply Forall_app. split; [|repeat constructor].
    apply Forall_map, sorted_desc_Forall.
    apply Forall_forall. intros x Hx. now apply filter_In in Hx.
Qed.

(** ** The walker of mount *)

Lemma fsnode_tree_ind (P : os.fsnode -> Prop) :
  (forall nm mt, P (os.FsFile nm mt)) ->
  (forall nm mt ch, Forall P ch -> P (os.FsDir nm mt ch)) ->
  forall n, P n.
Proof.
  intros HF HD. fix IH 1. intros [nm mt|nm mt ch].
  - apply HF.
  - apply HD. induction ch as [|c ch IHch]; constructor; [apply IH|exact IHch].
Qed.

Lemma mount_separate_Forall (P : Mount.file_info -> Prop) (l : Mount.FILE_INFOS) :
  Forall P l -> Forall P (Mount.separate_file_and_directory l).
Proof.
  intros H. unfold Mount.separate_file_and_directory. apply Forall_app. split.
  - apply Forall_forall. intros x Hx. apply filter_In in Hx as [Hx _].
    rewrite Forall_forall in H. now apply H.
  - apply sorted_desc_Forall. apply Forall_forall. intros x Hx.
    apply filter_In in Hx as [Hx _]. rewrite Forall_forall in H. now apply H.
Qed.

Lemma scan_order_Forall {B} (ob : bool) (P : B -> Prop) (l : list (Q * B)) :
  Forall (fun pr => P (snd pr)) l -> Forall P (Mount.scan_order ob l).
Proof.
  intros H. unfold Mount.scan_order. apply Forall_map.
  destruct ob; [now apply sorted_desc_Forall|exact H].
Qed.

(** A property of descriptors that holds for every directory and for every
    entry with an allowed suffix, and that is inherited from a subdirectory,
    holds throughout the result of the walk. *)
Lemma mount_scan_Forall (P : str -> Mount.file_info -> Prop)
    (EX AL : list str) (ob rec : bool) :
  (forall p n, os.node_is_dir n = true ->
     P p (Mount.encode_file (os.entry p n))) ->
  (forall p n, endswith_any (os.node_name n) AL = true ->
     P p (Mount.encode_file (os.entry p n))) ->
  (forall p nm f, P (os.join_path p nm) f -> P p f) ->
  forall n p, Forall (P p) (Mount.scan EX AL ob rec p n).
Proof.
  intros Hdir Hsuf Hsub.
  induction n as [nm mt|nm mt ch IH] using fsnode_tree_ind; intros p.
  - cbn [Mount.scan os.entry os.is_dir os.node_is_dir os.name os.node_name andb app].
    destruct (endswith_any nm AL) eqn:E; cbn [negb]; [|constructor].
    repeat constructor. now apply (Hsuf p (os.FsFile nm mt)).
  - cbn [Mount.scan os.entry os.is_dir os.node_is_dir os.name os.node_name
           os.path andb].
    destruct (contains EX nm); [constructor|].
    apply Forall_app. split.
    + destruct rec; [|constructor]. constructor.
      * now apply (Hdir p (os.FsDir nm mt ch)).
      * apply mount_separate_Forall, Forall_concat, scan_order_Forall.
        apply Forall_map. cbn [snd].
        eapply Forall_impl; [|exact IH]. cbn. intros c Hc.
        eapply Forall_impl; [|apply Hc]. intros f. apply Hsub.
    + destruct (endswith_any nm AL) eqn:E; cbn [negb]; [|constructor].
      repeat constructor. now apply (Hsuf p (os.FsDir nm mt ch)).
Qed.

Lemma mount_get_files_Forall (P : str -> Mount.file_info -> Prop)
    (EX AL : list str) (ob rec : bool) :
  (forall p n, os.node_is_dir n = true ->
     P p (Mount.encode_file (os.entry p n))) ->
  (forall p n, endswith_any (os.node_name n) AL = true ->
     P p (Mount.encode_file (os.entry p n))) ->
  (forall p nm f, P (os.join_path p nm) f -> P p f) ->
  forall dirs p, Forall (P p) (Mount.get_files EX AL ob rec p dirs).
Proof.
  intros Hdir Hsuf Hsub dirs p. unfold Mount.get_files.
  apply mount_separate_Forall, Forall_concat, scan_order_Forall, Forall_map.
  cbn [snd]. apply Forall_forall. intros c _.
  now apply mount_scan_Forall.
Qed.

(** The loop of [get_files] visits the entries in scan order. *)
Lemma get_files_visits_in_order (EX AL : list str) (ob rec : bool)
    (dir_path : str) (dirs : list os.fsnode) :
  Mount.get_files EX AL ob rec dir_path dirs
  = Mount.separate_file_and_directory
      (flat_map (Mount.scan EX AL ob rec dir_path)
         (if ob then sorted_desc os.node_mtime Qle_bool dirs else dirs)).
Proof.
  unfold Mount.get_files, Mount.scan_order. f_equal.
  rewrite flat_map_concat_map. f_equal. destruct ob.
  - rewrite (sorted_desc_pairs os.node_mtime Qle_bool). now rewrite map_map.
  - now rewrite map_map.
Qed.

(** With an empty allow-list, [endswith] of the empty tuple is false for
    every name: the walker of mount returns directories only, and nothing
    at all when it does not recurse. *)
Lemma mount_empty_allow_list_keeps_no_file (EX : list str) (ob rec : bool)
    (dir_path : str) (dirs : list os.fsnode) :
  Forall (fun f => Mount.is_dir f = true)
    (Mount.get_files EX [] ob rec dir_path dirs).
Proof.
  apply (mount_get_files_Forall (fun _ f => Mount.is_dir f = true)).
  - intros p n Hn. exact Hn.
  - intros p n Hn. discriminate.
  - intros p nm f Hf. exact Hf.
Qed.

(** ** C2 *)

(** C2, the code at the failing input: with no [--include] the allow-list
    is the empty tuple, [name.endswith(())] is false and the loop skips the
    entry. Mounting [c:\data], which holds the single file [report.txt],
    with no flags: the walker returns nothing, the orchestrator receives
    the root descriptor only, the one rename made is that of the root
    directory, and the file is still called [report.txt], which is not a
    three-field token. *)
Theorem mount_without_include_skips_report_txt :
  endswith_any (lit "report.txt") [] = false
  /\ Mount.get_files [] [] false false (lit "c:\data") tree_report = []
  /\ Mount.files_of_main [] [] false false (lit "c:\data") (1700000000 # 1)
       tree_report
     = [Mount.root_dir (lit "c:\data") (1700000000 # 1)]
  /\ is_token3 (lit "report.txt") = false
  /\ exists w new_root,
       Mount.main [] [] false false false false (lit "c:\data")
         (1700000000 # 1) tree_report
         (Sim.init [lit "c:\data"; lit "c:\data\report.txt"]) = Ok w
       /\ Sim.journal w = [Sim.Renamed (lit "c:\data") new_root]
       /\ Sim.paths w = [new_root; new_root ++ lit "\report.txt"].
Proof.
  split; [reflexivity|]. split; [reflexivity|]. split; [reflexivity|].
  split; [reflexivity|].
  eexists. eexists. split; [vm_compute; reflexivity|].
  split; vm_compute; reflexivity.
Qed.

Example mount_with_include_keeps_report_txt :
  Mount.get_files [] [lit "txt"] false false (lit "c:\data") tree_report
  = [Mount.encode_file (os.entry (lit "c:\data")
                          (os.FsFile (lit "report.txt") (1700000000 # 1)))].
Proof. reflexivity. Qed.

(** A name built by mount without an embedded name is a three-field
    token. *)
Lemma filename_of_token3 (file : Mount.file_info) (uuid : str) (h i : bool)
    (token : str) :
  embedded_name file h i = None ->
  Mount.filename_of file uuid h i = Ok token -> is_token3 token = true.
Proof.
  intros Hn H. apply filename_of_fields in H.
  destruct H as (he & hk & hm & extra & He & Hk & Hm & Hs & Hx).
  rewrite Hn in Hx. subst extra. unfold is_token3. rewrite Hs.
  destruct (encrypt_lower_hex _ _ _ He) as [-> _].
  destruct (encrypt_lower_hex _ _ _ Hk) as [-> _].
  destruct (encrypt_lower_hex _ _ _ Hm) as [-> _]. reflexivity.
Qed.

(** With [--include txt] the same directory is mounted as the scenario of
    the specification describes: the file is renamed to a three-field
    token, then the root directory is renamed. *)
Example mount_with_include_renames_report_txt :
  exists w token new_root,
    Mount.main [] [lit "txt"] false false false false (lit "c:\data")
      (1700000000 # 1) tree_report
      (Sim.init [lit "c:\data"; lit "c:\data\report.txt"]) = Ok w
    /\ Sim.journal w
       = [Sim.Renamed (lit "c:\data\report.txt") (lit "c:\data\" ++ token);
          Sim.Renamed (lit "c:\data") new_root]
    /\ is_token3 token = true.
Proof.
  do 3 eexists. split; [vm_compute; reflexivity|].
  split; vm_compute; reflexivity.
Qed.

(** ** C3 *)

(** C3, the code at the failing input: [__main__] of unmount computes the
    separated list and hands the unseparated one to [change_file_names].
    Unmounting [c:\data] when [os.scandir] lists a (mounted) directory in
    front of a (mounted) file: the list the orchestrator receives has the
    directory at index 0 and the file at index 1, the separated list would
    have had the file first, and the run writes and renames the directory
    before it touches the file. *)
Theorem unmount_handles_directory_before_file :
  List.map os.is_dir
    (Unmount.files_of_main [] false (lit "c:\data") tree_dir_then_file)
  = [true; false]
  /\ ~ files_first
         (List.map os.is_dir
            (Unmount.files_of_main [] false (lit "c:\data") tree_dir_then_file))
  /\ List.map os.is_dir
       (Unmount.separate_file_and_directory
          (Unmount.files_of_main [] false (lit "c:\data") tree_dir_then_file))
     = [false; true]
  /\ exists w,
       Unmount.main [] false false false (lit "c:\data") tree_dir_then_file
         (Sim.init [lit "c:\data"; lit "c:\data\" ++ mounted_a;
                    lit "c:\data\" ++ sample_token])
       = Ok (w, [])
       /\ List.map Sim.touched (Sim.journal w)
          = [lit "c:\data\" ++ mounted_a; lit "c:\data\" ++ mounted_a;
             lit "c:\data\" ++ sample_token; lit "c:\data\" ++ sample_token]
       /\ Sim.paths w
          = [lit "c:\data"; lit "c:\data\a"; lit "c:\data\report.txt"].
Proof.
  split; [reflexivity|]. split; [|split; [reflexivity|]].
  - intros H. specialize (H 0%nat 1%nat eq_refl eq_refl). lia.
  - eexists. split; [vm_compute; reflexivity|].
    split; vm_compute; reflexivity.
Qed.

(** ** C5 *)

(** C5, the code at the failing input: the list unmount hands to
    [change_file_names] is in the order of the walk, not sorted by path
    length. Unmounting [c:\data] recursively when [os.scandir] lists the
    (mounted) directory [a] in front of the (mounted) directory [bb], whose
    path is two characters longer: the shorter path comes first in the list
    the orchestrator receives, the separated list would have had the longer
    one first, and the run handles the shorter one first. *)
Theorem unmount_handles_shorter_directory_first :
  List.map (fun e => (os.is_dir e, List.length (os.path e)))
    (Unmount.files_of_main [] true (lit "c:\data") tree_two_dirs)
  = [(true, 93%nat); (true, 95%nat)]
  /\ ~ longer_first
         (List.map (fun e => List.length (os.path e))
            (filter os.is_dir
               (Unmount.files_of_main [] true (lit "c:\data") tree_two_dirs)))
  /\ List.map (fun e => List.length (os.path e))
       (Unmount.separate_file_and_directory
          (Unmount.files_of_main [] true (lit "c:\data") tree_two_dirs))
     = [95%nat; 93%nat]
  /\ exists w,
       Unmount.main [] false true false (lit "c:\data") tree_two_dirs
         (Sim.init [lit "c:\data"; lit "c:\data\" ++ mounted_a;
                    lit "c:\data\" ++ mounted_bb])
       = Ok (w, [])
       /\ List.map Sim.touched (Sim.journal w)
          = [lit "c:\data\" ++ mounted_a; lit "c:\data\" ++ mounted_a;
             lit "c:\data\" ++ mounted_bb; lit "c:\data\" ++ mounted_bb]
       /\ Sim.paths w = [lit "c:\data"; lit "c:\data\a"; lit "c:\data\bb"].
Proof.
  split; [reflexivity|]. split; [|split; [reflexivity|]].
  - intros H.
    specialize (H 0%nat 1%nat 93%nat 95%nat (Nat.lt_0_succ 0) eq_refl eq_refl).
    lia.
  - eexists. split; [vm_compute; reflexivity|].
    split; vm_compute; reflexivity.
Qed.

(** What holds of the two walks. On unmount a directory comes right after
    everything the walk found beneath it. *)
Lemma unmount_scan_postorder (EX : list str) (dir_path nm : str) (mt : Q)
    (children : list os.fsnode) :
  contains EX nm = false ->
  Unmount.scan EX true dir_path (os.FsDir nm mt children)
  = Unmount.get_files EX true (os.join_path dir_path nm) children
    ++ [os.entry dir_path (os.FsDir nm mt children)].
Proof.
  intros H. cbn [Unmount.scan os.entry os.is_dir os.name os.path os.node_name
                   os.node_is_dir andb].
  now rewrite H.
Qed.

Lemma join_path_length (dir_path nm : str) :
  (List.length dir_path <= List.length (os.join_path dir_path nm))%nat.
Proof.
  unfold os.join_path. destruct (rev dir_path) as [|c r] eqn:E.
  - apply (f_equal (@List.length N)) in E. rewrite length_rev in E.
    cbn in E. lia.
  - destruct ((c =? os.sep) || (c =? 47) || (c =? 58));
      rewrite !length_app; lia.
Qed.

(** Every descriptor of the walk of mount has a path at least as long as
    the directory the walk started from. *)
Lemma mount_paths_not_shorter (EX AL : list str) (ob rec : bool)
    (dir_path : str) (dirs : list os.fsnode) :
  Forall (fun f => (List.length dir_path <= List.length (Mount.root f))%nat)
    (Mount.get_files EX AL ob rec dir_path dirs).
Proof.
  apply (mount_get_files_Forall
           (fun p f => (List.length p <= List.length (Mount.root f))%nat)).
  - intros p n _. apply join_path_length.
  - intros p n _. apply join_path_length.
  - intros p nm f Hf. pose proof (join_path_length p nm). lia.
Qed.

Lemma filter_all {A} (f : A -> bool) (l : list A) :
  Forall (fun x => f x = true) l -> filter f l = l.
Proof.
  induction 1 as [|x l Hx _ IH]; cbn [filter]; [reflexivity|].
  now rewrite Hx, IH.
Qed.

Lemma filter_none {A} (f : A -> bool) (l : list A) :
  Forall (fun x => f x = false) l -> filter f l = [].
Proof.
  induction 1 as [|x l Hx _ IH]; cbn [filter]; [reflexivity|].
  now rewrite Hx.
Qed.

(** The directories of the list mount hands to [change_file_names]. *)
Lemma mount_directories (EX AL : list str) (ob rec : bool)
    (root_directory : str) (root_mtime : Q) (dirs : list os.fsnode) :
  exists walked,
    Mount.get_files EX AL ob rec root_directory dirs
    = Mount.separate_file_and_directory walked
    /\ filter Mount.is_dir
         (Mount.files_of_main EX AL ob rec root_directory root_mtime dirs)
       = sorted_desc (fun d => List.length (Mount.root d)) Nat.leb
           (filter Mount.is_dir walked)
         ++ [Mount.root_dir root_directory root_mtime].
Proof.
  eexists. split; [reflexivity|].
  unfold Mount.files_of_main, Mount.get_files, Mount.separate_file_and_directory.
  rewrite !filter_app. cbn [filter Mount.is_dir Mount.root_dir].
  rewrite filter_none, filter_all; [reflexivity| |].
  - apply sorted_desc_Forall, Forall_forall. intros x Hx.
    now apply filter_In in Hx.
  - apply Forall_forall. intros x Hx. apply filter_In in Hx as [_ Hx].
    now apply negb_true_iff in Hx.
Qed.

(** On mount the directories are handed over longer paths first, the root
    directory last. *)
Lemma mount_longer_first (EX AL : list str) (ob rec : bool)
    (root_directory : str) (root_mtime : Q) (dirs : list os.fsnode) :
  longer_first
    (List.map (fun f => List.length (Mount.root f))
       (filter Mount.is_dir
          (Mount.files_of_main EX AL ob rec root_directory root_mtime dirs))).
Proof.
  destruct (mount_directories EX AL ob rec root_directory root_mtime dirs)
    as (walked & Hw & ->).
  apply descending_longer_first. rewrite map_app.
  apply descending_app; [apply sorted_desc_descending|].
  apply Forall_map.
  pose proof (mount_paths_not_shorter EX AL ob rec root_directory dirs) as Hp.
  rewrite Hw in Hp. unfold Mount.separate_file_and_directory in Hp.
  apply Forall_app in Hp as [_ Hp]. exact Hp.
Qed.

Lemma below_longer (parent child : str) :
  below parent child -> (List.length parent < List.length child)%nat.
Proof. intros [rest ->]. rewrite !length_app. cbn [List.length]. lia. Qed.

(** The list mount hands to [change_file_names]: files, then directories
    in descending order of path length. *)
Lemma mount_shape (EX AL : list str) (ob rec : bool)
    (root_directory : str) (root_mtime : Q) (dirs : list os.fsnode) :
  exists fs ds,
    Mount.files_of_main EX AL ob rec root_directory root_mtime dirs = fs ++ ds
    /\ Forall (fun f => Mount.is_dir f = false) fs
    /\ Forall (fun f => Mount.is_dir f = true) ds
    /\ descending (List.map (fun f => List.length (Mount.root f)) ds).
Proof.
  pose proof (mount_paths_not_shorter EX AL ob rec root_directory dirs) as Hp.
  unfold Mount.files_of_main, Mount.get_files in *.
  unfold Mount.separate_file_and_directory in *.
  rewrite <- app_assoc. do 2 eexists. split; [reflexivity|].
  apply Forall_app in Hp as [_ Hp]. split; [|split].
  - apply Forall_forall. intros x Hx. apply filter_In in Hx as [_ Hx].
    now apply negb_true_iff in Hx.
  - apply Forall_app. split; [|repeat constructor].
    apply sorted_desc_Forall, Forall_forall. intros x Hx.
    now apply filter_In in Hx.
  - rewrite map_app. apply descending_app; [apply sorted_desc_descending|].
    apply Forall_map. exact Hp.
Qed.

(** On mount no directory is handed over before a descriptor whose path
    lies below it. *)
Lemma mount_descendants_first (EX AL : list str) (ob rec : bool)
    (root_directory : str) (root_mtime : Q) (dirs : list os.fsnode)
    (i j : nat) (d x : Mount.file_info) :
  let files := Mount.files_of_main EX AL ob rec root_directory root_mtime dirs in
  nth_error files i = Some d -> Mount.is_dir d = true ->
  nth_error files j = Some x -> below (Mount.root d) (Mount.root x) ->
  (j < i)%nat.
Proof.
  intros files Hi Hd Hj Hb. apply below_longer in Hb.
  destruct (mount_shape EX AL ob rec root_directory root_mtime dirs)
    as (fs & ds & E & Hfs & Hds & Hdesc).
  subst files. rewrite E in Hi, Hj.
  destruct (Nat.lt_ge_cases i (List.length fs)) as [Li|Li].
  { rewrite nth_error_app1 in Hi by exact Li. apply nth_error_In in Hi.
    rewrite Forall_forall in Hfs. rewrite (Hfs _ Hi) in Hd. discriminate. }
  destruct (Nat.lt_ge_cases j (List.length fs)) as [Lj|Lj]; [lia|].
  rewrite nth_error_app2 in Hi, Hj by assumption.
  destruct (Nat.lt_ge_cases j i) as [L|L]; [exact L|exfalso].
  destruct (Nat.eq_dec i j) as [->|Ne].
  - rewrite Hi in Hj. injection Hj as ->. lia.
  - pose proof (descending_longer_first _ Hdesc
                  (i - List.length fs)%nat (j - List.length fs)%nat
                  (List.length (Mount.root d)) (List.length (Mount.root x)))
      as Hl.
    assert ((List.length (Mount.root x) <= List.length (Mount.root d))%nat);
      [|lia].
    apply Hl; [lia| |];
      now apply (map_nth_error (fun f => List.length (Mount.root f))).
Qed.

(** * Further properties of the code *)

(** ** Reading hexadecimal text *)

Lemma fromhex_ind2 (P : str -> Prop) :
  P [] ->
  (forall c s, is_space c = true -> P s -> P (c :: s)) ->
  (forall c, is_space c = false -> P [c]) ->
  (forall c d s, is_space c = false -> P s -> P (c :: d :: s)) ->
  forall s, P s.
Proof.
  intros H0 Hsp H1 H2.
  assert (G : forall n s, (List.length s <= n)%nat -> P s).
  { induction n as [|n IH]; intros s Hl.
    - destruct s; [exact H0|cbn in Hl; lia].
    - destruct s as [|c s]; [exact H0|].
      destruct (is_space c) eqn:E.
      + apply Hsp; [exact E|]. apply IH. cbn in Hl. lia.
      + destruct s as [|d s]; [now apply H1|].
        apply H2; [exact E|]. apply IH. cbn in Hl. lia. }
  intros s. now apply (G (List.length s)).
Qed.

Lemma hex_value_bound (c v : N) : hex_value c = Some v -> v < 16 /\ c < 128.
Proof.
  unfold hex_value, in_range.
  destruct (N.leb_spec 48 c), (N.leb_spec c 57), (N.leb_spec 97 c),
    (N.leb_spec c 102), (N.leb_spec 65 c), (N.leb_spec c 70);
    cbn [andb]; intros [= <-]; lia.
Qed.

Lemma is_space_ascii (c : N) : is_space c = true -> c < 128.
Proof.
  unfold is_space, in_range.
  destruct (N.leb_spec 9 c), (N.leb_spec c 13), (N.eqb_spec c 32);
    cbn [andb orb]; intros; try discriminate; lia.
Qed.

Lemma fromhex_cons_space (c : N) (s : str) :
  is_space c = true -> fromhex (c :: s) = fromhex s.
Proof. intros H. cbn [fromhex]. now rewrite H. Qed.

Lemma fromhex_pair (c d : N) (s : str) :
  is_space c = false ->
  fromhex (c :: d :: s)
  = match hex_value c, hex_value d with
    | Some top, Some bot => bs <- fromhex s ;; Ok ((top * 16 + bot) :: bs)
    | _, _ => Raise ValueError
    end.
Proof. intros H. cbn [fromhex]. now rewrite H. Qed.

(** What [fromhex] returns is a list of bytes, and what it reads is ASCII. *)
Lemma fromhex_facts (s : str) (b : bytes) :
  fromhex s = Ok b -> byte_list b /\ is_ascii s = true.
Proof.
  revert b. induction s as [|c s Hc IH|c Hc|c d s Hc IH] using fromhex_ind2;
    intros b H.
  - injection H as <-. split; [constructor|reflexivity].
  - rewrite (fromhex_cons_space _ _ Hc) in H. destruct (IH _ H) as [Hb Ha].
    split; [exact Hb|]. cbn [is_ascii forallb].
    apply is_space_ascii in Hc. apply N.ltb_lt in Hc. now rewrite Hc.
  - cbn [fromhex] in H. rewrite Hc in H. discriminate.
  - rewrite (fromhex_pair _ _ _ Hc) in H.
    destruct (hex_value c) as [top|] eqn:Et; [|discriminate].
    destruct (hex_value d) as [bot|] eqn:Eb; [|discriminate].
    destruct (fromhex s) as [bs|] eqn:Es; [|discriminate].
    cbn [bind] in H. injection H as <-.
    destruct (IH _ eq_refl) as [Hb Ha].
    destruct (hex_value_bound _ _ Et) as [Ht Hct].
    destruct (hex_value_bound _ _ Eb) as [Hbt Hcd].
    split.
    + constructor; [lia|exact Hb].
    + cbn [is_ascii forallb]. apply N.ltb_lt in Hct, Hcd.
      now rewrite Hct, Hcd.
Qed.

Lemma lower_hex_digit_value (c : N) :
  is_lower_hex_digit c = true ->
  is_space c = false
  /\ exists v, hex_value c = Some v /\ v < 16 /\ hex_digit v = c.
Proof.
  unfold is_lower_hex_digit, is_space, hex_value, hex_digit, in_range.
  intros H.
  destruct (N.leb_spec 48 c), (N.leb_spec c 57), (N.leb_spec 97 c),
    (N.leb_spec c 102); cbn [andb orb] in H |- *; try discriminate.
  all: split;
    [ destruct (N.leb_spec 9 c), (N.leb_spec c 13), (N.eqb_spec c 32);
        cbn [andb orb]; try reflexivity; lia
    | eexists; split; [reflexivity|]; split; [lia|];
      match goal with
      | |- (if ?x <? 10 then _ else _) = _ =>
          destruct (N.ltb_spec x 10); lia
      end ].
Qed.

Lemma nibbles_of_pair (top bot : N) :
  top < 16 -> bot < 16 ->
  (top * 16 + bot) / 16 = top /\ (top * 16 + bot) mod 16 = bot.
Proof.
  intros Ht Hb. split.
  - rewrite N.div_add_l by lia. rewrite N.div_small by exact Hb. lia.
  - rewrite N.add_comm, N.Div0.mod_add. now apply N.mod_small.
Qed.

(** On lowercase hexadecimal text [hex] undoes [fromhex]. *)
Lemma hex_fromhex (s : str) (b : bytes) :
  is_lower_hex s = true -> fromhex s = Ok b -> hex b = s.
Proof.
  revert b. induction s as [|c s Hc IH|c Hc|c d s Hc IH] using fromhex_ind2;
    intros b Hl H.
  - now injection H as <-.
  - cbn [is_lower_hex forallb] in Hl. apply andb_prop in Hl as [Hl _].
    destruct (lower_hex_digit_value _ Hl) as [Hs _]. congruence.
  - cbn [fromhex] in H. rewrite Hc in H. discriminate.
  - cbn [is_lower_hex forallb] in Hl. apply andb_prop in Hl as [Hlc Hl].
    apply andb_prop in Hl as [Hld Hl].
    destruct (lower_hex_digit_value _ Hlc) as (_ & top & Et & Ht & Etc).
    destruct (lower_hex_digit_value _ Hld) as (_ & bot & Eb & Hb & Ebd).
    rewrite (fromhex_pair _ _ _ Hc), Et, Eb in H.
    destruct (fromhex s) as [bs|] eqn:Es; [|discriminate].
    cbn [bind] in H. injection H as <-.
    change (hex ((top * 16 + bot) :: bs))
      with (hex_digit ((top * 16 + bot) / 16)
              :: hex_digit ((top * 16 + bot) mod 16) :: hex bs).
    destruct (nibbles_of_pair top bot Ht Hb) as [-> ->].
    rewrite Etc, Ebd. f_equal. f_equal. now apply IH.
Qed.

Lemma decrypt_inv (k c p : str) :
  Cipher.decrypt k c = Ok p ->
  encodable k = true
  /\ exists b, fromhex c = Ok b
       /\ p = Cipher.xor_loop (SHA256.digest (utf8_bytes k)) 0 b.
Proof.
  unfold Cipher.decrypt, utf8_encode.
  destruct (encodable k); [|discriminate]. cbn [bind].
  destruct (fromhex c) as [b|]; [|discriminate]. cbn [bind].
  intros [= <-]. split; [reflexivity|]. now exists b.
Qed.

Lemma decrypt_output_bytes (k c p : str) :
  Cipher.decrypt k c = Ok p -> byte_list p.
Proof.
  intros H. apply decrypt_inv in H as (_ & b & Hb & ->).
  apply cipher_bytes. now apply fromhex_facts in Hb.
Qed.

(** ** X1 *)

(** X1: in the other direction, [encrypt] undoes [decrypt]: when the
    ciphertext is lowercase hexadecimal text and the plaintext [decrypt]
    returns for it is ASCII, encrypting that plaintext with the same key
    gives the ciphertext back. *)
Theorem encrypt_inverts_decrypt (k c p : str) :
  is_lower_hex c = true ->
  Cipher.decrypt k c = Ok p ->
  is_ascii p = true ->
  Cipher.encrypt k p = Ok c.
Proof.
  intros Hl Hd Hp. apply decrypt_inv in Hd as (Hk & b & Hb & ->).
  rewrite (encrypt_returns _ _ Hk (ascii_encodable _ Hp)).
  rewrite (utf8_bytes_ascii _ Hp), xor_loop_involutive.
  now rewrite (hex_fromhex _ _ Hl Hb).
Qed.

Lemma encrypt_inverts_decrypt_witness :
  is_lower_hex (lit "580895") = true
  /\ Cipher.decrypt (lit "key") (lit "580895") = Ok (lit "txt")
  /\ is_ascii (lit "txt") = true
  /\ Cipher.encrypt (lit "key") (lit "txt") = Ok (lit "580895").
Proof.
  assert (Hd : Cipher.decrypt (lit "key") (lit "580895") = Ok (lit "txt"))
    by (vm_compute; reflexivity).
  split; [reflexivity|]. split; [exact Hd|]. split; [reflexivity|].
  exact (encrypt_inverts_decrypt (lit "key") (lit "580895") (lit "txt")
           eq_refl Hd eq_refl).
Defined.

(** ** X2 *)

(** X2: whatever the key and the ciphertext, the text [decrypt] returns
    has one character per byte [fromhex] reads, every one of them a code
    point below 256; so it can always serve as a key in turn. *)
Theorem decrypt_output_is_latin1 (k c p : str) :
  Cipher.decrypt k c = Ok p ->
  byte_list p
  /\ encodable p = true
  /\ exists b, fromhex c = Ok b /\ List.length p = List.length b.
Proof.
  intros H. pose proof (decrypt_output_bytes _ _ _ H) as Hb.
  split; [exact Hb|]. split; [now apply bytes_encodable|].
  apply decrypt_inv in H as (_ & b & Hf & ->).
  exists b. split; [exact Hf|apply xor_loop_length].
Qed.

Lemma decrypt_output_is_latin1_witness :
  Cipher.decrypt (lit "other") (lit "58 08 95") = Ok [129; 33; 31]
  /\ byte_list [129; 33; 31]
  /\ encodable [129; 33; 31] = true.
Proof.
  assert (Hd : Cipher.decrypt (lit "other") (lit "58 08 95") = Ok [129; 33; 31])
    by (vm_compute; reflexivity).
  destruct (decrypt_output_is_latin1 _ _ _ Hd) as (Hb & He & _).
  split; [exact Hd|]. split; [exact Hb|exact He].
Defined.

(** ** X3 *)

(** X3: the flag [use_index_filename] makes no difference to what
    [decode_file] returns or raises, for any file name. *)
Theorem decode_file_ignores_use_index (filename : str) :
  Unmount.decode_file filename true = Unmount.decode_file filename false.
Proof.
  unfold Unmount.decode_file.
  destruct (split 45 filename) as [|hm [|he [|hk extra]]]; try reflexivity.
  destruct (Cipher.decrypt he hm) as [dmt|]; [|reflexivity]. cbn [bind].
  destruct (Cipher.decrypt dmt hk) as [dk|] eqn:Hk; [|reflexivity]. cbn [bind].
  destruct (Cipher.decrypt dk he) as [dx|]; [|reflexivity]. cbn [bind].
  destruct extra as [|x extra]; [|reflexivity].
  cbn [truthy orb join].
  rewrite (decrypt_nothing dk
             (bytes_encodable _ (decrypt_output_bytes _ _ _ Hk))).
  reflexivity.
Qed.

(** ** X4 *)

Lemma decrypt_total (k c : str) :
  encodable k = true -> returns (fromhex c) -> returns (Cipher.decrypt k c).
Proof.
  intros Hk [b Hb]. eexists. now apply decrypt_returns with (b := b).
Qed.

Lemma decrypt_reads (k c : str) :
  returns (Cipher.decrypt k c) -> returns (fromhex c).
Proof.
  intros [p Hp]. apply decrypt_inv in Hp as (_ & b & Hb & _). now exists b.
Qed.

(** X4: [decode_file] returns a triple exactly when the name has at least
    three dash-separated fields and [fromhex] can read the first three
    fields and the remaining fields put together; otherwise it raises. *)
Theorem decode_file_returns_iff (filename : str) (ui : bool) :
  returns (Unmount.decode_file filename ui)
  <-> exists hm he hk extra,
        split 45 filename = hm :: he :: hk :: extra
        /\ returns (fromhex hm) /\ returns (fromhex he)
        /\ returns (fromhex hk) /\ returns (fromhex (join [] extra)).
Proof.
  unfold Unmount.decode_file. split.
  - intros [r Hr].
    destruct (split 45 filename) as [|hm [|he [|hk extra]]]; try discriminate.
    exists hm, he, hk, extra. split; [reflexivity|].
    destruct (Cipher.decrypt he hm) as [dmt|] eqn:H1; [|discriminate].
    cbn [bind] in Hr.
    destruct (Cipher.decrypt dmt hk) as [dk|] eqn:H2; [|discriminate].
    cbn [bind] in Hr.
    destruct (Cipher.decrypt dk he) as [dx|] eqn:H3; [|discriminate].
    cbn [bind] in Hr.
    split; [apply (decrypt_reads he); now exists dmt|].
    split; [apply (decrypt_reads dk); now exists dx|].
    split; [apply (decrypt_reads dmt); now exists dk|].
    destruct extra as [|x extra]; [now exists []|].
    cbn [truthy orb] in Hr.
    destruct (Cipher.decrypt dk (join [] (x :: extra))) as [n|] eqn:H4;
      [|discriminate].
    apply (decrypt_reads dk). now exists n.
  - intros (hm & he & hk & extra & -> & Hm & He & Hk & Hx).
    assert (Hhe : encodable he = true).
    { destruct He as [b Hb]. apply fromhex_facts in Hb as [_ Ha].
      now apply ascii_encodable. }
    destruct (decrypt_total he hm Hhe Hm) as [dmt H1]. rewrite H1. cbn [bind].
    pose proof (bytes_encodable _ (decrypt_output_bytes _ _ _ H1)) as Hdmt.
    destruct (decrypt_total dmt hk Hdmt Hk) as [dk H2]. rewrite H2. cbn [bind].
    pose proof (bytes_encodable _ (decrypt_output_bytes _ _ _ H2)) as Hdk.
    destruct (decrypt_total dk he Hdk He) as [dx H3]. rewrite H3. cbn [bind].
    destruct (decrypt_total dk _ Hdk Hx) as [n H4].
    destruct (truthy extra || ui).
    + rewrite H4. cbn [bind]. eexists. reflexivity.
    + cbn [bind]. eexists. reflexivity.
Qed.

(** ** X5 *)

Lemma split_length (sep : N) (s : str) :
  List.length (split sep s) = S (count_occ N.eq_dec s sep).
Proof.
  induction s as [|c s IH]; [reflexivity|]. cbn [split count_occ].
  destruct (N.eqb_spec c sep) as [->|Hc].
  - destruct (N.eq_dec sep sep) as [_|Hn]; [|now elim Hn].
    cbn [List.length]. now rewrite IH.
  - destruct (N.eq_dec c sep) as [E|_]; [now elim Hc|].
    destruct (split sep s) as [|h t]; [discriminate IH|exact IH].
Qed.

(** X5: a name with fewer than two dashes, that is with fewer than three
    fields, makes [decode_file] raise [ValueError], whatever it holds. *)
Theorem decode_file_needs_three_fields (filename : str) (ui : bool) :
  (count_occ N.eq_dec filename 45%N < 2)%nat ->
  Unmount.decode_file filename ui = Raise ValueError.
Proof.
  intros H. pose proof (split_length 45 filename) as Hl.
  unfold Unmount.decode_file.
  destruct (split 45 filename) as [|hm [|he [|hk extra]]]; try reflexivity.
  cbn [List.length] in Hl. lia.
Qed.

Lemma decode_file_needs_three_fields_witness :
  (count_occ N.eq_dec (lit "report.txt") 45%N < 2)%nat
  /\ Unmount.decode_file (lit "report.txt") true = Raise ValueError.
Proof.
  assert (H : (count_occ N.eq_dec (lit "report.txt") 45%N < 2)%nat)
    by (vm_compute; lia).
  split; [exact H|].
  exact (decode_file_needs_three_fields (lit "report.txt") true H).
Defined.

(** ** X6 *)

Lemma join_nil_no_sep (sep : N) (l : list str) :
  Forall (fun seg => ~ In sep seg) l -> ~ In sep (join [] l).
Proof.
  induction 1 as [|x l Hx Hl IH]; [intros []|].
  destruct l as [|y l]; [exact Hx|].
  change (join [] (x :: y :: l)) with (x ++ [] ++ join [] (y :: l)).
  cbn [app]. intros Hin. apply in_app_or in Hin as [Hin|Hin]; tauto.
Qed.

(** X6: the dashes after the third field carry no information: a name
    with five or more fields decodes exactly as the name in which the
    fields after the third are run together into one. *)
Theorem decode_file_joins_trailing_fields
    (filename hm he hk x : str) (extra : list str) (ui : bool) :
  split 45 filename = hm :: he :: hk :: x :: extra ->
  Unmount.decode_file filename ui
  = Unmount.decode_file
      (hm ++ lit "-" ++ he ++ lit "-" ++ hk ++ lit "-" ++ join [] (x :: extra)) ui.
Proof.
  intros Hs. pose proof (split_segments 45 filename) as Hseg.
  rewrite Hs in Hseg.
  inversion Hseg as [|? ? Hm H1]; subst. inversion H1 as [|? ? He H2]; subst.
  inversion H2 as [|? ? Hk H3]; subst.
  assert (E : split 45 (hm ++ lit "-" ++ he ++ lit "-" ++ hk ++ lit "-"
                          ++ join [] (x :: extra))
              = [hm; he; hk; join [] (x :: extra)]).
  { change (lit "-") with [45]. cbn [app].
    rewrite (split_app _ _ _ Hm), (split_app _ _ _ He), (split_app _ _ _ Hk).
    now rewrite (split_without _ _ (join_nil_no_sep _ _ H3)). }
  unfold Unmount.decode_file. rewrite Hs, E. reflexivity.
Qed.

Lemma decode_file_joins_trailing_fields_witness :
  split 45 (lit "31-32-33-34-35")
  = [lit "31"; lit "32"; lit "33"; lit "34"; lit "35"]
  /\ Unmount.decode_file (lit "31-32-33-34-35") false
     = Unmount.decode_file (lit "31-32-33-3435") false.
Proof.
  split; [reflexivity|].
  exact (decode_file_joins_trailing_fields (lit "31-32-33-34-35")
           (lit "31") (lit "32") (lit "33") (lit "34") [lit "35"] false eq_refl).
Defined.

(** ** Names built by mount, seen by unmount *)

Lemma join_Forall (P : N -> Prop) (sep : N) (parts : list str) :
  P sep -> Forall (Forall P) parts -> Forall P (join [sep] parts).
Proof.
  intros Hsep. induction 1 as [|p parts Hp _ IH]; [constructor|].
  destruct parts as [|q parts]; [exact Hp|].
  change (join [sep] (p :: q :: parts)) with (p ++ [sep] ++ join [sep] (q :: parts)).
  apply Forall_app. split; [exact Hp|]. apply Forall_app. split; [|exact IH].
  now repeat constructor.
Qed.

Lemma lower_hex_Forall (s : str) :
  is_lower_hex s = true ->
  Forall (fun c => is_lower_hex_digit c = true \/ c = 45) s.
Proof.
  unfold is_lower_hex. rewrite forallb_forall, Forall_forall. auto.
Qed.

(** The characters of a name built by mount. *)
Lemma filename_of_alphabet (file : Mount.file_info) (uuid : str) (h i : bool)
    (token : str) :
  Mount.filename_of file uuid h i = Ok token ->
  Forall (fun c => is_lower_hex_digit c = true \/ c = 45) token.
Proof.
  intros H. apply filename_of_fields in H.
  destruct H as (he & hk & hm & extra & He & Hk & Hm & Hs & Hx).
  rewrite <- (split_join 45 token), Hs.
  apply join_Forall; [now right|].
  destruct (encrypt_lower_hex _ _ _ He) as [Hhe _].
  destruct (encrypt_lower_hex _ _ _ Hk) as [Hhk _].
  destruct (encrypt_lower_hex _ _ _ Hm) as [Hhm _].
  repeat (constructor; [now apply lower_hex_Forall|]).
  destruct (embedded_name file h i) as [n|].
  - destruct Hx as (hn & Hn & ->).
    destruct (encrypt_lower_hex _ _ _ Hn) as [Hhn _].
    repeat constructor. now apply lower_hex_Forall.
  - subst extra. constructor.
Qed.

Lemma token_char_not (c x : N) :
  is_lower_hex_digit c = true \/ c = 45 ->
  x = 92 \/ x = 46 \/ x = 47 \/ x = 58 -> c <> x.
Proof.
  intros [H| ->] Hx; [|lia].
  apply lower_hex_digit_facts in H as (_ & _ & H). intros ->.
  destruct Hx as [->|[->|[->| ->]]]; discriminate.
Qed.

Lemma filename_of_no_separator (file : Mount.file_info) (uuid : str)
    (h i : bool) (token : str) (x : N) :
  Mount.filename_of file uuid h i = Ok token ->
  x = 92 \/ x = 46 \/ x = 47 \/ x = 58 -> ~ In x token.
Proof.
  intros H Hx Hin. apply filename_of_alphabet in H.
  rewrite Forall_forall in H. now apply (token_char_not x x (H _ Hin) Hx).
Qed.

(** ** X7 *)

(** X7: a name built by mount is made of lowercase hexadecimal digits and
    dashes only, so it holds no backslash, slash, colon or dot; it has four
    dash-separated fields when a name is embedded (a file with
    [--use_index], a directory with [--hash]) and three otherwise. *)
Theorem mount_name_shape (file : Mount.file_info) (uuid : str) (h i : bool)
    (token : str) :
  Mount.filename_of file uuid h i = Ok token ->
  Forall (fun c => is_lower_hex_digit c = true \/ c = 45) token
  /\ ~ In 92 token /\ ~ In 47 token /\ ~ In 58 token /\ ~ In 46 token
  /\ List.length (split 45 token)
     = match embedded_name file h i with Some _ => 4%nat | None => 3%nat end.
Proof.
  intros H. split; [now apply (filename_of_alphabet file uuid h i)|].
  split; [apply (filename_of_no_separator _ _ _ _ _ _ H); tauto|].
  split; [apply (filename_of_no_separator _ _ _ _ _ _ H); tauto|].
  split; [apply (filename_of_no_separator _ _ _ _ _ _ H); tauto|].
  split; [apply (filename_of_no_separator _ _ _ _ _ _ H); tauto|].
  apply filename_of_fields in H.
  destruct H as (he & hk & hm & extra & _ & _ & _ & -> & Hx).
  destruct (embedded_name file h i).
  - now destruct Hx as (hn & _ & ->).
  - now subst extra.
Qed.

Lemma mount_name_shape_witness :
  Mount.filename_of (Mount.encode_file sample_entry)
    (lit "6f1d2c3b-5a4e-4b7c-9d8e-000000000000") false true = Ok sample_token
  /\ ~ In 92 sample_token
  /\ List.length (split 45 sample_token) = 4%nat.
Proof.
  assert (Hf : Mount.filename_of (Mount.encode_file sample_entry)
                 (lit "6f1d2c3b-5a4e-4b7c-9d8e-000000000000") false true
               = Ok sample_token) by (vm_compute; reflexivity).
  destruct (mount_name_shape _ _ _ _ _ Hf) as (_ & Hb & _ & _ & _ & Hl).
  split; [exact Hf|]. split; [exact Hb|exact Hl].
Defined.

(** What unmount decodes from a name mount built from ASCII text. *)
Lemma decoded_entry_of_mounted (e e' : os.DirEntry) (uuid : str)
    (h i ui : bool) (token : str) :
  is_ascii (os.name e) = true -> is_ascii uuid = true ->
  Mount.filename_of (Mount.encode_file e) uuid h i = Ok token ->
  os.name e' = token ->
  Unmount.decoded_entry e' ui
  = Ok (ceil (os.st_mtime e), extension_of (Mount.encode_file e),
        match embedded_name (Mount.encode_file e) h i with
        | Some n => n
        | None => []
        end).
Proof.
  intros Hn Hu Hf He'.
  assert (Hmt : is_ascii (Mount.mtime (Mount.encode_file e)) = true)
    by apply lower_hex_ascii, mtime_lower_hex.
  pose proof (decode_file_ascii (Mount.encode_file e) uuid h i ui token
                Hu Hn Hmt Hf) as Hd.
  rewrite <- He' in Hd. rewrite encode_file_mtime in Hd.
  now apply decoded_entry_of_decode in Hd.
Qed.

Lemma lower_fixes_lowercase (s : str) : has_upper s = false -> lower s = s.
Proof.
  induction s as [|c s IH]; [reflexivity|].
  cbn [has_upper existsb lower List.map]. intros H.
  apply orb_false_elim in H as [Hc Hs]. unfold lower_char. rewrite Hc.
  f_equal. now apply IH.
Qed.

(** ** X8 *)

(** X8: a directory with a non-empty ASCII name, mounted with [--hash], is
    given its original name back by unmount, byte for byte and without any
    extension, whether or not [--use_index] is set on unmount. *)
Theorem directory_name_round_trip
    (e e' : os.DirEntry) (uuid : str) (i ui : bool) (token : str) :
  os.is_dir e = true -> os.name e <> [] ->
  is_ascii (os.name e) = true -> is_ascii uuid = true ->
  Mount.filename_of (Mount.encode_file e) uuid true i = Ok token ->
  os.name e' = token -> os.is_dir e' = true ->
  Unmount.decoded_entry e' ui
  = Ok (ceil (os.st_mtime e), lit "folder", os.name e)
  /\ (forall W `(Host W) (w : W),
        Unmount.pick_filename (os.name e) ui w = (os.name e, w))
  /\ Unmount.new_filename_of e' (lit "folder") (os.name e)
     = Unmount.file_root_dir_of (os.path e') ++ [os.sep] ++ os.name e.
Proof.
  intros Hd Hne Hn Hu Hf He' Hd'.
  pose proof (decoded_entry_of_mounted e e' uuid true i ui token Hn Hu Hf He')
    as H.
  unfold extension_of, embedded_name in H.
  cbn [Mount.is_dir Mount.name Mount.encode_file] in H. rewrite Hd in H.
  cbn [negb] in H. split; [exact H|]. split.
  - intros W HW w. unfold Unmount.pick_filename.
    destruct (os.name e); [now elim Hne|reflexivity].
  - unfold Unmount.new_filename_of. rewrite Hd'. cbn [negb].
    now rewrite app_nil_r.
Qed.

Lemma directory_name_round_trip_witness :
  Mount.filename_of
    (Mount.encode_file
       (os.entry (lit "c:\data") (os.FsDir (lit "a") (1700000000 # 1) [])))
    (Sim.nth_uuid 1) true false = Ok mounted_a
  /\ Unmount.new_filename_of
       (os.entry (lit "c:\data") (os.FsDir mounted_a (1800000000 # 1) []))
       (lit "folder") (lit "a")
     = lit "c:\data\a".
Proof.
  assert (Hf : Mount.filename_of
                 (Mount.encode_file
                    (os.entry (lit "c:\data")
                       (os.FsDir (lit "a") (1700000000 # 1) [])))
                 (Sim.nth_uuid 1) true false = Ok mounted_a)
    by (vm_compute; reflexivity).
  split; [exact Hf|].
  destruct (directory_name_round_trip
              (os.entry (lit "c:\data") (os.FsDir (lit "a") (1700000000 # 1) []))
              (os.entry (lit "c:\data") (os.FsDir mounted_a (1800000000 # 1) []))
              (Sim.nth_uuid 1) false false mounted_a
              eq_refl ltac:(discriminate) eq_refl eq_refl Hf eq_refl eq_refl)
    as (_ & _ & Hnew).
  refine (eq_trans Hnew _). vm_compute. reflexivity.
Defined.

(** ** X9 *)

(** X9: a file whose ASCII name is one dot-free base, a dot and a dot-free
    extension without uppercase letters, mounted with [--use_index], is
    given exactly its original name back by unmount with [--use_index]. *)
Theorem plain_file_name_round_trip
    (e e' : os.DirEntry) (base ext uuid : str) (h : bool) (token : str) :
  os.is_dir e = false -> os.name e = base ++ lit "." ++ ext ->
  ~ In 46 base -> ~ In 46 ext -> has_upper ext = false -> base <> [] ->
  is_ascii (os.name e) = true -> is_ascii uuid = true ->
  Mount.filename_of (Mount.encode_file e) uuid h true = Ok token ->
  os.name e' = token -> os.is_dir e' = false ->
  Unmount.decoded_entry e' true = Ok (ceil (os.st_mtime e), ext, base)
  /\ (forall W `(Host W) (w : W), Unmount.pick_filename base true w = (base, w))
  /\ Unmount.new_filename_of e' ext base
     = Unmount.file_root_dir_of (os.path e') ++ [os.sep] ++ os.name e.
Proof.
  intros Hd Hname Hb Hx Hup Hne Hn Hu Hf He' Hd'.
  pose proof (decoded_entry_of_mounted e e' uuid h true true token Hn Hu Hf He')
    as H.
  unfold extension_of, embedded_name in H.
  cbn [Mount.is_dir Mount.name Mount.encode_file] in H. rewrite Hd in H.
  cbn [negb] in H. rewrite Hname in H. change (lit ".") with [46] in H.
  cbn [app] in H. rewrite (split_app _ _ _ Hb), (split_without _ _ Hx) in H.
  cbn [last hd] in H. rewrite (lower_fixes_lowercase _ Hup) in H.
  split; [exact H|]. split.
  - intros W HW w. unfold Unmount.pick_filename. now rewrite andb_false_r.
  - unfold Unmount.new_filename_of. rewrite Hd', Hname. reflexivity.
Qed.

Lemma plain_file_name_round_trip_witness :
  Mount.filename_of (Mount.encode_file sample_entry)
    (lit "6f1d2c3b-5a4e-4b7c-9d8e-000000000000") false true = Ok sample_token
  /\ Unmount.new_filename_of sample_mounted (lit "txt") (lit "report")
     = lit "c:\data\report.txt".
Proof.
  assert (Hf : Mount.filename_of (Mount.encode_file sample_entry)
                 (lit "6f1d2c3b-5a4e-4b7c-9d8e-000000000000") false true
               = Ok sample_token) by (vm_compute; reflexivity).
  split; [exact Hf|].
  assert (Hb : ~ In 46 (lit "report")) by (vm_compute; intuition discriminate).
  assert (Hx : ~ In 46 (lit "txt")) by (vm_compute; intuition discriminate).
  destruct (plain_file_name_round_trip sample_entry sample_mounted
              (lit "report") (lit "txt")
              (lit "6f1d2c3b-5a4e-4b7c-9d8e-000000000000") false sample_token
              eq_refl eq_refl Hb Hx eq_refl ltac:(discriminate)
              eq_refl eq_refl Hf eq_refl eq_refl)
    as (_ & _ & Hnew).
  refine (eq_trans Hnew _). vm_compute. reflexivity.
Defined.

(** ** X10 *)

(** X10: a file mounted without [--use_index] carries no name. Unmount
    decodes an empty file name from it: without [--use_index] it draws a
    fresh identifier and renames the file to that identifier, a dot and the
    extension; with [--use_index] it keeps the empty name, so the new name
    is just a dot and the extension, the same for every such file of one
    directory with that extension. *)
Theorem unnamed_file_gets_identifier_or_bare_extension
    (e e' : os.DirEntry) (uuid : str) (h ui : bool) (token : str) :
  os.is_dir e = false ->
  is_ascii (os.name e) = true -> is_ascii uuid = true ->
  Mount.filename_of (Mount.encode_file e) uuid h false = Ok token ->
  os.name e' = token -> os.is_dir e' = false ->
  let extension := lower (last (split 46 (os.name e)) []) in
  Unmount.decoded_entry e' ui = Ok (ceil (os.st_mtime e), extension, [])
  /\ (forall W `(Host W) (w : W),
        Unmount.pick_filename [] false w = uuid4 w
        /\ Unmount.pick_filename [] true w = ([], w))
  /\ (forall fresh,
        Unmount.new_filename_of e' extension fresh
        = Unmount.file_root_dir_of (os.path e') ++ [os.sep]
            ++ fresh ++ lit "." ++ extension)
  /\ Unmount.new_filename_of e' extension []
     = Unmount.file_root_dir_of (os.path e') ++ [os.sep] ++ lit "." ++ extension.
Proof.
  intros Hd Hn Hu Hf He' Hd' extension.
  pose proof (decoded_entry_of_mounted e e' uuid h false ui token Hn Hu Hf He')
    as H.
  unfold extension_of, embedded_name in H.
  cbn [Mount.is_dir Mount.name Mount.encode_file] in H. rewrite Hd in H.
  cbn [negb] in H. split; [exact H|]. split; [|split].
  - intros W HW w. split; reflexivity.
  - intros fresh. unfold Unmount.new_filename_of. now rewrite Hd'.
  - unfold Unmount.new_filename_of. now rewrite Hd'.
Qed.

Lemma unnamed_file_gets_identifier_or_bare_extension_witness :
  exists token,
    Mount.filename_of (Mount.encode_file sample_entry) (Sim.nth_uuid 0)
      false false = Ok token
    /\ Unmount.decoded_entry
         (os.entry (lit "c:\data") (os.FsFile token (1800000000 # 1))) true
       = Ok (1700000001%Z, lit "txt", []).
Proof.
  destruct (Mount.filename_of (Mount.encode_file sample_entry) (Sim.nth_uuid 0)
              false false) as [token|ex] eqn:Hf;
    [|vm_compute in Hf; discriminate].
  exists token. split; [reflexivity|].
  destruct (unnamed_file_gets_identifier_or_bare_extension sample_entry
              (os.entry (lit "c:\data") (os.FsFile token (1800000000 # 1)))
              (Sim.nth_uuid 0) false true token
              eq_refl eq_refl eq_refl Hf eq_refl eq_refl) as (Hdec & _).
  exact Hdec.
Defined.

(** ** Paths *)

Lemma split_app_sep (sep : N) (a b : str) :
  split sep (a ++ sep :: b) = split sep a ++ split sep b.
Proof.
  induction a as [|c a IH]; cbn [app split].
  - now rewrite N.eqb_refl.
  - rewrite IH. destruct (c =? sep); [reflexivity|].
    pose proof (split_not_nil sep a) as Hn.
    destruct (split sep a) as [|h t]; [now elim Hn|reflexivity].
Qed.

Lemma parent_of_child (sep : N) (p nm : str) :
  ~ In sep nm ->
  join [sep] (removelast (split sep (p ++ [sep] ++ nm))) = p
  /\ last (split sep (p ++ [sep] ++ nm)) [] = nm.
Proof.
  intros Hn. cbn [app]. rewrite split_app_sep, (split_without _ _ Hn).
  rewrite removelast_last, last_last. split; [apply split_join|reflexivity].
Qed.

Lemma parent_without_separator (sep : N) (path : str) :
  ~ In sep path -> join [sep] (removelast (split sep path)) = [].
Proof. intros Hn. now rewrite (split_without _ _ Hn). Qed.

Lemma join_path_plain (q : str) (c : N) (nm : str) :
  c <> 92 -> c <> 47 -> c <> 58 ->
  os.join_path (q ++ [c]) nm = (q ++ [c]) ++ [os.sep] ++ nm.
Proof.
  intros H1 H2 H3. unfold os.join_path. rewrite rev_app_distr. cbn [rev app].
  unfold os.sep.
  destruct (N.eqb_spec c 92), (N.eqb_spec c 47), (N.eqb_spec c 58);
    try contradiction. reflexivity.
Qed.

Lemma join_path_after_separator (q : str) (c : N) (nm : str) :
  c = 92 \/ c = 47 \/ c = 58 ->
  os.join_path (q ++ [c]) nm = (q ++ [c]) ++ nm.
Proof.
  intros H. unfold os.join_path. rewrite rev_app_distr. cbn [rev app].
  unfold os.sep. destruct H as [->|[->| ->]]; reflexivity.
Qed.

Lemma mount_change_file_names_step {W} `{Host W} (file : Mount.file_info)
    (rest : Mount.FILE_INFOS) (h i : bool) (w w1 : W) (uuid token : str) :
  uuid4 w = (uuid, w1) ->
  Mount.filename_of file uuid h i = Ok token ->
  Mount.change_file_names (file :: rest) h i w
  = (w2 <- os_rename (Mount.root file)
             (Mount.directory_root_of (Mount.root file) ++ [os.sep] ++ token) w1 ;;
     Mount.change_file_names rest h i w2).
Proof.
  intros Hu Hf. cbn [Mount.change_file_names]. rewrite Hu, Hf. reflexivity.
Qed.

(** ** X11 *)

(** X11: an entry whose path is a directory path, a backslash and a name
    without backslash is renamed inside that directory, by mount to the
    token and by unmount to the decoded name: neither pass moves it
    elsewhere. This is the form of every path [os.scandir] gives for a
    directory path that does not end in a backslash, a slash or a colon. *)
Theorem rename_stays_in_directory (p nm : str) :
  ~ In 92 nm ->
  Mount.directory_root_of (p ++ [os.sep] ++ nm) = p
  /\ Unmount.file_root_dir_of (p ++ [os.sep] ++ nm) = p
  /\ (forall W `(Host W) (file : Mount.file_info) (rest : Mount.FILE_INFOS)
             (h i : bool) (w w1 : W) (uuid token : str),
        Mount.root file = p ++ [os.sep] ++ nm ->
        uuid4 w = (uuid, w1) ->
        Mount.filename_of file uuid h i = Ok token ->
        Mount.change_file_names (file :: rest) h i w
        = (w2 <- os_rename (p ++ [os.sep] ++ nm) (p ++ [os.sep] ++ token) w1 ;;
           Mount.change_file_names rest h i w2))
  /\ (forall (e' : os.DirEntry) (extension filename : str),
        os.path e' = p ++ [os.sep] ++ nm ->
        Unmount.new_filename_of e' extension filename
        = p ++ [os.sep] ++ filename
            ++ (if negb (os.is_dir e') then lit "." ++ extension else []))
  /\ (forall (q : str) (c : N) (n : os.fsnode),
        c <> 92 -> c <> 47 -> c <> 58 ->
        os.path (os.entry (q ++ [c]) n)
        = (q ++ [c]) ++ [os.sep] ++ os.node_name n).
Proof.
  intros Hn. destruct (parent_of_child 92 p nm Hn) as [Hp _].
  split; [exact Hp|]. split; [exact Hp|]. split; [|split].
  - intros W HW file rest h i w w1 uuid token Hr Hu Hf.
    rewrite (mount_change_file_names_step _ _ _ _ _ _ _ _ Hu Hf).
    rewrite Hr. unfold Mount.directory_root_of. unfold os.sep in *.
    now rewrite Hp.
  - intros e' extension filename He'. unfold Unmount.new_filename_of.
    rewrite He'. unfold Unmount.file_root_dir_of. unfold os.sep in *.
    now rewrite Hp.
  - intros q c n H1 H2 H3. cbn [os.entry os.path].
    now apply join_path_plain.
Qed.

Lemma rename_stays_in_directory_witness :
  ~ In 92 (lit "report.txt")
  /\ Mount.directory_root_of (lit "c:\data\report.txt") = lit "c:\data"
  /\ os.path (os.entry (lit "c:\data")
                (os.FsFile (lit "report.txt") (1700000000 # 1)))
     = lit "c:\data\report.txt".
Proof.
  assert (Hn : ~ In 92 (lit "report.txt"))
    by (vm_compute; intuition discriminate).
  destruct (rename_stays_in_directory (lit "c:\data") (lit "report.txt") Hn)
    as (Hm & _ & _ & _ & Hs).
  split; [exact Hn|]. split; [exact Hm|].
  exact (Hs (lit "c:\dat") 97 (os.FsFile (lit "report.txt") (1700000000 # 1))
           ltac:(discriminate) ltac:(discriminate) ltac:(discriminate)).
Defined.

(** ** X12 *)

(** X12: the passes split paths on the backslash only. When the directory
    is given with forward slashes ([x:/data/]), the paths [os.scandir]
    yields hold no backslash, the directory part both passes compute is
    empty, and the new name is a backslash followed by the token (mount) or
    by the decoded name (unmount): the entry is moved to the root of the
    drive. *)
Theorem forward_slash_paths_lose_their_directory (q : str) (n : os.fsnode) :
  ~ In 92 q -> ~ In 92 (os.node_name n) ->
  let e := os.entry (q ++ lit "/") n in
  os.path e = q ++ lit "/" ++ os.node_name n
  /\ Mount.directory_root_of (os.path e) = []
  /\ (forall W `(Host W) (rest : Mount.FILE_INFOS) (h i : bool) (w w1 : W)
             (uuid token : str),
        uuid4 w = (uuid, w1) ->
        Mount.filename_of (Mount.encode_file e) uuid h i = Ok token ->
        Mount.change_file_names (Mount.encode_file e :: rest) h i w
        = (w2 <- os_rename (os.path e) ([os.sep] ++ token) w1 ;;
           Mount.change_file_names rest h i w2))
  /\ (forall extension filename,
        Unmount.new_filename_of e extension filename
        = [os.sep] ++ filename
            ++ (if negb (os.is_dir e) then lit "." ++ extension else [])).
Proof.
  intros Hq Hn e.
  assert (Hp : os.path e = q ++ lit "/" ++ os.node_name n).
  { subst e. cbn [os.entry os.path]. change (lit "/") with [47].
    rewrite (join_path_after_separator q 47) by tauto.
    now rewrite <- app_assoc. }
  assert (Hno : ~ In 92 (os.path e)).
  { rewrite Hp. change (lit "/") with [47]. intros Hin.
    apply in_app_or in Hin as [Hin|Hin]; [tauto|].
    cbn [app] in Hin. destruct Hin as [E|Hin]; [discriminate|tauto]. }
  pose proof (parent_without_separator 92 _ Hno) as Hroot.
  split; [exact Hp|]. split; [exact Hroot|]. split.
  - intros W HW rest h i w w1 uuid token Hu Hf.
    rewrite (mount_change_file_names_step _ _ _ _ _ _ _ _ Hu Hf).
    change (Mount.root (Mount.encode_file e)) with (os.path e).
    unfold Mount.directory_root_of, os.sep in *. now rewrite Hroot.
  - intros extension filename. unfold Unmount.new_filename_of.
    unfold Unmount.file_root_dir_of, os.sep in *. now rewrite Hroot.
Qed.

Lemma forward_slash_paths_lose_their_directory_witness :
  ~ In 92 (lit "x:/data") /\ ~ In 92 (lit "report.txt")
  /\ os.path (os.entry (lit "x:/data/")
                (os.FsFile (lit "report.txt") (1700000000 # 1)))
     = lit "x:/data/report.txt"
  /\ Unmount.new_filename_of
       (os.entry (lit "x:/data/") (os.FsFile (lit "report.txt") (1700000000 # 1)))
       (lit "txt") (lit "report")
     = lit "\report.txt".
Proof.
  assert (Hq : ~ In 92 (lit "x:/data")) by (vm_compute; intuition discriminate).
  assert (Hn : ~ In 92 (lit "report.txt"))
    by (vm_compute; intuition discriminate).
  destruct (forward_slash_paths_lose_their_directory (lit "x:/data")
              (os.FsFile (lit "report.txt") (1700000000 # 1)) Hq Hn)
    as (Hp & _ & _ & Hu).
  split; [exact Hq|]. split; [exact Hn|]. split; [exact Hp|].
  exact (Hu (lit "txt") (lit "report")).
Defined.

(** ** X13 *)

(** X13: when the root directory is given with a trailing backslash, as
    in the usage lines of both programs, the last path segment is empty.
    Mount records an empty name for the root, embeds that empty name with
    [--hash], and renames the root to a path inside itself; unmount's
    [change_root_directory_name] hands the empty segment to [decode_file]
    and raises [ValueError]. *)
Theorem root_with_trailing_backslash (d : str) (mt : Q) :
  Mount.name (Mount.root_dir (d ++ [os.sep]) mt) = []
  /\ (forall i, embedded_name (Mount.root_dir (d ++ [os.sep]) mt) true i = Some [])
  /\ Mount.directory_root_of (Mount.root (Mount.root_dir (d ++ [os.sep]) mt)) = d
  /\ (forall token,
        below d (Mount.directory_root_of (d ++ [os.sep]) ++ [os.sep] ++ token))
  /\ (forall W `(Host W) (w : W),
        Unmount.change_root_directory_name (d ++ [os.sep]) w = Raise ValueError).
Proof.
  destruct (parent_of_child 92 d [] (fun H => H)) as [Hp Hl].
  rewrite app_nil_r in Hp, Hl.
  assert (Hn : Mount.name (Mount.root_dir (d ++ [os.sep]) mt) = []) by exact Hl.
  split; [exact Hn|]. split; [|split; [exact Hp|split]].
  - intros i. unfold embedded_name. cbn [Mount.is_dir Mount.root_dir Mount.name].
    unfold os.sep in *. now rewrite Hl.
  - intros token. unfold Mount.directory_root_of, os.sep in *. rewrite Hp.
    now exists token.
  - intros W HW w. unfold Unmount.change_root_directory_name, os.sep in *.
    rewrite Hl. reflexivity.
Qed.

(** ** X14 *)

(** X14: the root directory, given as a parent path, a backslash and a
    non-empty ASCII name without backslash, and mounted with [--hash]:
    [change_root_directory_name] applied to the mounted root renames it to
    its original path. *)
Theorem root_directory_round_trip
    (parent nm uuid : str) (mt : Q) (i : bool) (token : str) :
  ~ In 92 nm -> is_ascii nm = true -> is_ascii uuid = true ->
  Mount.filename_of (Mount.root_dir (parent ++ [os.sep] ++ nm) mt) uuid true i
  = Ok token ->
  Mount.directory_root_of (parent ++ [os.sep] ++ nm) ++ [os.sep] ++ token
  = parent ++ [os.sep] ++ token
  /\ forall W `(Host W) (w : W),
       Unmount.change_root_directory_name (parent ++ [os.sep] ++ token) w
       = os_rename (parent ++ [os.sep] ++ token) (parent ++ [os.sep] ++ nm) w.
Proof.
  intros Hn Ha Hu Hf.
  destruct (parent_of_child 92 parent nm Hn) as [Hp Hl].
  pose proof (filename_of_no_separator _ _ _ _ _ 92 Hf (or_introl eq_refl))
    as Ht.
  destruct (parent_of_child 92 parent token Ht) as [Hp' Hl'].
  split.
  { unfold Mount.directory_root_of, os.sep in *. now rewrite Hp. }
  intros W HW w. unfold Unmount.change_root_directory_name, os.sep in *.
  rewrite Hp', Hl'.
  assert (Hname : Mount.name (Mount.root_dir (parent ++ [92] ++ nm) mt) = nm)
    by exact Hl.
  assert (Hmt : is_ascii (Mount.mtime (Mount.root_dir (parent ++ [92] ++ nm) mt))
                = true) by apply lower_hex_ascii, mtime_lower_hex.
  assert (Ha' : is_ascii (Mount.name (Mount.root_dir (parent ++ [92] ++ nm) mt))
                = true) by (rewrite Hname; exact Ha).
  rewrite (decode_file_ascii _ uuid true i false token Hu Ha' Hmt Hf).
  cbn [bind]. unfold embedded_name.
  cbn [Mount.is_dir Mount.root_dir Mount.name]. unfold os.sep. now rewrite Hl.
Qed.

Lemma root_directory_round_trip_witness :
  exists token,
    Mount.filename_of (Mount.root_dir (lit "c:\data") (1700000000 # 1))
      (Sim.nth_uuid 0) true false = Ok token
    /\ forall w : Sim.world,
         Unmount.change_root_directory_name (lit "c:\" ++ token) w
         = os_rename (lit "c:\" ++ token) (lit "c:\data") w.
Proof.
  destruct (Mount.filename_of (Mount.root_dir (lit "c:\data") (1700000000 # 1))
              (Sim.nth_uuid 0) true false) as [token|ex] eqn:Hf;
    [|vm_compute in Hf; discriminate].
  exists token. split; [reflexivity|].
  assert (Hn : ~ In 92 (lit "data")) by (vm_compute; intuition discriminate).
  destruct (root_directory_round_trip (lit "c:") (lit "data") (Sim.nth_uuid 0)
              (1700000000 # 1) false token Hn eq_refl eq_refl Hf) as [_ Hr].
  intros w. exact (Hr Sim.world Sim.host w).
Defined.

(** ** X15 *)

(** X15: mount has no handler around its loop body. At any entry, an
    exception raised while the name is built (a name that UTF-8 cannot
    encode) or by the rename leaves [change_file_names] at once, and the
    remaining entries are not touched. *)
Theorem mount_stops_at_first_failure {W} `{Host W}
    (file : Mount.file_info) (rest : Mount.FILE_INFOS) (h i : bool)
    (w w1 : W) (uuid : str) (ex : exn) :
  uuid4 w = (uuid, w1) ->
  (Mount.filename_of file uuid h i = Raise ex ->
   Mount.change_file_names (file :: rest) h i w = Raise ex)
  /\ (forall token,
        Mount.filename_of file uuid h i = Ok token ->
        os_rename (Mount.root file)
          (Mount.directory_root_of (Mount.root file) ++ [os.sep] ++ token) w1
        = Raise ex ->
        Mount.change_file_names (file :: rest) h i w = Raise ex).
Proof.
  intros Hu. split.
  - intros Hf. cbn [Mount.change_file_names]. rewrite Hu, Hf. reflexivity.
  - intros token Hf Hr.
    rewrite (mount_change_file_names_step _ _ _ _ _ _ _ _ Hu Hf).
    now rewrite Hr.
Qed.

Lemma mount_stops_at_first_failure_witness :
  uuid4 (Sim.init []) = (Sim.nth_uuid 0,
                         {| Sim.paths := []; Sim.journal := []; Sim.uuids := 1 |})
  /\ Mount.change_file_names
       [Mount.encode_file sample_entry; Mount.encode_file photo_entry]
       false false (Sim.init [])
     = Raise (OSError (lit "c:\data\report.txt")).
Proof.
  assert (Hu : uuid4 (Sim.init [])
               = (Sim.nth_uuid 0,
                  {| Sim.paths := []; Sim.journal := []; Sim.uuids := 1 |}))
    by reflexivity.
  split; [exact Hu|].
  destruct (mount_stops_at_first_failure (Mount.encode_file sample_entry)
              [Mount.encode_file photo_entry] false false _ _ _
              (OSError (lit "c:\data\report.txt")) Hu) as [_ Hr].
  destruct (Mount.filename_of (Mount.encode_file sample_entry) (Sim.nth_uuid 0)
              false false) as [token|e] eqn:Hf;
    [|vm_compute in Hf; discriminate].
  apply (Hr token eq_refl). vm_compute. reflexivity.
Defined.

(** ** The walkers *)

(** Every descriptor the walker of mount produces comes from an entry that
    passed the exclusion test. *)
Lemma mount_scan_Forall_kept (P : str -> Mount.file_info -> Prop)
    (EX AL : list str) (ob rec : bool) :
  (forall p n,
     os.node_is_dir n && contains EX (os.node_name n) = false ->
     P p (Mount.encode_file (os.entry p n))) ->
  (forall p nm f, P (os.join_path p nm) f -> P p f) ->
  forall n p, Forall (P p) (Mount.scan EX AL ob rec p n).
Proof.
  intros Hkeep Hsub.
  induction n as [nm mt|nm mt ch IH] using fsnode_tree_ind; intros p.
  - cbn [Mount.scan os.entry os.is_dir os.node_is_dir os.name os.node_name andb app].
    destruct (endswith_any nm AL); cbn [negb]; [|constructor].
    repeat constructor. now apply (Hkeep p (os.FsFile nm mt)).
  - cbn [Mount.scan os.entry os.is_dir os.node_is_dir os.name os.node_name
           os.path andb].
    destruct (contains EX nm) eqn:Ex; [constructor|].
    assert (Hk : P p (Mount.encode_file (os.entry p (os.FsDir nm mt ch))))
      by (apply Hkeep; cbn; exact Ex).
    apply Forall_app. split.
    + destruct rec; [|constructor]. constructor; [exact Hk|].
      apply mount_separate_Forall, Forall_concat, scan_order_Forall.
      apply Forall_map. cbn [snd].
      eapply Forall_impl; [|exact IH]. cbn. intros c Hc.
      eapply Forall_impl; [|apply Hc]. intros f. apply Hsub.
    + destruct (endswith_any nm AL); cbn [negb]; [|constructor].
      repeat constructor. exact Hk.
Qed.

Lemma mount_get_files_Forall_kept (P : str -> Mount.file_info -> Prop)
    (EX AL : list str) (ob rec : bool) :
  (forall p n,
     os.node_is_dir n && contains EX (os.node_name n) = false ->
     P p (Mount.encode_file (os.entry p n))) ->
  (forall p nm f, P (os.join_path p nm) f -> P p f) ->
  forall dirs p, Forall (P p) (Mount.get_files EX AL ob rec p dirs).
Proof.
  intros Hkeep Hsub dirs p. unfold Mount.get_files.
  apply mount_separate_Forall, Forall_concat, scan_order_Forall, Forall_map.
  cbn [snd]. apply Forall_forall. intros c _.
  now apply mount_scan_Forall_kept.
Qed.

Lemma unmount_scan_Forall (P : str -> os.DirEntry -> Prop)
    (EX : list str) (rec : bool) :
  (forall p n,
     os.node_is_dir n && contains EX (os.node_name n) = false ->
     P p (os.entry p n)) ->
  (forall p nm e, P (os.join_path p nm) e -> P p e) ->
  forall n p, Forall (P p) (Unmount.scan EX rec p n).
Proof.
  intros Hkeep Hsub.
  induction n as [nm mt|nm mt ch IH] using fsnode_tree_ind; intros p.
  - cbn [Unmount.scan os.entry os.is_dir os.node_is_dir os.name os.node_name
           andb app].
    repeat constructor. now apply (Hkeep p (os.FsFile nm mt)).
  - cbn [Unmount.scan os.entry os.is_dir os.node_is_dir os.name os.node_name
           os.path andb].
    destruct (contains EX nm) eqn:Ex; [constructor|].
    apply Forall_app. split.
    + destruct rec; [|constructor]. apply Forall_flat_map.
      eapply Forall_impl; [|exact IH]. cbn. intros c Hc.
      eapply Forall_impl; [|apply Hc]. intros f. apply Hsub.
    + repeat constructor. apply (Hkeep p (os.FsDir nm mt ch)). cbn. exact Ex.
Qed.

Lemma unmount_get_files_Forall (P : str -> os.DirEntry -> Prop)
    (EX : list str) (rec : bool) :
  (forall p n,
     os.node_is_dir n && contains EX (os.node_name n) = false ->
     P p (os.entry p n)) ->
  (forall p nm e, P (os.join_path p nm) e -> P p e) ->
  forall dirs p, Forall (P p) (Unmount.get_files EX rec p dirs).
Proof.
  intros Hkeep Hsub dirs p. unfold Unmount.get_files.
  apply Forall_flat_map, Forall_forall. intros c _.
  now apply unmount_scan_Forall.
Qed.

Lemma contains_false (xs : list str) (x : str) :
  contains xs x = false -> ~ In x xs.
Proof. unfold contains. now destruct (in_dec str_eq_dec x xs). Qed.

(** ** X16 *)

(** X16: no directory whose name is in the exclusion list appears in the
    result of either walker, recursive or not; the test is made on
    directories only and on the bare name. *)
Theorem walkers_skip_excluded_directories
    (EX AL : list str) (ob rec : bool) (dir_path : str) (dirs : list os.fsnode) :
  Forall (fun f => Mount.is_dir f = true -> ~ In (Mount.name f) EX)
    (Mount.get_files EX AL ob rec dir_path dirs)
  /\ Forall (fun e => os.is_dir e = true -> ~ In (os.name e) EX)
       (Unmount.get_files EX rec dir_path dirs).
Proof.
  split.
  - apply (mount_get_files_Forall_kept
             (fun _ f => Mount.is_dir f = true -> ~ In (Mount.name f) EX)).
    + intros p n Hk Hd. cbn in Hd. rewrite Hd in Hk. cbn in Hk.
      now apply contains_false.
    + intros p nm f Hf. exact Hf.
  - apply (unmount_get_files_Forall
             (fun _ e => os.is_dir e = true -> ~ In (os.name e) EX)).
    + intros p n Hk Hd. cbn in Hd. rewrite Hd in Hk. cbn in Hk.
      now apply contains_false.
    + intros p nm f Hf. exact Hf.
Qed.

Lemma join_path_prefix (p nm : str) : exists rest, os.join_path p nm = p ++ rest.
Proof.
  unfold os.join_path. destruct (rev p) as [|c r] eqn:E.
  - apply (f_equal (@rev N)) in E. rewrite rev_involutive in E. subst p.
    now exists nm.
  - destruct ((c =? os.sep) || (c =? 47) || (c =? 58)); eexists; reflexivity.
Qed.

(** ** X17 *)

(** X17: every path in the list either pass hands to its orchestrator
    starts with the root directory path given on the command line: the
    walkers never yield a path outside it. *)
Theorem orchestrator_paths_start_with_root
    (EX AL : list str) (ob rec : bool) (root_directory : str) (root_mtime : Q)
    (dirs : list os.fsnode) :
  Forall (fun f => exists rest, Mount.root f = root_directory ++ rest)
    (Mount.files_of_main EX AL ob rec root_directory root_mtime dirs)
  /\ Forall (fun e => exists rest, os.path e = root_directory ++ rest)
       (Unmount.files_of_main EX rec root_directory dirs).
Proof.
  split.
  - unfold Mount.files_of_main. apply Forall_app. split.
    + apply (mount_get_files_Forall_kept
               (fun p f => exists rest, Mount.root f = p ++ rest)).
      * intros p n _. apply join_path_prefix.
      * intros p nm f [rest Hf]. destruct (join_path_prefix p nm) as [r Hr].
        exists (r ++ rest). now rewrite Hf, Hr, app_assoc.
    + repeat constructor. exists []. cbn. now rewrite app_nil_r.
  - unfold Unmount.files_of_main.
    apply (unmount_get_files_Forall
             (fun p e => exists rest, os.path e = p ++ rest)).
    + intros p n _. apply join_path_prefix.
    + intros p nm f [rest Hf]. destruct (join_path_prefix p nm) as [r Hr].
      exists (r ++ rest). now rewrite Hf, Hr, app_assoc.
Qed.

Lemma flat_map_keep {A B} (keep : A -> bool) (g : A -> B) (l : list A) :
  flat_map (fun x => if keep x then [g x] else []) l
  = List.map g (filter keep l).
Proof.
  induction l as [|x l IH]; [reflexivity|]. cbn [flat_map filter].
  destruct (keep x); cbn [app List.map]; now rewrite IH.
Qed.

(** ** X18 *)

(** X18: without [--recursive] the walker of unmount returns the entries
    of the directory in the order [os.scandir] lists them, each once,
    leaving out exactly the directories whose name is excluded. *)
Theorem unmount_flat_walk (EX : list str) (dir_path : str)
    (dirs : list os.fsnode) :
  Unmount.get_files EX false dir_path dirs
  = List.map (os.entry dir_path)
      (filter (fun n => negb (os.node_is_dir n && contains EX (os.node_name n)))
         dirs).
Proof.
  unfold Unmount.get_files. rewrite <- flat_map_keep.
  apply flat_map_ext. intros n.
  destruct n as [nm mt|nm mt ch];
    cbn [Unmount.scan os.entry os.is_dir os.node_is_dir os.name os.node_name
           andb negb app]; [reflexivity|].
  destruct (contains EX nm); reflexivity.
Qed.

(** What one iteration of the loop of mount's [get_files] appends when the
    walk does not recurse. *)
Lemma mount_scan_flat (EX AL : list str) (ob : bool) (dir_path : str)
    (n : os.fsnode) :
  Mount.scan EX AL ob false dir_path n
  = if negb (os.node_is_dir n && contains EX (os.node_name n))
       && endswith_any (os.node_name n) AL
    then [Mount.encode_file (os.entry dir_path n)] else [].
Proof.
  destruct n as [nm mt|nm mt ch];
    cbn [Mount.scan os.entry os.is_dir os.node_is_dir os.name os.node_name
           andb negb app].
  - destruct (endswith_any nm AL); reflexivity.
  - destruct (contains EX nm); cbn [negb andb]; [reflexivity|].
    destruct (endswith_any nm AL); reflexivity.
Qed.

(** ** X19 *)

(** X19: without [--recursive] the walker of mount keeps an entry exactly
    when it is not an excluded directory and its name ends with an allowed
    suffix: directories are subject to the suffix filter like files. The
    result is the separated list of the descriptors of the entries kept, in
    scan order. *)
Theorem mount_flat_walk (EX AL : list str) (ob : bool) (dir_path : str)
    (dirs : list os.fsnode) :
  Mount.get_files EX AL ob false dir_path dirs
  = Mount.separate_file_and_directory
      (List.map (fun n => Mount.encode_file (os.entry dir_path n))
         (filter
            (fun n => negb (os.node_is_dir n && contains EX (os.node_name n))
                      && endswith_any (os.node_name n) AL)
            (if ob then sorted_desc os.node_mtime Qle_bool dirs else dirs))).
Proof.
  rewrite get_files_visits_in_order. f_equal.
  rewrite <- flat_map_keep. apply flat_map_ext. intros n.
  apply mount_scan_flat.
Qed.

(** ** Separating files and directories *)

Lemma insert_desc_perm {A K} (key : A -> K) (leb : K -> K -> bool)
    (x : A) (l : list A) :
  Permutation (x :: l) (insert_desc key leb x l).
Proof.
  induction l as [|y l IH]; cbn [insert_desc]; [reflexivity|].
  destruct (leb (key y) (key x)); [reflexivity|].
  rewrite perm_swap. now apply perm_skip.
Qed.

Lemma sorted_desc_perm {A K} (key : A -> K) (leb : K -> K -> bool)
    (l : list A) :
  Permutation l (sorted_desc key leb l).
Proof.
  induction l as [|x l IH]; cbn [sorted_desc]; [reflexivity|].
  rewrite <- insert_desc_perm. now apply perm_skip.
Qed.

Lemma partition_perm {A} (f : A -> bool) (l : list A) :
  Permutation l (filter (fun x => negb (f x)) l ++ filter f l).
Proof.
  induction l as [|x l IH]; [reflexivity|]. cbn [filter].
  destruct (f x); cbn [negb].
  - now apply Permutation_cons_app.
  - cbn [app]. now apply perm_skip.
Qed.

(** A list already in descending order of keys is left as it is. *)
Lemma sorted_desc_fixed {A} (key : A -> nat) (l : list A) :
  descending (List.map key l) -> sorted_desc key Nat.leb l = l.
Proof.
  induction l as [|x l IH]; [reflexivity|].
  cbn [List.map descending sorted_desc]. intros [Hx Hl]. rewrite (IH Hl).
  destruct l as [|y l]; [reflexivity|]. cbn [insert_desc].
  inversion Hx as [|? ? Hy _]; subst.
  apply Nat.leb_le in Hy. now rewrite Hy.
Qed.

Section Separate.
Context {A : Type} (is_dir : A -> bool) (len : A -> nat).

Lemma separate_perm (l : list A) :
  Permutation l
    (filter (fun x => negb (is_dir x)) l
     ++ sorted_desc len Nat.leb (filter is_dir l)).
Proof. rewrite <- sorted_desc_perm. apply partition_perm. Qed.

Lemma separate_dirs (l : list A) :
  filter is_dir
    (filter (fun x => negb (is_dir x)) l
     ++ sorted_desc len Nat.leb (filter is_dir l))
  = sorted_desc len Nat.leb (filter is_dir l).
Proof.
  rewrite filter_app.
  rewrite (filter_none is_dir (filter (fun x => negb (is_dir x)) l)).
  - cbn [app]. apply filter_all, sorted_desc_Forall, Forall_forall.
    intros x Hx. now apply filter_In in Hx.
  - apply Forall_forall. intros x Hx. apply filter_In in Hx as [_ Hx].
    now apply negb_true_iff in Hx.
Qed.

Lemma separate_files (l : list A) :
  filter (fun x => negb (is_dir x))
    (filter (fun x => negb (is_dir x)) l
     ++ sorted_desc len Nat.leb (filter is_dir l))
  = filter (fun x => negb (is_dir x)) l.
Proof.
  rewrite filter_app.
  rewrite (filter_none (fun x => negb (is_dir x))
             (sorted_desc len Nat.leb (filter is_dir l))).
  - rewrite app_nil_r. apply filter_all, Forall_forall.
    intros x Hx. now apply filter_In in Hx.
  - apply sorted_desc_Forall, Forall_forall. intros x Hx.
    apply filter_In in Hx as [_ Hx]. now rewrite Hx.
Qed.

Lemma separate_idempotent (l : list A) :
  filter (fun x => negb (is_dir x))
    (filter (fun x => negb (is_dir x)) l
     ++ sorted_desc len Nat.leb (filter is_dir l))
  ++ sorted_desc len Nat.leb
       (filter is_dir
          (filter (fun x => negb (is_dir x)) l
           ++ sorted_desc len Nat.leb (filter is_dir l)))
  = filter (fun x => negb (is_dir x)) l
    ++ sorted_desc len Nat.leb (filter is_dir l).
Proof.
  rewrite separate_files, separate_dirs.
  rewrite sorted_desc_fixed by apply sorted_desc_descending. reflexivity.
Qed.

Lemma separate_order (l : list A) :
  files_first
    (List.map is_dir
       (filter (fun x => negb (is_dir x)) l
        ++ sorted_desc len Nat.leb (filter is_dir l)))
  /\ longer_first
       (List.map len
          (filter is_dir
             (filter (fun x => negb (is_dir x)) l
              ++ sorted_desc len Nat.leb (filter is_dir l)))).
Proof.
  split.
  - rewrite map_app. apply files_first_app.
    + apply (filter_flags is_dir).
    + apply Forall_map, sorted_desc_Forall.
      apply Forall_forall. intros x Hx. now apply filter_In in Hx.
  - rewrite separate_dirs. apply descending_longer_first, sorted_desc_descending.
Qed.
End Separate.

(** ** X20 *)

(** X20: [separate_file_and_directory] of unmount only rearranges: its
    result is a permutation of its argument, with the files first and in
    their original order, then the directories from the longest path to the
    shortest; applying it a second time changes nothing. *)
Theorem unmount_separate_rearranges (files : Unmount.FILE_INFOS) :
  let separated := Unmount.separate_file_and_directory files in
  Permutation files separated
  /\ filter (fun e => negb (os.is_dir e)) separated
     = filter (fun e => negb (os.is_dir e)) files
  /\ files_first (List.map os.is_dir separated)
  /\ longer_first
       (List.map (fun e => List.length (os.path e)) (filter os.is_dir separated))
  /\ Unmount.separate_file_and_directory separated = separated.
Proof.
  cbv zeta. unfold Unmount.separate_file_and_directory.
  split; [apply (separate_perm os.is_dir)|].
  split; [apply (separate_files os.is_dir)|].
  split; [apply (separate_order os.is_dir)|].
  split; [apply (separate_order os.is_dir)|].
  apply (separate_idempotent os.is_dir).
Qed.

(** ** X21 *)

(** X21: [separate_file_and_directory] of mount only rearranges: its
    result is a permutation of its argument, with the files first and in
    their original order, then the directories from the longest ["root"] to
    the shortest; applying it a second time changes nothing, so the
    separation made at every level of the recursive walk is absorbed by the
    last one. *)
Theorem mount_separate_rearranges (files : Mount.FILE_INFOS) :
  let separated := Mount.separate_file_and_directory files in
  Permutation files separated
  /\ filter (fun f => negb (Mount.is_dir f)) separated
     = filter (fun f => negb (Mount.is_dir f)) files
  /\ files_first (List.map Mount.is_dir separated)
  /\ longer_first
       (List.map (fun f => List.length (Mount.root f))
          (filter Mount.is_dir separated))
  /\ Mount.separate_file_and_directory separated = separated.
Proof.
  cbv zeta. unfold Mount.separate_file_and_directory.
  split; [apply (separate_perm Mount.is_dir)|].
  split; [apply (separate_files Mount.is_dir)|].
  split; [apply (separate_order Mount.is_dir)|].
  split; [apply (separate_order Mount.is_dir)|].
  apply (separate_idempotent Mount.is_dir).
Qed.

(** ** X22 *)

Lemma concat_perm {A} (l l' : list (list A)) :
  Permutation l l' -> Permutation (List.concat l) (List.concat l').
Proof.
  induction 1 as [|x l l' _ IH|x y l|l l' l'' _ IH1 _ IH2]; cbn [List.concat].
  - reflexivity.
  - now apply Permutation_app_head.
  - rewrite !app_assoc. apply Permutation_app_tail, Permutation_app_comm.
  - now rewrite IH1.
Qed.

Lemma filter_perm {A} (f : A -> bool) (l l' : list A) :
  Permutation l l' -> Permutation (filter f l) (filter f l').
Proof.
  induction 1 as [|x l l' _ IH|x y l|l l' l'' _ IH1 _ IH2]; cbn [filter].
  - reflexivity.
  - destruct (f x); [now apply perm_skip|exact IH].
  - destruct (f x), (f y); try reflexivity. apply perm_swap.
  - now rewrite IH1.
Qed.

(** Sorting and separating only reorder what the loop collects. *)
Lemma mount_get_files_perm (EX AL : list str) (ob rec : bool)
    (dir_path : str) (dirs : list os.fsnode) :
  Permutation (flat_map (Mount.scan EX AL ob rec dir_path) dirs)
    (Mount.get_files EX AL ob rec dir_path dirs).
Proof.
  unfold Mount.get_files, Mount.separate_file_and_directory.
  rewrite <- (separate_perm Mount.is_dir). unfold Mount.scan_order.
  rewrite flat_map_concat_map. apply concat_perm.
  rewrite <- (map_map (fun c => (os.node_mtime c,
                                 Mount.scan EX AL ob rec dir_path c)) snd).
  apply Permutation_map. destruct ob; [apply sorted_desc_perm|reflexivity].
Qed.

(** X22: with [--recursive], a directory that is not excluded and whose
    name ends with an allowed suffix is appended twice by the loop of
    [get_files], once before the recursive call and once after the suffix
    test: the list mount works through holds its descriptor twice. *)
Theorem mount_lists_matching_directory_twice
    (EX AL : list str) (ob : bool) (dir_path nm : str) (mt : Q)
    (children dirs : list os.fsnode) :
  In (os.FsDir nm mt children) dirs ->
  contains EX nm = false -> endswith_any nm AL = true ->
  ~ NoDup (Mount.get_files EX AL ob true dir_path dirs)
  /\ (2 <= List.length
            (filter
               (fun f => if str_eq_dec (Mount.root f) (os.join_path dir_path nm)
                         then true else false)
               (Mount.get_files EX AL ob true dir_path dirs)))%nat.
Proof.
  intros Hin Hex Hsuf.
  pose proof (mount_get_files_perm EX AL ob true dir_path dirs) as Hp.
  apply in_split in Hin as (l1 & l2 & ->).
  rewrite flat_map_app in Hp. cbn [flat_map] in Hp.
  set (e := Mount.encode_file (os.entry dir_path (os.FsDir nm mt children))) in *.
  assert (Hs : exists z,
             Mount.scan EX AL ob true dir_path (os.FsDir nm mt children)
             = e :: z ++ [e]).
  { cbn [Mount.scan os.entry os.is_dir os.node_is_dir os.name os.node_name
           os.path andb]. rewrite Hex, Hsuf. cbn [negb].
    eexists. reflexivity. }
  destruct Hs as [z Hs]. rewrite Hs in Hp. split.
  - intros Hnd. apply (Permutation_NoDup (Permutation_sym Hp)) in Hnd.
    apply NoDup_app_remove_l in Hnd. apply NoDup_app_remove_r in Hnd.
    apply NoDup_cons_iff in Hnd as [Hn _]. apply Hn.
    apply in_or_app. right. now left.
  - set (here := fun f => if str_eq_dec (Mount.root f) (os.join_path dir_path nm)
                          then true else false).
    assert (He : here e = true).
    { unfold here. subst e. cbn [Mount.root Mount.encode_file os.entry os.path
                                    os.node_name].
      now destruct (str_eq_dec _ _). }
    rewrite <- (Permutation_length (filter_perm here _ _ Hp)).
    rewrite !filter_app. cbn [filter]. rewrite He, !length_app.
    cbn [List.length]. rewrite filter_app, length_app. cbn [filter].
    rewrite He. cbn [List.length]. lia.
Qed.

Lemma mount_lists_matching_directory_twice_witness :
  In (os.FsDir (lit "old.txt") (1700000000 # 1) [])
     [os.FsDir (lit "old.txt") (1700000000 # 1) []]
  /\ contains [] (lit "old.txt") = false
  /\ endswith_any (lit "old.txt") [lit "txt"] = true
  /\ ~ NoDup (Mount.get_files [] [lit "txt"] false true (lit "c:\data")
                [os.FsDir (lit "old.txt") (1700000000 # 1) []]).
Proof.
  assert (Hin : In (os.FsDir (lit "old.txt") (1700000000 # 1) [])
                   [os.FsDir (lit "old.txt") (1700000000 # 1) []])
    by (left; reflexivity).
  split; [exact Hin|]. split; [reflexivity|]. split; [reflexivity|].
  exact (proj1 (mount_lists_matching_directory_twice [] [lit "txt"] false
                  (lit "c:\data") (lit "old.txt") (1700000000 # 1) [] _
                  Hin eq_refl eq_refl)).
Defined.

(** ** The command line *)

(** ** X23 *)

(** X23: [split_string] gives no item for an empty text; for any other
    text its items hold no comma, there is one more item than there are
    commas, and joining them with commas gives the text back. *)
Theorem split_string_round_trip (values : str) :
  values <> [] ->
  argparser.split_string [] = []
  /\ join (lit ",") (argparser.split_string values) = values
  /\ Forall (fun item => ~ In 44 item) (argparser.split_string values)
  /\ List.length (argparser.split_string values)
     = S (count_occ N.eq_dec values 44).
Proof.
  intros Hv. unfold argparser.split_string.
  destruct values as [|c v]; [now elim Hv|]. cbn [truthy].
  split; [reflexivity|]. split; [apply (split_join 44)|].
  split; [apply split_segments|apply split_length].
Qed.

Lemma split_string_round_trip_witness :
  lit "png,jpg" <> []
  /\ argparser.split_string (lit "png,jpg") = [lit "png"; lit "jpg"]
  /\ join (lit ",") (argparser.split_string (lit "png,jpg")) = lit "png,jpg".
Proof.
  assert (Hv : lit "png,jpg" <> []) by discriminate.
  destruct (split_string_round_trip (lit "png,jpg") Hv) as (_ & Hj & _).
  split; [exact Hv|]. split; [reflexivity|exact Hj].
Defined.

(** ** X24 *)

Lemma endswith_empty (s : str) : endswith s [] = true.
Proof. unfold endswith. cbn [rev]. now destruct (rev s). Qed.

(** X24: when the [--include] list holds an empty item, as it does when
    the text ends with a comma, starts with one or has two in a row, every
    name ends with an allowed suffix and the suffix filter of mount lets
    every entry through. *)
Theorem empty_include_item_allows_everything
    (args : argparser.args) (root_mtime : Q) (items : list str) :
  argparser.include args = Some items -> In [] items ->
  (forall nm, endswith_any nm (snd (fst (Mount.setup args root_mtime))) = true)
  /\ (forall v, In [] (argparser.split_string (v ++ lit ",")))
  /\ (forall v, In [] (argparser.split_string (lit "," ++ v)))
  /\ (forall v v', In [] (argparser.split_string (v ++ lit ",," ++ v'))).
Proof.
  intros Hi Hin. split; [|split; [|split]].
  - intros nm. cbn [Mount.setup fst snd]. rewrite Hi.
    destruct items as [|x items]; [destruct Hin|]. cbn [truthy app].
    unfold endswith_any. apply existsb_exists. exists []. split; [exact Hin|].
    apply endswith_empty.
  - intros v. unfold argparser.split_string. change (lit ",") with [44].
    destruct (v ++ [44]) as [|c r] eqn:E; [now destruct v|]. cbn [truthy].
    rewrite <- E, split_app_sep. apply in_or_app. right. now left.
  - intros v. unfold argparser.split_string.
    change (lit "," ++ v) with (@nil N ++ 44 :: v). cbn [app truthy].
    change (44 :: v) with (@nil N ++ 44 :: v).
    rewrite (split_app_sep 44 [] v). now left.
  - intros v v'. unfold argparser.split_string. change (lit ",,") with [44; 44].
    destruct (v ++ [44; 44] ++ v') as [|c r] eqn:E; [now destruct v|].
    cbn [truthy]. rewrite <- E. cbn [app]. rewrite split_app_sep.
    apply in_or_app. right. change (44 :: v') with (@nil N ++ 44 :: v').
    rewrite (split_app_sep 44 [] v'). now left.
Qed.

Lemma empty_include_item_allows_everything_witness :
  In [] (argparser.split_string (lit "txt,"))
  /\ endswith_any (lit "Makefile")
       (snd (fst (Mount.setup
                    {| argparser.directory := lit "c:\data";
                       argparser.recursive := false;
                       argparser.sort := false;
                       argparser.hash := false;
                       argparser.use_index := false;
                       argparser.include :=
                         Some (argparser.split_string (lit "txt,"));
                       argparser.exclude := None |}
                    (1700000000 # 1)))) = true.
Proof.
  assert (Hin : In [] (argparser.split_string (lit "txt,")))
    by (right; left; reflexivity).
  split; [exact Hin|].
  destruct (empty_include_item_allows_everything
              {| argparser.directory := lit "c:\data";
                 argparser.recursive := false;
                 argparser.sort := false;
                 argparser.hash := false;
                 argparser.use_index := false;
                 argparser.include := Some (argparser.split_string (lit "txt,"));
                 argparser.exclude := None |}
              (1700000000 # 1) _ eq_refl Hin) as [Hall _].
  exact (Hall (lit "Makefile")).
Defined.

(** ** X25 *)

(** X25: when [--include] is absent or its text is empty, [setup] leaves
    the allow-list empty, and the walker of mount then returns no file for
    any tree: directories only when it recurses, nothing at all when it
    does not. *)
Theorem mount_without_include_keeps_no_file
    (args : argparser.args) (root_mtime : Q) :
  argparser.include args = None
  \/ argparser.include args = Some (argparser.split_string []) ->
  let EX := fst (fst (Mount.setup args root_mtime)) in
  let AL := snd (fst (Mount.setup args root_mtime)) in
  AL = []
  /\ (forall ob rec dir_path dirs,
        Forall (fun f => Mount.is_dir f = true)
          (Mount.get_files EX AL ob rec dir_path dirs))
  /\ (forall ob dir_path dirs, Mount.get_files EX AL ob false dir_path dirs = []).
Proof.
  intros H EX AL.
  assert (E : AL = []).
  { subst AL. cbn [Mount.setup fst snd]. now destruct H as [-> | ->]. }
  split; [exact E|]. rewrite E. split.
  - intros ob rec dir_path dirs. apply mount_empty_allow_list_keeps_no_file.
  - intros ob dir_path dirs. rewrite get_files_visits_in_order.
    replace (flat_map _ _) with (@nil Mount.file_info); [reflexivity|].
    symmetry. induction (if ob then sorted_desc os.node_mtime Qle_bool dirs else dirs)
      as [|n l IH]; [reflexivity|].
    cbn [flat_map]. rewrite <- IH, mount_scan_flat.
    cbn [endswith_any existsb]. now rewrite andb_false_r.
Qed.

Lemma mount_without_include_keeps_no_file_witness :
  Mount.get_files [] [] false false (lit "c:\data") tree_report = []
  /\ snd (fst (Mount.setup
                 {| argparser.directory := lit "c:\data";
                    argparser.recursive := false;
                    argparser.sort := false;
                    argparser.hash := false;
                    argparser.use_index := false;
                    argparser.include := None;
                    argparser.exclude := None |}
                 (1700000000 # 1))) = [].
Proof.
  destruct (mount_without_include_keeps_no_file
              {| argparser.directory := lit "c:\data";
                 argparser.recursive := false;
                 argparser.sort := false;
                 argparser.hash := false;
                 argparser.use_index := false;
                 argparser.include := None;
                 argparser.exclude := None |}
              (1700000000 # 1) (or_introl eq_refl)) as (Hal & _ & Hnone).
  split; [exact (Hnone false (lit "c:\data") tree_report)|exact Hal].
Defined.

(** ** X26 *)

Lemma utf8_decode_char (c : N) (rest : bytes) :
  encodable_char c = true ->
  utf8_decode (utf8_char c ++ rest)
  = bind (utf8_decode rest) (fun s => Ok (c :: s)).
Proof.
  unfold encodable_char, in_range. intros H.
  apply andb_prop in H as [Hlt Hs]. apply N.ltb_lt in Hlt.
  apply negb_true_iff in Hs.
  assert (Hsur : c < 0xD800 \/ 0xDFFF < c).
  { destruct (N.leb_spec 0xD800 c), (N.leb_spec c 0xDFFF);
      cbn [andb] in Hs; try discriminate; lia. }
  clear Hs.
  pose proof (N.div_mod c 64 ltac:(lia)) as E1.
  pose proof (N.mod_lt c 64 ltac:(lia)) as L1.
  pose proof (N.div_mod (c / 64) 64 ltac:(lia)) as E2.
  pose proof (N.mod_lt (c / 64) 64 ltac:(lia)) as L2.
  pose proof (N.div_mod (c / 64 / 64) 64 ltac:(lia)) as E3.
  pose proof (N.mod_lt (c / 64 / 64) 64 ltac:(lia)) as L3.
  unfold utf8_char.
  replace (c / 4096) with (c / 64 / 64) by (rewrite N.Div0.div_div; reflexivity).
  replace (c / 262144) with (c / 64 / 64 / 64)
    by (rewrite !N.Div0.div_div; reflexivity).
  generalize dependent (c mod 64). intros r1 E1 L1.
  generalize dependent ((c / 64) mod 64). intros r2 E2 L2.
  generalize dependent ((c / 64 / 64) mod 64). intros r3 E3 L3.
  generalize dependent (c / 64 / 64 / 64). intros q3 E3.
  generalize dependent (c / 64 / 64). intros q2 E2 E3.
  generalize dependent (c / 64). intros q1 E1 E2.
  destruct (N.ltb_spec c 0x80) as [A|A].
  { cbn [app utf8_decode]. tests; reflexivity. }
  destruct (N.ltb_spec c 0x800) as [B|B].
  { cbn [app utf8_decode]. unfold in_range. tests; cbn [andb];
    destruct (utf8_decode rest); cbn [bind]; try reflexivity; do 2 f_equal; lia. }
  destruct (N.ltb_spec c 0x10000) as [C|C].
  { cbn [app utf8_decode]. unfold in_range. tests; cbn [andb];
    destruct (utf8_decode rest); cbn [bind]; try reflexivity; do 2 f_equal; lia. }
  cbn [app utf8_decode]. unfold in_range. tests; cbn [andb];
    destruct (utf8_decode rest); cbn [bind]; try reflexivity; do 2 f_equal; lia.
Qed.

Lemma utf8_decode_encode (s : str) :
  encodable s = true -> utf8_decode (utf8_bytes s) = Ok s.
Proof.
  induction s as [|c s IH]; [reflexivity|].
  cbn [encodable forallb]. intros H. apply andb_prop in H as [Hc Hs].
  cbn [utf8_bytes flat_map]. fold (utf8_bytes s).
  rewrite (utf8_decode_char _ _ Hc), (IH Hs). reflexivity.
Qed.

(** X26: nothing of the plaintext is lost. Whatever characters it holds,
    decoding as UTF-8 the code points that [decrypt] returns for the output
    of [encrypt] gives the plaintext back; so under one key two different
    plaintexts never have the same ciphertext. *)
Theorem encrypt_loses_nothing (k d c : str) :
  Cipher.encrypt k d = Ok c ->
  (exists p, Cipher.decrypt k c = Ok p /\ utf8_decode p = Ok d)
  /\ (forall d', Cipher.encrypt k d' = Ok c -> d' = d).
Proof.
  intros H. pose proof (decrypt_encrypt_bytes _ _ _ H) as Hd.
  destruct (encrypt_inv _ _ _ H) as (_ & He & _).
  pose proof (utf8_decode_encode _ He) as Hu.
  split; [exists (utf8_bytes d); now split|].
  intros d' H'. pose proof (decrypt_encrypt_bytes _ _ _ H') as Hd'.
  destruct (encrypt_inv _ _ _ H') as (_ & He' & _).
  pose proof (utf8_decode_encode _ He') as Hu'.
  rewrite Hd in Hd'. injection Hd' as E. rewrite <- E in Hu'. congruence.
Qed.

Lemma encrypt_loses_nothing_witness :
  Cipher.encrypt (lit "k") [233] = Ok (lit "41fd")
  /\ exists p, Cipher.decrypt (lit "k") (lit "41fd") = Ok p
               /\ utf8_decode p = Ok [233].
Proof.
  assert (H : Cipher.encrypt (lit "k") [233] = Ok (lit "41fd"))
    by (vm_compute; reflexivity).
  split; [exact H|]. exact (proj1 (encrypt_loses_nothing _ _ _ H)).
Defined.

(** ** The loop of unmount and the host *)

(** ** X27 *)

(** X27: when every name in the list decodes and the formatting of the
    timestamp does not raise, the loop of unmount returns normally whatever
    the metadata writes and the renames do: their exceptions never leave
    it. Everything printed before stays, and at most one exception is
    printed per entry. *)
Theorem unmount_loop_contains_host_failures {W} `{Host W}
    (files : Unmount.FILE_INFOS) (d ui : bool) (w : W) (out : list exn) :
  (forall t, returns (strftime_local t)) ->
  Forall (fun f => returns (Unmount.decoded_entry f ui)) files ->
  exists w' printed,
    Unmount.change_file_names files d ui (w, out) = Ok (w', out ++ printed)
    /\ (List.length printed <= List.length files)%nat.
Proof.
  intros Hs Hall. revert w out.
  induction Hall as [|file rest Hd _ IH]; intros w out.
  - exists w, []. rewrite app_nil_r. split; [reflexivity|apply Nat.le_refl].
  - destruct Hd as [[[t ext] fn] Hd]. destruct (Hs t) as [formatted Hf].
    rewrite (change_file_names_step _ _ _ _ _ _ _ _ _ _ Hd Hf).
    destruct (filedate_set (os.path file) formatted w) as [w1|x].
    + unfold Unmount.rename_entry.
      destruct (Unmount.pick_filename fn ui w1) as [fn' w2].
      destruct (os_rename (os.path file) (Unmount.new_filename_of file ext fn') w2)
        as [w3|ex].
      * destruct (IH w3 out) as (w' & printed & E & L).
        exists w', printed. split; [exact E|]. cbn [List.length]. lia.
      * destruct (IH w2 (out ++ [ex])) as (w' & printed & E & L).
        exists w', (ex :: printed). split.
        -- rewrite E. now rewrite <- app_assoc.
        -- cbn [List.length]. lia.
    + exists w, []. rewrite app_nil_r. split; [reflexivity|].
      cbn [List.length]. lia.
Qed.

Lemma unmount_loop_contains_host_failures_witness :
  exists w' printed,
    Unmount.change_file_names [sample_mounted; sample_mounted] false true
      (Sim.init [os.path sample_mounted], [])
    = Ok (w', [] ++ printed)
    /\ (List.length printed <= 2)%nat.
Proof.
  assert (Hs : forall t : Z, returns (@strftime_local Sim.world _ t))
    by (intros t; now exists (str_of_int t)).
  assert (Hd : returns (Unmount.decoded_entry sample_mounted true))
    by (exists (1700000001%Z, lit "txt", lit "report"); vm_compute; reflexivity).
  exact (unmount_loop_contains_host_failures [sample_mounted; sample_mounted]
           false true (Sim.init [os.path sample_mounted]) [] Hs
           (Forall_cons (P := fun f => returns (Unmount.decoded_entry f true))
              sample_mounted Hd
              (Forall_cons (P := fun f => returns (Unmount.decoded_entry f true))
                 sample_mounted Hd (Forall_nil _)))).
Defined.

(** ** X28 *)

(** X28: the two [--hash] flags have to agree. A root directory mounted
    without [--hash] carries no name in its token; when it is unmounted
    with [--hash], [change_root_directory_name] decodes an empty name and
    asks for the root to be renamed to its parent path followed by a
    backslash. *)
Theorem root_mounted_without_hash_has_no_name_to_restore
    (parent nm uuid : str) (mt : Q) (i : bool) (token : str) :
  ~ In 92 nm -> is_ascii nm = true -> is_ascii uuid = true ->
  Mount.filename_of (Mount.root_dir (parent ++ [os.sep] ++ nm) mt) uuid false i
  = Ok token ->
  forall W `(Host W) (w : W),
    Unmount.change_root_directory_name (parent ++ [os.sep] ++ token) w
    = os_rename (parent ++ [os.sep] ++ token) (parent ++ [os.sep]) w.
Proof.
  intros Hn Ha Hu Hf.
  destruct (parent_of_child 92 parent nm Hn) as [Hp Hl].
  pose proof (filename_of_no_separator _ _ _ _ _ 92 Hf (or_introl eq_refl))
    as Ht.
  destruct (parent_of_child 92 parent token Ht) as [Hp' Hl'].
  intros W HW w. unfold Unmount.change_root_directory_name, os.sep in *.
  rewrite Hp', Hl'.
  assert (Hname : Mount.name (Mount.root_dir (parent ++ [92] ++ nm) mt) = nm)
    by exact Hl.
  assert (Hmt : is_ascii (Mount.mtime (Mount.root_dir (parent ++ [92] ++ nm) mt))
                = true) by apply lower_hex_ascii, mtime_lower_hex.
  assert (Ha' : is_ascii (Mount.name (Mount.root_dir (parent ++ [92] ++ nm) mt))
                = true) by (rewrite Hname; exact Ha).
  rewrite (decode_file_ascii _ uuid false i false token Hu Ha' Hmt Hf).
  cbn [bind]. unfold embedded_name.
  cbn [Mount.is_dir Mount.root_dir]. now rewrite app_nil_r.
Qed.

Lemma root_mounted_without_hash_has_no_name_to_restore_witness :
  exists token,
    Mount.filename_of (Mount.root_dir (lit "c:\data") (1700000000 # 1))
      (Sim.nth_uuid 0) false false = Ok token
    /\ forall w : Sim.world,
         Unmount.change_root_directory_name (lit "c:\" ++ token) w
         = os_rename (lit "c:\" ++ token) (lit "c:\") w.
Proof.
  destruct (Mount.filename_of (Mount.root_dir (lit "c:\data") (1700000000 # 1))
              (Sim.nth_uuid 0) false false) as [token|ex] eqn:Hf;
    [|vm_compute in Hf; discriminate].
  exists token. split; [reflexivity|].
  assert (Hn : ~ In 92 (lit "data")) by (vm_compute; intuition discriminate).
  intros w.
  exact (root_mounted_without_hash_has_no_name_to_restore (lit "c:") (lit "data")
           (Sim.nth_uuid 0) (1700000000 # 1) false token Hn eq_refl eq_refl Hf
           Sim.world Sim.host w).
Defined.

(** ** X29 *)

(** X29: the sort key [sort_by_filename] of a directory is its whole
    name. The key of a file holds no dot and is the part of the name in
    front of its first dot: the name is the key alone, or the key, a dot and
    the rest; so it is empty for a name that starts with a dot. *)
Theorem sort_by_filename_key (file : os.DirEntry) :
  (os.is_dir file = true -> Mount.sort_by_filename file = os.name file)
  /\ (os.is_dir file = false ->
      ~ In 46 (Mount.sort_by_filename file)
      /\ (os.name file = Mount.sort_by_filename file
          \/ exists rest,
               os.name file = Mount.sort_by_filename file ++ [46] ++ rest)
      /\ (forall rest, os.name file = 46 :: rest ->
            Mount.sort_by_filename file = [])).
Proof.
  unfold Mount.sort_by_filename. split; intros Hd; rewrite Hd; [reflexivity|].
  pose proof (split_segments 46 (os.name file)) as Hs.
  pose proof (split_join 46 (os.name file)) as Hj.
  split; [|split].
  - destruct (split 46 (os.name file)) as [|h t]; [intros []|].
    now inversion Hs.
  - destruct (split 46 (os.name file)) as [|h t] eqn:E;
      [now elim (split_not_nil 46 (os.name file))|].
    cbn [hd]. destruct t as [|h' t'].
    + left. now rewrite <- Hj.
    + right. exists (join [46] (h' :: t')). rewrite <- Hj at 1. reflexivity.
  - intros rest Hn. rewrite Hn. change (46 :: rest) with (@nil N ++ 46 :: rest).
    rewrite split_app_sep. reflexivity.
Qed.

Lemma sort_by_filename_key_witness :
  os.is_dir sample_entry = false
  /\ ~ In 46 (Mount.sort_by_filename sample_entry)
  /\ Mount.sort_by_filename sample_entry = lit "report".
Proof.
  split; [reflexivity|]. split; [|reflexivity].
  exact (proj1 (proj2 (sort_by_filename_key sample_entry) eq_refl)).
Defined.
